(** * cmd/ld/data.c: data layout and relocation

    A shallow embedding of the linker's data-layout and relocation core
    ([src/cmd/ld/data.c]) together with the properties its specification
    states about it.

    Conventions of the model.
    - C integers are [Z].  Conversions the source performs between widths
      ([fl = v], [int32 off = s->size], the [int32] parameter of [symgrow])
      are written out with [int32], [int64] and [uint64]; signed arithmetic
      itself is exact (C leaves its overflow undefined).
    - A [Sym*] is a [nat]; the heap of symbols is a [gmap nat Sym].
      A null or dangling pointer is a key without a binding: dereferencing
      it ends the run ([None] in the option monad), and so does a byte
      access outside the allocated buffer [s->p[0 .. maxp)].
    - The linked lists [textp], [datap] ([Sym.next]) are lists of pointers.
    - Constants, tables and hooks declared in headers or files outside
      [data.c] are fields of [Conf] and [Ext]. *)

From Stdlib Require Import ZArith Lia String Ascii.
From stdpp Require Import base option list gmap sorting.

Local Open Scope Z_scope.

(** ** Link configuration: constants of [l.h], [lib.h], [mgc0.h] *)

Record Conf := {
  (* architecture and mode *)
  thechar : ascii;
  PtrSize : Z;
  HEADTYPE : Z;
  Hwindows : Z;
  isobj : bool;
  flag_shared : bool;
  debug_d : bool;
  iself : bool;
  (* byte order: the machine running the linker, and the [inuxi] tables *)
  host_be : bool;
  inuxi1 : list nat;
  inuxi2 : list nat;
  inuxi4 : list nat;
  inuxi8 : list nat;
  (* symbol kinds *)
  STEXT : Z;
  STYPE : Z;
  SGOSTRING : Z;
  SRODATA : Z;
  STYPELINK : Z;
  SGCDATA : Z;
  SGCBSS : Z;
  SPCLNTAB : Z;
  SELFROSECT : Z;
  SELFSECT : Z;
  SNOPTRDATA : Z;
  SDATARELRO : Z;
  SDATA : Z;
  SBSS : Z;
  SNOPTRBSS : Z;
  SXREF : Z;
  SCONST : Z;
  SDYNIMPORT : Z;
  SSUB : Z;
  SMASK : Z;
  (* relocation types *)
  D_ADDR : Z;
  D_PCREL : Z;
  D_SIZE : Z;
  (* garbage collector opcodes *)
  GC_END : Z;
  GC_APTR : Z;
  GC_CALL : Z
}.

(** ** Symbols and relocations *)

Record Reloc := {
  r_off : Z;
  r_siz : Z;
  r_type : Z;
  r_add : Z;
  r_sym : option nat
}.

Record Sym := {
  s_name : string;
  s_type : Z;
  s_size : Z;
  s_value : Z;
  s_align : Z;
  s_reachable : bool;
  s_special : bool;
  s_plt : Z;
  s_got : Z;
  s_gotype : option nat;
  s_outer : option nat;
  s_sect : option nat;
  s_rel_ro : bool;
  s_dynimpname : option string;
  s_dynexport : bool;
  (* SDATA, SBSS *)
  s_p : list Z;
  s_np : Z;
  s_maxp : Z;
  s_r : list Reloc
}.

Definition set_type (s : Sym) (v : Z) : Sym :=
  {| s_name := s_name s; s_type := v; s_size := s_size s; s_value := s_value s;
     s_align := s_align s; s_reachable := s_reachable s; s_special := s_special s;
     s_plt := s_plt s; s_got := s_got s; s_gotype := s_gotype s; s_outer := s_outer s;
     s_sect := s_sect s; s_rel_ro := s_rel_ro s; s_dynimpname := s_dynimpname s;
     s_dynexport := s_dynexport s; s_p := s_p s; s_np := s_np s; s_maxp := s_maxp s;
     s_r := s_r s |}.

Definition set_size (s : Sym) (v : Z) : Sym :=
  {| s_name := s_name s; s_type := s_type s; s_size := v; s_value := s_value s;
     s_align := s_align s; s_reachable := s_reachable s; s_special := s_special s;
     s_plt := s_plt s; s_got := s_got s; s_gotype := s_gotype s; s_outer := s_outer s;
     s_sect := s_sect s; s_rel_ro := s_rel_ro s; s_dynimpname := s_dynimpname s;
     s_dynexport := s_dynexport s; s_p := s_p s; s_np := s_np s; s_maxp := s_maxp s;
     s_r := s_r s |}.

Definition set_value (s : Sym) (v : Z) : Sym :=
  {| s_name := s_name s; s_type := s_type s; s_size := s_size s; s_value := v;
     s_align := s_align s; s_reachable := s_reachable s; s_special := s_special s;
     s_plt := s_plt s; s_got := s_got s; s_gotype := s_gotype s; s_outer := s_outer s;
     s_sect := s_sect s; s_rel_ro := s_rel_ro s; s_dynimpname := s_dynimpname s;
     s_dynexport := s_dynexport s; s_p := s_p s; s_np := s_np s; s_maxp := s_maxp s;
     s_r := s_r s |}.

Definition set_reachable (s : Sym) (v : bool) : Sym :=
  {| s_name := s_name s; s_type := s_type s; s_size := s_size s; s_value := s_value s;
     s_align := s_align s; s_reachable := v; s_special := s_special s;
     s_plt := s_plt s; s_got := s_got s; s_gotype := s_gotype s; s_outer := s_outer s;
     s_sect := s_sect s; s_rel_ro := s_rel_ro s; s_dynimpname := s_dynimpname s;
     s_dynexport := s_dynexport s; s_p := s_p s; s_np := s_np s; s_maxp := s_maxp s;
     s_r := s_r s |}.

Definition set_plt (s : Sym) (v : Z) : Sym :=
  {| s_name := s_name s; s_type := s_type s; s_size := s_size s; s_value := s_value s;
     s_align := s_align s; s_reachable := s_reachable s; s_special := s_special s;
     s_plt := v; s_got := s_got s; s_gotype := s_gotype s; s_outer := s_outer s;
     s_sect := s_sect s; s_rel_ro := s_rel_ro s; s_dynimpname := s_dynimpname s;
     s_dynexport := s_dynexport s; s_p := s_p s; s_np := s_np s; s_maxp := s_maxp s;
     s_r := s_r s |}.

Definition set_sect (s : Sym) (v : option nat) : Sym :=
  {| s_name := s_name s; s_type := s_type s; s_size := s_size s; s_value := s_value s;
     s_align := s_align s; s_reachable := s_reachable s; s_special := s_special s;
     s_plt := s_plt s; s_got := s_got s; s_gotype := s_gotype s; s_outer := s_outer s;
     s_sect := v; s_rel_ro := s_rel_ro s; s_dynimpname := s_dynimpname s;
     s_dynexport := s_dynexport s; s_p := s_p s; s_np := s_np s; s_maxp := s_maxp s;
     s_r := s_r s |}.

Definition set_rel_ro (s : Sym) (v : bool) : Sym :=
  {| s_name := s_name s; s_type := s_type s; s_size := s_size s; s_value := s_value s;
     s_align := s_align s; s_reachable := s_reachable s; s_special := s_special s;
     s_plt := s_plt s; s_got := s_got s; s_gotype := s_gotype s; s_outer := s_outer s;
     s_sect := s_sect s; s_rel_ro := v; s_dynimpname := s_dynimpname s;
     s_dynexport := s_dynexport s; s_p := s_p s; s_np := s_np s; s_maxp := s_maxp s;
     s_r := s_r s |}.

Definition set_p (s : Sym) (v : list Z) : Sym :=
  {| s_name := s_name s; s_type := s_type s; s_size := s_size s; s_value := s_value s;
     s_align := s_align s; s_reachable := s_reachable s; s_special := s_special s;
     s_plt := s_plt s; s_got := s_got s; s_gotype := s_gotype s; s_outer := s_outer s;
     s_sect := s_sect s; s_rel_ro := s_rel_ro s; s_dynimpname := s_dynimpname s;
     s_dynexport := s_dynexport s; s_p := v; s_np := s_np s; s_maxp := s_maxp s;
     s_r := s_r s |}.

Definition set_np (s : Sym) (v : Z) : Sym :=
  {| s_name := s_name s; s_type := s_type s; s_size := s_size s; s_value := s_value s;
     s_align := s_align s; s_reachable := s_reachable s; s_special := s_special s;
     s_plt := s_plt s; s_got := s_got s; s_gotype := s_gotype s; s_outer := s_outer s;
     s_sect := s_sect s; s_rel_ro := s_rel_ro s; s_dynimpname := s_dynimpname s;
     s_dynexport := s_dynexport s; s_p := s_p s; s_np := v; s_maxp := s_maxp s;
     s_r := s_r s |}.

Definition set_maxp (s : Sym) (v : Z) : Sym :=
  {| s_name := s_name s; s_type := s_type s; s_size := s_size s; s_value := s_value s;
     s_align := s_align s; s_reachable := s_reachable s; s_special := s_special s;
     s_plt := s_plt s; s_got := s_got s; s_gotype := s_gotype s; s_outer := s_outer s;
     s_sect := s_sect s; s_rel_ro := s_rel_ro s; s_dynimpname := s_dynimpname s;
     s_dynexport := s_dynexport s; s_p := s_p s; s_np := s_np s; s_maxp := v;
     s_r := s_r s |}.

Definition set_r (s : Sym) (v : list Reloc) : Sym :=
  {| s_name := s_name s; s_type := s_type s; s_size := s_size s; s_value := s_value s;
     s_align := s_align s; s_reachable := s_reachable s; s_special := s_special s;
     s_plt := s_plt s; s_got := s_got s; s_gotype := s_gotype s; s_outer := s_outer s;
     s_sect := s_sect s; s_rel_ro := s_rel_ro s; s_dynimpname := s_dynimpname s;
     s_dynexport := s_dynexport s; s_p := s_p s; s_np := s_np s; s_maxp := s_maxp s;
     s_r := v |}.

(** The symbol heap. *)
Abbreviation Heap := (gmap nat Sym).

(** ** [strcmp], [datcmp], [datsort] *)

Definition code (c : ascii) : Z := Z.of_N (N_of_ascii c).

(** [*s] for a NUL-terminated string: the end of the string reads as 0. *)
Definition peek (s : string) : Z :=
  match s with EmptyString => 0 | String c _ => code c end.

Definition advance (s : string) : string :=
  match s with EmptyString => EmptyString | String _ t => t end.

(** [while( *a && *a == *b) a++, b++; return *a - *b;] on unsigned bytes. *)
Fixpoint strcmp (a b : string) : Z :=
  match a with
  | EmptyString => 0 - peek b
  | String c a' =>
      if (code c =? 0) || negb (code c =? peek b) then code c - peek b
      else strcmp a' (advance b)
  end.

Definition datcmp (s1 s2 : Sym) : Z :=
  if negb (s_type s1 =? s_type s2) then s_type s1 - s_type s2
  else if negb (s_size s1 =? s_size s2) then
    (if s_size s1 <? s_size s2 then -1 else 1)
  else strcmp (s_name s1) (s_name s2).

(** [datcmp] through two pointers.  Comparing through a dangling pointer
    has no meaning in the source; the model gives 0. *)
Definition datcmp_at (h : Heap) (a b : nat) : Z :=
  match h !! a, h !! b with
  | Some s1, Some s2 => datcmp s1 s2
  | _, _ => 0
  end.

(** The two-speed walk that finds the cut: [l2] advances twice for each
    step of [l1]; the result is the index of [l1] when [l2] falls off. *)
Fixpoint datsort_mid {A} (l2 : list A) (k : nat) : nat :=
  match l2 with
  | _ :: _ :: ((_ :: _) as l2') => datsort_mid l2' (S k)
  | _ => k
  end.

(** The merge loop, after the lead element has been chosen: the nodes that
    end up linked behind [le]. *)
Fixpoint datmerge (h : Heap) (l1 : list nat) : list nat -> list nat :=
  fix inner (l2 : list nat) : list nat :=
    match l1, l2 with
    | [], _ => l2
    | _, [] => l1
    | a :: l1', b :: l2' =>
        if datcmp_at h a b <? 0 then a :: datmerge h l1' l2
        else b :: inner l2'
    end.

Fixpoint datsort_rec (fuel : nat) (h : Heap) (l : list nat) : list nat :=
  match l with
  | [] | [_] => l
  | _ =>
      match fuel with
      | O => l
      | S fuel' =>
          let k := datsort_mid l 0 in
          let l1 := datsort_rec fuel' h (take (S k) l) in
          let l2 := datsort_rec fuel' h (drop (S k) l) in
          (* set up lead element *)
          match l1, l2 with
          | a :: l1', b :: l2' =>
              if datcmp_at h a b <? 0 then a :: datmerge h l1' l2
              else b :: datmerge h l1 l2'
          | _, _ => l1 ++ l2
          end
      end
  end.

(** The recursion halves the list, so [length l] levels are enough. *)
Definition datsort (h : Heap) (l : list nat) : list nat :=
  datsort_rec (length l) h l.

(** ** Integer conversions and the byte view of a host integer *)

Definition int32 (x : Z) : Z := (x + 2 ^ 31) mod 2 ^ 32 - 2 ^ 31.
Definition int64 (x : Z) : Z := (x + 2 ^ 63) mod 2 ^ 64 - 2 ^ 63.
Definition uint64 (x : Z) : Z := x mod 2 ^ 64.

(** The byte of significance [k] (0 is the least significant) of a two's
    complement integer. *)
Definition byte_of (v : Z) (k : nat) : Z :=
  Z.land (Z.shiftr v (8 * Z.of_nat k)) 255.

(** Which byte of a [w]-byte integer the host keeps at address [j]. *)
Definition host_sig (cfg : Conf) (w j : nat) : nat :=
  if host_be cfg then (w - 1 - j)%nat else j.

(** [cast = (uchar* )&x] for an [x] of [w] bytes: the host's memory image. *)
Definition cast (cfg : Conf) (w : nat) (x : Z) : list Z :=
  (fun j => byte_of x (host_sig cfg w j)) <$> seq 0 w.

(** [p[i] = b], inside the allocated buffer only. *)
Definition poke (p : list Z) (i : Z) (b : Z) : option (list Z) :=
  if (0 <=? i) && (i <? Z.of_nat (length p)) then Some (<[Z.to_nat i := b]> p)
  else None.

(** [for(i=i0; i<i0+n; i++) p[off+i] = cast[tab[i]];] *)
Fixpoint nuxi_put (tab : list nat) (img : list Z) (off : Z) (i n : nat)
    (p : list Z) : option (list Z) :=
  match n with
  | O => Some p
  | S n' =>
      j ← tab !! i;
      b ← img !! j;
      p' ← poke p (off + Z.of_nat i) b;
      nuxi_put tab img off (S i) n' p'
  end.

(** ** Growing payloads and relocation arrays *)

(** [while(s->maxp < siz) s->maxp <<= 1;] with [maxp] an [int32]: the shift
    wraps.  After 32 shifts [maxp] is 0 and stays 0, so a loop that has not
    ended by then never ends: [None]. *)
Fixpoint symgrow_cap (fuel : nat) (maxp siz : Z) : option Z :=
  if maxp <? siz then
    match fuel with
    | O => None
    | S fuel' => symgrow_cap fuel' (int32 (maxp * 2)) siz
    end
  else Some maxp.

(** [realloc] keeps the old bytes, [memset] clears [np .. maxp).  [realloc]
    is taken to succeed: the exit of the linker when memory runs out
    ([diag("out of memory"); errorexit()]) is not part of the model, which
    has no bound on memory.  [None] is a call that does not return. *)
Definition symgrow (s : Sym) (siz : Z) : option Sym :=
  if s_np s >=? siz then Some s
  else
    s1 ← (if s_maxp s <? siz then
            maxp ← symgrow_cap 32
                      (if s_maxp s =? 0 then 8 else s_maxp s) siz;
            Some (set_p (set_maxp s maxp)
                    (take (Z.to_nat (s_np s)) (s_p s)
                       ++ replicate (Z.to_nat (maxp - s_np s)) 0))
          else Some s);
    Some (set_np s1 siz).

Definition mkReloc (off siz type add : Z) (sym : option nat) : Reloc :=
  {| r_off := off; r_siz := siz; r_type := type; r_add := add; r_sym := sym |}.

(** [addrel] hands out the next, zeroed, slot of [s->r]; the callers fill it
    at once, so the model appends the finished record.  The capacity
    [maxr] of the array is not modelled, nor the exit of the linker when
    [realloc] fails: allocation is taken to succeed. *)
Definition addrel (s : Sym) (r : Reloc) : Sym := set_r s (s_r s ++ [r]).

(** ** The byte encoder *)

Definition setuintxx (cfg : Conf) (s : Sym) (off v wid : Z) : option (Z * Sym) :=
  let v := uint64 v in
  let s := if s_type s =? 0 then set_type s (SDATA cfg) else s in
  let s := set_reachable s true in
  s ← (if s_size s <? off + wid
       then symgrow (set_size s (off + wid)) (int32 (off + wid))
       else Some s);
  let fl := int32 v in
  p ← (if wid =? 1 then
         j ← inuxi1 cfg !! 0%nat; b ← cast cfg 4 fl !! j; poke (s_p s) off b
       else if wid =? 2 then nuxi_put (inuxi2 cfg) (cast cfg 4 fl) off 0 2 (s_p s)
       else if wid =? 4 then nuxi_put (inuxi4 cfg) (cast cfg 4 fl) off 0 4 (s_p s)
       else if wid =? 8 then
         let o := int64 v in
         nuxi_put (inuxi8 cfg) (cast cfg 8 o) off 0 8 (s_p s)
       else Some (s_p s));
  Some (off, set_p s p).

Definition adduintxx (cfg : Conf) (s : Sym) (v wid : Z) : option (Z * Sym) :=
  let off := int32 (s_size s) in
  '(_, s) ← setuintxx cfg s off v wid;
  Some (off, s).

Definition adduint8 (cfg : Conf) (s : Sym) (v : Z) : option (Z * Sym) :=
  adduintxx cfg s (v mod 2 ^ 8) 1.

Definition adduint16 (cfg : Conf) (s : Sym) (v : Z) : option (Z * Sym) :=
  adduintxx cfg s (v mod 2 ^ 16) 2.

Definition adduint32 (cfg : Conf) (s : Sym) (v : Z) : option (Z * Sym) :=
  adduintxx cfg s (v mod 2 ^ 32) 4.

Definition adduint64 (cfg : Conf) (s : Sym) (v : Z) : option (Z * Sym) :=
  adduintxx cfg s (v mod 2 ^ 64) 8.

Definition addaddrplus (cfg : Conf) (s : Sym) (t : option nat) (add : Z)
    : option (Z * Sym) :=
  let s := if s_type s =? 0 then set_type s (SDATA cfg) else s in
  let s := set_reachable s true in
  let i := s_size s in
  let s := set_size s (s_size s + PtrSize cfg) in
  s ← symgrow s (int32 (s_size s));
  Some (i, addrel s (mkReloc i (PtrSize cfg) (D_ADDR cfg) (int32 add) t)).

Definition addaddrplus4 (cfg : Conf) (s : Sym) (t : option nat) (add : Z)
    : option (Z * Sym) :=
  let s := if s_type s =? 0 then set_type s (SDATA cfg) else s in
  let s := set_reachable s true in
  let i := s_size s in
  let s := set_size s (s_size s + 4) in
  s ← symgrow s (int32 (s_size s));
  Some (i, addrel s (mkReloc i 4 (D_ADDR cfg) (int32 add) t)).

Definition addpcrelplus (cfg : Conf) (s : Sym) (t : option nat) (add : Z)
    : option (Z * Sym) :=
  let s := if s_type s =? 0 then set_type s (SDATA cfg) else s in
  let s := set_reachable s true in
  let i := s_size s in
  let s := set_size s (s_size s + 4) in
  s ← symgrow s (int32 (s_size s));
  Some (i, addrel s (mkReloc i 4 (D_PCREL cfg) (int32 add) t)).

Definition addaddr (cfg : Conf) (s : Sym) (t : option nat) : option (Z * Sym) :=
  addaddrplus cfg s t 0.

(** The encoder applied to the symbol a pointer designates. *)
Definition at_sym (h : Heap) (id : nat) (f : Sym -> option (Z * Sym))
    : option (Z * Heap) :=
  s ← h !! id;
  '(x, s') ← f s;
  Some (x, <[id := s']> h).

(** ** Linker state and hooks *)

Inductive Diag :=
  | InvalidRelocation (name : string) (off siz np : Z)
  | NotDefined (name : string)
  | UnhandledRelocation (name : string) (type rtype : Z)
  | UnreachableSym (name target : string)
  | UnknownReloc (rtype : Z)
  | BadRelocSize (siz : Z) (name : string)
  | UnexpectedSymbolType (name : string) (type : Z)
  | InitializeBounds (name : string) (size np : Z).

Inductive Seg := Segtext | Segdata.

(** Modelled from the spec: the [Section] structure ([lib.h]) is
    [{ name, flags (rwx triple), vaddr, len, segment }]. *)
Record Section := {
  sect_seg : Seg;
  sect_name : string;
  sect_rwx : Z;
  sect_vaddr : Z;
  sect_len : Z
}.

Record Link := {
  syms : Heap;
  allsym : list nat;
  textp : list nat;
  datap : list nat;
  sects : list Section;
  diags : list Diag
}.

Definition set_syms (L : Link) (h : Heap) : Link :=
  {| syms := h; allsym := allsym L; textp := textp L; datap := datap L; sects := sects L;
     diags := diags L |}.

Definition set_datap (L : Link) (l : list nat) : Link :=
  {| syms := syms L; allsym := allsym L; textp := textp L; datap := l; sects := sects L;
     diags := diags L |}.

Definition set_sects (L : Link) (l : list Section) : Link :=
  {| syms := syms L; allsym := allsym L; textp := textp L; datap := datap L; sects := l;
     diags := diags L |}.

Definition diag (d : Diag) (L : Link) : Link :=
  {| syms := syms L; allsym := allsym L; textp := textp L; datap := datap L; sects := sects L;
     diags := diags L ++ [d] |}.

(** Functions of other files of the linker that [data.c] calls. *)
Record Ext := {
  lookup : string -> nat;
  lookuprel : nat;
  archreloc : Reloc -> Sym -> Z * Z;
  adddynrel : Heap -> nat -> nat -> option Heap;
  adddynrela : Heap -> nat -> nat -> nat -> option Heap;
  elfdynhash : Heap -> option Heap;
  decodetype_gc : Heap -> nat -> option nat
}.

(** Modelled from the spec: [lookup(name, version)] ([lib.c]) interns a
    symbol by name.  A symbol it creates has no kind, no size and no
    payload; its [plt] and [got] are -1, "absent". *)
Definition newsym (name : string) : Sym :=
  {| s_name := name; s_type := 0; s_size := 0; s_value := 0; s_align := 0;
     s_reachable := false; s_special := false; s_plt := -1; s_got := -1;
     s_gotype := None; s_outer := None; s_sect := None; s_rel_ro := false;
     s_dynimpname := None; s_dynexport := false; s_p := []; s_np := 0;
     s_maxp := 0; s_r := [] |}.

Definition intern (ext : Ext) (name : string) (h : Heap) : nat * Heap :=
  let id := lookup ext name in
  match h !! id with
  | Some _ => (id, h)
  | None => (id, <[id := newsym name]> h)
  end.

(** Modelled from the spec: [symaddr(s)] ([lib.c]) is the address assigned
    to [s]; scenarios S1 and S2 of the specification equate
    [symaddr(target)] with [target.value]. *)
Definition symaddr (s : Sym) : Z := s_value s.

(** Modelled from the spec: [rnd(v, r)] ([lib.c]) rounds [v] up to a
    multiple of [r]. *)
Definition rnd (v r : Z) : Z :=
  if r <=? 0 then v else (v + r - 1) - (v + r - 1) mod r.

(** ** Relocation resolution *)

Definition b2z (b : bool) : Z := if b then 1 else 0.

(** [r->sym->type & SMASK == 0 || r->sym->type & SMASK == SXREF], as C
    parses it: [==] binds tighter than [&], so each disjunct is the bitwise
    and of the kind with the 0-or-1 result of a comparison of constants. *)
Definition reloc_undefined (cfg : Conf) (t : Sym) : bool :=
  negb (Z.land (s_type t) (b2z (SMASK cfg =? 0)) =? 0)
  || negb (Z.land (s_type t) (b2z (SMASK cfg =? SXREF cfg)) =? 0).

(** [while(rs->outer != nil) rs = rs->outer;] *)
Fixpoint outermost (fuel : nat) (h : Heap) (rs : Sym) : option Sym :=
  match s_outer rs with
  | None => Some rs
  | Some o =>
      match fuel with
      | O => None
      | S fuel' => rs' ← h !! o; outermost fuel' h rs'
      end
  end.

(** The [switch(r->type)] of [relocsym]: the value [o] and the diagnostics
    on the way.  [tg] is [*r->sym], if [r->sym] is not null. *)
Definition reloc_value (cfg : Conf) (ext : Ext) (h : Heap) (s : Sym) (r : Reloc)
    (tg : option Sym) : option (Z * list Diag) :=
  if r_type r =? D_ADDR cfg then
    ts ← tg;
    let o := symaddr ts + r_add r in
    if isobj cfg && negb (s_type ts =? SCONST cfg) then
      if Ascii.eqb (thechar cfg) "6" then Some (0, [])
      else
        (* set up addend for eventual relocation via outer symbol *)
        rs ← outermost (S (size h)) h ts;
        Some (o - symaddr rs, [])
    else Some (o, [])
  else if r_type r =? D_PCREL cfg then
    (* r->sym can be null when CALL $(constant) is transformed from
       absolute PC to relative PC call. *)
    let o := 0 in
    let o := match tg with Some ts => o + symaddr ts | None => o end in
    let o := o + (r_add r - (s_value s + r_off r + r_siz r)) in
    if isobj cfg then
      ts ← tg;
      if negb (s_type ts =? SCONST cfg) then
        if Ascii.eqb (thechar cfg) "6" then Some (0, [])
        else Some (r_add r - r_siz r, [])
      else Some (o, [])
    else Some (o, [])
  else if r_type r =? D_SIZE cfg then
    ts ← tg;
    Some (s_size ts + r_add r, [])
  else
    let o := 0 in
    if isobj cfg then Some (o, [UnknownReloc (r_type r)])
    else
      let '(ret, o) := archreloc ext r s in
      if ret <? 0 then Some (o, [UnknownReloc (r_type r)])
      else Some (o, []).

(** One turn of the loop of [relocsym] for the record [r] of [*sid], up to
    the final [switch(siz)]: the diagnostics, and what is to be stored
    ([off], [siz], [o]) unless the turn ends with [continue]. *)
Definition relocsym_eval (cfg : Conf) (ext : Ext) (h : Heap) (sid : nat) (r : Reloc)
    : option (list Diag * option (Z * Z * Z)) :=
  s ← h !! sid;
  let off := int32 (r_off r) in
  let siz := int32 (r_siz r) in
  if (off <? 0) || (int32 (off + siz) >? s_np s) then
    Some ([InvalidRelocation (s_name s) off siz (s_np s)], None)
  else
    tg ← match r_sym r with
         | None => Some None
         | Some t => ts ← h !! t; Some (Some ts)
         end;
    if match tg with Some ts => reloc_undefined cfg ts | None => false end then
      ts ← tg; Some ([NotDefined (s_name ts)], None)
    else if r_type r >=? 256 then Some ([], None)
    else
      let d1 := match tg with
                | Some ts =>
                    if s_type ts =? SDYNIMPORT cfg
                    then [UnhandledRelocation (s_name ts) (s_type ts) (r_type r)]
                    else []
                | None => []
                end in
      let d2 := match tg with
                | Some ts =>
                    if negb (s_reachable ts)
                    then [UnreachableSym (s_name s) (s_name ts)]
                    else []
                | None => []
                end in
      '(o, d3) ← reloc_value cfg ext h s r tg;
      d4 ← (if (siz =? 4) || (siz =? 8) then Some []
            else ts ← tg; Some [BadRelocSize siz (s_name ts)]);
      Some (d1 ++ d2 ++ d3 ++ d4, Some (off, siz, o)).

(** The [switch(siz)]: [case 8] stores the eight bytes of [o]; [case 4], and
    the [default] that falls through to it, the four bytes of [fl = o]. *)
Definition relocsym_store (cfg : Conf) (off siz o : Z) (p : list Z)
    : option (list Z) :=
  if siz =? 8 then nuxi_put (inuxi8 cfg) (cast cfg 8 (int64 o)) off 0 8 p
  else
    let fl := int32 o in
    nuxi_put (inuxi4 cfg) (cast cfg 4 fl) off 0 4 p.

Definition diags_add (ds : list Diag) (L : Link) : Link :=
  {| syms := syms L; allsym := allsym L; textp := textp L; datap := datap L;
     sects := sects L; diags := diags L ++ ds |}.

Definition relocsym_step (cfg : Conf) (ext : Ext) (sid : nat) (r : Reloc)
    (L : Link) : option Link :=
  '(ds, w) ← relocsym_eval cfg ext (syms L) sid r;
  let L := diags_add ds L in
  match w with
  | None => Some L
  | Some (off, siz, o) =>
      s ← syms L !! sid;
      p ← relocsym_store cfg off siz o (s_p s);
      Some (set_syms L (<[sid := set_p s p]> (syms L)))
  end.

Fixpoint relocsym_loop (cfg : Conf) (ext : Ext) (sid : nat) (rs : list Reloc)
    (L : Link) : option Link :=
  match rs with
  | [] => Some L
  | r :: rs' => L' ← relocsym_step cfg ext sid r L; relocsym_loop cfg ext sid rs' L'
  end.

Definition relocsym (cfg : Conf) (ext : Ext) (sid : nat) (L : Link) : option Link :=
  s ← syms L !! sid;
  relocsym_loop cfg ext sid (s_r s) L.

(** [for(s = list; s != S; s = s->next) f(s);] *)
Fixpoint foreach_sym (f : nat -> Link -> option Link) (l : list nat) (L : Link)
    : option Link :=
  match l with
  | [] => Some L
  | sid :: l' => L' ← f sid L; foreach_sym f l' L'
  end.

Definition reloc (cfg : Conf) (ext : Ext) (L : Link) : option Link :=
  L ← foreach_sym (relocsym cfg ext) (textp L) L;
  foreach_sym (relocsym cfg ext) (datap L) L.

(** ** Dynamic relocations *)

Definition adduint8_at (cfg : Conf) (id : nat) (v : Z) (h : Heap) : option Heap :=
  '(_, h) ← at_sym h id (fun s => adduint8 cfg s v); Some h.

(** One turn of the loop of the Windows branch of [dynrelocsym], for the
    record number [i] of [*sid]; [rel] is [lookup(".rel", 0)]. *)
Definition dynrelocsym_pe (cfg : Conf) (rel sid : nat) (i : nat) (h : Heap)
    : option Heap :=
  s ← h !! sid;
  r ← s_r s !! i;
  targ ← r_sym r;
  ts ← h !! targ;
  if (s_plt ts =? -2) && negb (s_got ts =? -2) then
    (* make dynimport JMP table for PE object files. *)
    rs ← h !! rel;
    let h := <[targ := set_plt ts (int32 (s_size rs))]> h in
    s ← h !! sid;
    ts ← h !! targ;
    let h := <[sid := set_r s (<[i := mkReloc (r_off r) (r_siz r) (r_type r)
                                      (s_plt ts) (Some rel)]> (s_r s))]> h in
    (* jmp *addr *)
    if Ascii.eqb (thechar cfg) "8" then
      h ← adduint8_at cfg rel 255 h;
      h ← adduint8_at cfg rel 37 h;
      '(_, h) ← at_sym h rel (fun s => addaddr cfg s (Some targ));
      h ← adduint8_at cfg rel 144 h;
      adduint8_at cfg rel 144 h
    else
      h ← adduint8_at cfg rel 255 h;
      h ← adduint8_at cfg rel 36 h;
      h ← adduint8_at cfg rel 37 h;
      '(_, h) ← at_sym h rel (fun s => addaddrplus4 cfg s (Some targ) 0);
      adduint8_at cfg rel 144 h
  else if s_plt ts >=? 0 then
    Some (<[sid := set_r s (<[i := mkReloc (r_off r) (r_siz r) (r_type r)
                                    (s_plt ts) (Some rel)]> (s_r s))]> h)
  else Some h.

(** One turn of the loop of the other branch. *)
Definition dynrelocsym_elf (cfg : Conf) (ext : Ext) (rel got : option nat)
    (sid : nat) (i : nat) (h : Heap) : option Heap :=
  s ← h !! sid;
  r ← s_r s !! i;
  tg ← match r_sym r with
       | None => Some None
       | Some t => ts ← h !! t; Some (Some ts)
       end;
  h ← (if match tg with Some ts => s_type ts =? SDYNIMPORT cfg | None => false end
          || (r_type r >=? 256)
       then adddynrel ext h sid i else Some h);
  s ← h !! sid;
  r ← s_r s !! i;
  tg ← match r_sym r with
       | None => Some None
       | Some t => ts ← h !! t; Some (Some ts)
       end;
  if flag_shared cfg
     && match tg with
        | Some ts =>
            match s_dynimpname ts with None => true | Some _ => s_dynexport ts end
        | None => false
        end
     && (r_type r =? D_ADDR cfg)
     && (bool_decide (Some sid = got) || (s_type s =? SDATA cfg)
         || (s_type s =? SGOSTRING cfg) || (s_type s =? STYPE cfg)
         || (s_type s =? SRODATA cfg))
  then
    (* Create address based RELATIVE relocation *)
    relid ← rel;
    h ← adddynrela ext h relid sid i;
    s ← h !! sid;
    if s_type s <? SNOPTRDATA cfg then Some (<[sid := set_rel_ro s true]> h)
    else Some h
  else Some h.

(** [for(r=s->r; r<s->r+s->nr; r++)], the record count read again at
    every turn. *)
Fixpoint foreach_reloc (fuel : nat) (f : nat -> Heap -> option Heap)
    (sid : nat) (i : nat) (h : Heap) : option Heap :=
  s ← h !! sid;
  if bool_decide (i < length (s_r s))%nat then
    match fuel with
    | O => None
    | S fuel' => h' ← f i h; foreach_reloc fuel' f sid (S i) h'
    end
  else Some h.

Definition dynrelocsym (cfg : Conf) (ext : Ext) (sid : nat) (h : Heap)
    : option Heap :=
  if HEADTYPE cfg =? Hwindows cfg then
    let '(rel, h) := intern ext ".rel" h in
    if bool_decide (sid = rel) then Some h
    else
      s ← h !! sid;
      foreach_reloc (length (s_r s)) (dynrelocsym_pe cfg rel sid) sid 0 h
  else
    let '(rel, got, h) :=
      if flag_shared cfg then
        let '(got, h) := intern ext ".got" h in
        (Some (lookuprel ext), Some got, h)
      else (None, None, h) in
    s ← h !! sid;
    let h := <[sid := set_rel_ro s false]> h in
    foreach_reloc (length (s_r s)) (dynrelocsym_elf cfg ext rel got sid) sid 0 h.

Definition on_syms (f : Heap -> option Heap) (L : Link) : option Link :=
  h ← f (syms L); Some (set_syms L h).

Definition dynreloc (cfg : Conf) (ext : Ext) (L : Link) : option Link :=
  (* -d supresses dynamic loader format, so we may as well not
     compute these sections or mark their symbols as reachable. *)
  if debug_d cfg && negb (HEADTYPE cfg =? Hwindows cfg) then Some L
  else
    L ← foreach_sym (fun sid => on_syms (dynrelocsym cfg ext sid)) (textp L) L;
    L ← foreach_sym (fun sid => on_syms (dynrelocsym cfg ext sid)) (datap L) L;
    if iself cfg then on_syms (elfdynhash ext) L else Some L.

(** ** Layout *)

(** The parameter, the local and the result are [int32]. *)
Definition alignsymsize (cfg : Conf) (s : Z) : Z :=
  let s := int32 s in
  if s >=? 8 then int32 (rnd s 8)
  else if s >=? PtrSize cfg then int32 (rnd s (PtrSize cfg))
  else if s >? 2 then int32 (rnd s 4)
  else s.

Definition aligndatsize (cfg : Conf) (datsize : Z) (s : Sym) : Z :=
  let datsize := int32 datsize in
  if negb (s_align s =? 0) then int32 (rnd datsize (s_align s))
  else
    let t := alignsymsize cfg (s_size s) in
    if negb (Z.land t 1 =? 0) then datsize
    else if negb (Z.land t 2 =? 0) then int32 (rnd datsize 2)
    else if negb (Z.land t 4 =? 0) then int32 (rnd datsize 4)
    else int32 (rnd datsize 8).

Definition adduintxx_at (cfg : Conf) (id : nat) (v wid : Z) (h : Heap)
    : option Heap :=
  '(_, h) ← at_sym h id (fun s => adduintxx cfg s v wid); Some h.

(** The loop of [gcaddsym] that marks every pointer-sized slot.  [off] and
    [a] are [int32]: the sums [a + PtrSize] and [off + a] wrap, and
    [off + a] is then widened, with its sign, to the 64-bit argument. *)
Fixpoint gcaddsym_aptr (cfg : Conf) (fuel : nat) (gc sid : nat) (off a : Z)
    (h : Heap) : option Heap :=
  s ← h !! sid;
  if int32 (a + PtrSize cfg) <=? s_size s then
    match fuel with
    | O => None
    | S fuel' =>
        h ← adduintxx_at cfg gc (GC_APTR cfg) (PtrSize cfg) h;
        h ← adduintxx_at cfg gc (int32 (off + a)) (PtrSize cfg) h;
        gcaddsym_aptr cfg fuel' gc sid off (int32 (a + PtrSize cfg)) h
    end
  else Some h.

Definition gcaddsym (cfg : Conf) (ext : Ext) (gc sid : nat) (off : Z) (h : Heap)
    : option Heap :=
  let off := int32 off in
  s ← h !! sid;
  if s_size s <? PtrSize cfg then Some h
  else if strcmp (s_name s) ".string" =? 0 then Some h
  else
    match s_gotype s with
    | Some gotype =>
        h ← adduintxx_at cfg gc (GC_CALL cfg) (PtrSize cfg) h;
        h ← adduintxx_at cfg gc off (PtrSize cfg) h;
        t ← decodetype_gc ext h gotype;
        '(_, h) ← at_sym h gc (fun g =>
                    addpcrelplus cfg g (Some t) (3 * PtrSize cfg + 4));
        if PtrSize cfg =? 8 then adduintxx_at cfg gc 0 4 h else Some h
    | None =>
        gcaddsym_aptr cfg (Z.to_nat (s_size s)) gc sid off
          (Z.land (int32 (- off)) (PtrSize cfg - 1)) h
    end.

(** Modelled from the spec: [addsection(seg, name, rwx)] ([lib.c]) appends a
    section to a segment and returns it.  Sections are kept in creation
    order in one list; a [Section*] is an index into it. *)
Definition addsection (seg : Seg) (name : string) (rwx : Z) (L : Link)
    : nat * Link :=
  (length (sects L),
   set_sects L (sects L ++ [{| sect_seg := seg; sect_name := name;
                               sect_rwx := rwx; sect_vaddr := 0;
                               sect_len := 0 |}])).

Definition sect_set_vaddr (i : nat) (v : Z) (L : Link) : Link :=
  set_sects L (alter (fun c => {| sect_seg := sect_seg c; sect_name := sect_name c;
                                  sect_rwx := sect_rwx c; sect_vaddr := v;
                                  sect_len := sect_len c |}) i (sects L)).

Definition sect_set_len (i : nat) (v : Z) (L : Link) : Link :=
  set_sects L (alter (fun c => {| sect_seg := sect_seg c; sect_name := sect_name c;
                                  sect_rwx := sect_rwx c; sect_vaddr := sect_vaddr c;
                                  sect_len := v |}) i (sects L)).

Definition sect_vaddr_of (i : nat) (L : Link) : Z :=
  match sects L !! i with Some c => sect_vaddr c | None => 0 end.

(** [lookup(name, 0)->sect = sect] *)
Definition bind_sect (ext : Ext) (name : string) (sect : nat) (L : Link) : Link :=
  let '(id, h) := intern ext name (syms L) in
  set_syms L (alter (fun s => set_sect s (Some sect)) id h).

(** [s->field = ...] for the symbol under the cursor. *)
Definition upd (id : nat) (f : Sym -> Sym) (L : Link) : Link :=
  set_syms L (alter f id (syms L)).

(** [for(; s != nil && cond(s); s = s->next) body(s);] over the data list:
    the cursor left behind, the running [datsize] and the state. *)
Fixpoint walk (cond : Sym -> bool)
    (body : nat -> Sym -> Z -> Link -> option (Z * Link))
    (l : list nat) (datsize : Z) (L : Link) : option (list nat * Z * Link) :=
  match l with
  | [] => Some ([], datsize, L)
  | id :: l' =>
      s ← syms L !! id;
      if cond s then
        '(datsize, L) ← body id s datsize L;
        walk cond body l' datsize L
      else Some (l, datsize, L)
  end.

Definition place_skip (id : nat) (s : Sym) (datsize : Z) (L : Link)
    : option (Z * Link) := Some (datsize, L).

(** Writable ELF sections, one section for each symbol. *)
Definition place_elfsect (cfg : Conf) (id : nat) (s : Sym) (datsize : Z) (L : Link)
    : option (Z * Link) :=
  let '(sect, L) := addsection Segdata (s_name s) 6 L in
  let datsize := if negb (s_align s =? 0) then int32 (rnd datsize (s_align s))
                 else datsize in
  let L := sect_set_vaddr sect datsize L in
  let L := upd id (fun s => set_value (set_type (set_sect s (Some sect)) (SDATA cfg))
                              datsize) L in
  let datsize' := int32 (datsize + rnd (s_size s) (PtrSize cfg)) in
  Some (datsize', sect_set_len sect (datsize' - sect_vaddr_of sect L) L).

Definition place_noptrdata (cfg : Conf) (sect : nat) (id : nat) (s : Sym)
    (datsize : Z) (L : Link) : option (Z * Link) :=
  let L := upd id (fun s => set_type (set_sect s (Some sect)) (SDATA cfg)) L in
  let t := int32 (alignsymsize cfg (int32 (s_size s))) in
  let datsize := int32 (aligndatsize cfg datsize s) in
  let L := upd id (fun s => set_value s datsize) L in
  Some (int32 (datsize + t), L).

Definition place_datarelro (cfg : Conf) (sect : nat) (id : nat) (s : Sym)
    (datsize : Z) (L : Link) : option (Z * Link) :=
  let datsize := if negb (s_align s =? 0) then int32 (rnd datsize (s_align s))
                 else datsize in
  let L := upd id (fun s => set_value (set_type (set_sect s (Some sect)) (SDATA cfg))
                              datsize) L in
  Some (int32 (datsize + rnd (s_size s) (PtrSize cfg)), L).

Definition place_data (cfg : Conf) (ext : Ext) (gcdata1 : nat) (sect : nat)
    (id : nat) (s : Sym) (datsize : Z) (L : Link) : option (Z * Link) :=
  let L := if s_type s =? SDATARELRO cfg
           then diag (UnexpectedSymbolType (s_name s) (s_type s)) L else L in
  let L := upd id (fun s => set_type (set_sect s (Some sect)) (SDATA cfg)) L in
  let t := int32 (alignsymsize cfg (int32 (s_size s))) in
  let datsize := int32 (aligndatsize cfg datsize s) in
  let L := upd id (fun s => set_value s datsize) L in
  L ← on_syms (gcaddsym cfg ext gcdata1 id (datsize - sect_vaddr_of sect L)) L;
  Some (int32 (datsize + t), L).

Definition place_bss (cfg : Conf) (ext : Ext) (gcbss1 : nat) (sect : nat)
    (id : nat) (s : Sym) (datsize : Z) (L : Link) : option (Z * Link) :=
  let L := upd id (fun s => set_sect s (Some sect)) L in
  let t := int32 (alignsymsize cfg (int32 (s_size s))) in
  let datsize := int32 (aligndatsize cfg datsize s) in
  let L := upd id (fun s => set_value s datsize) L in
  L ← on_syms (gcaddsym cfg ext gcbss1 id (datsize - sect_vaddr_of sect L)) L;
  Some (int32 (datsize + t), L).

Definition place_noptrbss (cfg : Conf) (sect : nat) (id : nat) (s : Sym)
    (datsize : Z) (L : Link) : option (Z * Link) :=
  let L := if s_type s >? SNOPTRBSS cfg
           then diag (UnexpectedSymbolType (s_name s) (s_type s)) L else L in
  let L := upd id (fun s => set_sect s (Some sect)) L in
  let t := int32 (alignsymsize cfg (int32 (s_size s))) in
  let datsize := int32 (aligndatsize cfg datsize s) in
  let L := upd id (fun s => set_value s datsize) L in
  Some (int32 (datsize + t), L).

Definition place_rodata (cfg : Conf) (sect : nat) (id : nat) (s : Sym)
    (datsize : Z) (L : Link) : option (Z * Link) :=
  let L := upd id (fun s => set_sect s (Some sect)) L in
  let datsize := if negb (s_align s =? 0) then int32 (rnd datsize (s_align s))
                 else datsize in
  let L := upd id (fun s => set_value (set_type s (SRODATA cfg)) datsize) L in
  Some (int32 (datsize + rnd (s_size s) (PtrSize cfg)), L).

(** The body shared by .typelink, .gcdata, .gcbss, .gosymtab, .gopclntab. *)
Definition place_packed (cfg : Conf) (sect : nat) (id : nat) (s : Sym)
    (datsize : Z) (L : Link) : option (Z * Link) :=
  let L := upd id (fun s => set_value (set_type (set_sect s (Some sect)) (SRODATA cfg))
                              datsize) L in
  Some (int32 (datsize + s_size s), L).

(** Read-only ELF sections, one section for each symbol. *)
Definition place_elfrosect (cfg : Conf) (id : nat) (s : Sym) (datsize : Z) (L : Link)
    : option (Z * Link) :=
  let '(sect, L) := addsection Segtext (s_name s) 4 L in
  let datsize := if negb (s_align s =? 0) then int32 (rnd datsize (s_align s))
                 else datsize in
  let L := sect_set_vaddr sect datsize L in
  let L := upd id (fun s => set_value (set_type (set_sect s (Some sect)) (SRODATA cfg))
                              datsize) L in
  let datsize' := int32 (datsize + rnd (s_size s) (PtrSize cfg)) in
  Some (datsize', sect_set_len sect (datsize' - sect_vaddr_of sect L) L).

(** [sect = addsection(seg, name, rwx); sect->vaddr = datsize;
     lookup(a, 0)->sect = sect; lookup(b, 0)->sect = sect;] *)
Definition open_section (ext : Ext) (seg : Seg) (name : string) (rwx : Z)
    (a b : string) (datsize : Z) (L : Link) : nat * Link :=
  let '(sect, L) := addsection seg name rwx L in
  let L := sect_set_vaddr sect datsize L in
  (sect, bind_sect ext b sect (bind_sect ext a sect L)).

(** [sect->len = datsize - sect->vaddr; datsize = rnd(datsize, PtrSize);] *)
Definition close_section (cfg : Conf) (sect : nat) (datsize : Z) (L : Link)
    : Z * Link :=
  (int32 (rnd datsize (PtrSize cfg)),
   sect_set_len sect (datsize - sect_vaddr_of sect L) L).

(** A packed read-only section: open, walk, close. *)
Definition packed_section (cfg : Conf) (ext : Ext) (name a b : string)
    (cond : Sym -> bool) (s : list nat) (datsize : Z) (L : Link)
    : option (list nat * Z * Link) :=
  let '(sect, L) := open_section ext Segtext name 4 a b datsize L in
  '(s, datsize, L) ← walk cond (place_packed cfg sect) s datsize L;
  let '(datsize, L) := close_section cfg sect datsize L in
  Some (s, datsize, L).

(** [dodata], first part: the garbage collection symbols and the data list. *)

(** [for(s=allsym; s!=S; s=s->allsym)], linking the admitted symbols. *)
Fixpoint dodata_collect (cfg : Conf) (h : Heap) (l : list nat) : option (list nat) :=
  match l with
  | [] => Some []
  | id :: l' =>
      s ← h !! id;
      rest ← dodata_collect cfg h l';
      if negb (s_reachable s) || s_special s then Some rest
      else if (STEXT cfg <? s_type s) && (s_type s <? SXREF cfg)
           then Some (id :: rest)
           else Some rest
  end.

Fixpoint dodata_bounds (l : list nat) (L : Link) : option Link :=
  match l with
  | [] => Some L
  | id :: l' =>
      s ← syms L !! id;
      dodata_bounds l'
        (if s_np s >? s_size s
         then diag (InitializeBounds (s_name s) (s_size s) (s_np s)) L else L)
  end.

Definition dodata_begin (cfg : Conf) (ext : Ext) (L : Link) : option Link :=
  (* define garbage collection symbols *)
  let '(gcdata1, h) := intern ext "gcdata1" (syms L) in
  let h := alter (fun s => set_reachable (set_type s (SGCDATA cfg)) true) gcdata1 h in
  let '(gcbss1, h) := intern ext "gcbss1" h in
  let h := alter (fun s => set_reachable (set_type s (SGCBSS cfg)) true) gcbss1 h in
  (* size of .data and .bss section. the zero value is later replaced by
     the actual size of the section. *)
  h ← adduintxx_at cfg gcdata1 0 (PtrSize cfg) h;
  h ← adduintxx_at cfg gcbss1 0 (PtrSize cfg) h;
  l ← dodata_collect cfg h (allsym L);
  dodata_bounds l (set_datap (set_syms L h) l).

(** [dodata], the part after [dynreloc]. *)

(** some symbols may no longer belong in datap (Mach-O) *)
Fixpoint dodata_prune (cfg : Conf) (h : Heap) (l : list nat) : option (list nat) :=
  match l with
  | [] => Some []
  | id :: l' =>
      s ← h !! id;
      rest ← dodata_prune cfg h l';
      if (s_type s <=? STEXT cfg) || (SXREF cfg <=? s_type s) then Some rest
      else Some (id :: rest)
  end.

Fixpoint dodata_relro (cfg : Conf) (l : list nat) (h : Heap) : option Heap :=
  match l with
  | [] => Some h
  | id :: l' =>
      s ← h !! id;
      dodata_relro cfg l'
        (if s_rel_ro s then <[id := set_type s (SDATARELRO cfg)]> h else h)
  end.

Definition dodata_segdata (cfg : Conf) (ext : Ext) (L : Link) : option Link :=
  let gcdata1 := lookup ext "gcdata1" in
  let gcbss1 := lookup ext "gcbss1" in
  (* skip symbols belonging to segtext *)
  '(s, _, L) ← walk (fun s => s_type s <? SELFSECT cfg) place_skip (datap L) 0 L;
  (* writable ELF sections *)
  let datsize := 0 in
  '(s, datsize, L) ← walk (fun s => s_type s <? SNOPTRDATA cfg)
                        (place_elfsect cfg) s datsize L;
  (* pointer-free data *)
  let '(sect, L) := open_section ext Segdata ".noptrdata" 6
                      "noptrdata" "enoptrdata" datsize L in
  '(s, datsize, L) ← walk (fun s => s_type s <? SDATARELRO cfg)
                        (place_noptrdata cfg sect) s datsize L;
  let '(datsize, L) := close_section cfg sect datsize L in
  (* dynamic relocated rodata *)
  '(s, datsize, L) ←
    (if flag_shared cfg then
       let '(sect, L) := open_section ext Segdata ".data.rel.ro" 6
                           "datarelro" "edatarelro" datsize L in
       '(s, datsize, L) ← walk (fun s => s_type s =? SDATARELRO cfg)
                             (place_datarelro cfg sect) s datsize L;
       let '(datsize, L) := close_section cfg sect datsize L in
       Some (s, datsize, L)
     else Some (s, datsize, L));
  (* data *)
  let '(sect, L) := open_section ext Segdata ".data" 6 "data" "edata" datsize L in
  '(s, datsize, L) ← walk (fun s => s_type s <? SBSS cfg)
                        (place_data cfg ext gcdata1 sect) s datsize L;
  let len := datsize - sect_vaddr_of sect L in
  let '(datsize, L) := close_section cfg sect datsize L in
  L ← on_syms (adduintxx_at cfg gcdata1 (GC_END cfg) (PtrSize cfg)) L;
  L ← on_syms (fun h => '(_, h) ← at_sym h gcdata1
                 (fun g => setuintxx cfg g 0 len (PtrSize cfg)); Some h) L;
  (* bss *)
  let '(sect, L) := open_section ext Segdata ".bss" 6 "bss" "ebss" datsize L in
  '(s, datsize, L) ← walk (fun s => s_type s <? SNOPTRBSS cfg)
                        (place_bss cfg ext gcbss1 sect) s datsize L;
  let len := datsize - sect_vaddr_of sect L in
  let '(datsize, L) := close_section cfg sect datsize L in
  L ← on_syms (adduintxx_at cfg gcbss1 (GC_END cfg) (PtrSize cfg)) L;
  L ← on_syms (fun h => '(_, h) ← at_sym h gcbss1
                 (fun g => setuintxx cfg g 0 len (PtrSize cfg)); Some h) L;
  (* pointer-free bss *)
  let '(sect, L) := open_section ext Segdata ".noptrbss" 6
                      "noptrbss" "enoptrbss" datsize L in
  '(s, datsize, L) ← walk (fun _ => true) (place_noptrbss cfg sect) s datsize L;
  let L := sect_set_len sect (datsize - sect_vaddr_of sect L) L in
  let '(id, h) := intern ext "end" (syms L) in
  Some (set_syms L (alter (fun s => set_sect s (Some sect)) id h)).

Definition dodata_segtext (cfg : Conf) (ext : Ext) (L : Link) : option Link :=
  (* read-only data *)
  let '(sect, L) := open_section ext Segtext ".rodata" 4 "rodata" "erodata" 0 L in
  let datsize := 0 in
  '(s, datsize, L) ← walk (fun s => s_type s <? STYPELINK cfg)
                        (place_rodata cfg sect) (datap L) datsize L;
  let '(datsize, L) := close_section cfg sect datsize L in
  (* type *)
  '(s, datsize, L) ← packed_section cfg ext ".typelink" "typelink" "etypelink"
                        (fun s => s_type s =? STYPELINK cfg) s datsize L;
  (* gcdata *)
  '(s, datsize, L) ← packed_section cfg ext ".gcdata" "gcdata" "egcdata"
                        (fun s => s_type s =? SGCDATA cfg) s datsize L;
  (* gcbss *)
  '(s, datsize, L) ← packed_section cfg ext ".gcbss" "gcbss" "egcbss"
                        (fun s => s_type s =? SGCBSS cfg) s datsize L;
  (* gosymtab *)
  '(s, datsize, L) ← packed_section cfg ext ".gosymtab" "symtab" "esymtab"
                        (fun s => s_type s <? SPCLNTAB cfg) s datsize L;
  (* gopclntab *)
  '(s, datsize, L) ← packed_section cfg ext ".gopclntab" "pclntab" "epclntab"
                        (fun s => s_type s <? SELFROSECT cfg) s datsize L;
  (* read-only ELF sections *)
  '(_, _, L) ← walk (fun s => s_type s <? SELFSECT cfg)
                  (place_elfrosect cfg) s datsize L;
  Some L.

(** Allocate sections.  The list is sorted by type, so each piece to emit
    is one walk.  segdata is processed before segtext, because all symbols of
    .data and .bss must be seen to generate garbage collection
    information. *)
Definition dodata_layout (cfg : Conf) (ext : Ext) (L : Link) : option Link :=
  l ← dodata_prune cfg (syms L) (datap L);
  h ← (if flag_shared cfg then dodata_relro cfg l (syms L) else Some (syms L));
  let L := set_datap (set_syms L h) (datsort h l) in
  L ← dodata_segdata cfg ext L;
  dodata_segtext cfg ext L.

Definition dodata (cfg : Conf) (ext : Ext) (L : Link) : option Link :=
  L ← dodata_begin cfg ext L;
  (* now that we have the datap list, but before we start to assign
     addresses, record all the necessary dynamic relocations.  these will
     grow the relocation symbol, which is itself data. *)
  L ← dynreloc cfg ext L;
  dodata_layout cfg ext L.

(** * Statements *)

(** ** The order of the data list, as the specification words it *)

(** The C string held by a name: it ends at the first NUL. *)
Fixpoint cstr (s : string) : string :=
  match s with
  | EmptyString => EmptyString
  | String c s' => if code c =? 0 then EmptyString else String c (cstr s')
  end.

(** Lexicographic order on the byte codes. *)
Fixpoint lex_le (a b : string) : Prop :=
  match a, b with
  | EmptyString, _ => True
  | String _ _, EmptyString => False
  | String c a', String d b' => code c < code d \/ (code c = code d /\ lex_le a' b')
  end.

(** Kind, then size, then name. *)
Definition key_le (s1 s2 : Sym) : Prop :=
  s_type s1 < s_type s2
  \/ (s_type s1 = s_type s2
      /\ (s_size s1 < s_size s2
          \/ (s_size s1 = s_size s2
              /\ lex_le (cstr (s_name s1)) (cstr (s_name s2))))).

(** The same through two pointers of the list. *)
Definition key_le_at (h : Heap) (a b : nat) : Prop :=
  match h !! a, h !! b with
  | Some s1, Some s2 => key_le s1 s2
  | _, _ => True
  end.

Definition dat_le (h : Heap) (a b : nat) : Prop := datcmp_at h a b <= 0.

(** ** Payload buffers *)

Definition payload (s : Sym) : list Z := take (Z.to_nat (s_np s)) (s_p s).

Definition buf_ok (s : Sym) : Prop :=
  0 <= s_np s /\ s_maxp s = Z.of_nat (length (s_p s)) /\ s_np s <= s_maxp s
  /\ drop (Z.to_nat (s_np s)) (s_p s) = replicate (Z.to_nat (s_maxp s - s_np s)) 0.

Definition table_ok (cfg : Conf) (W n : nat) (tab : list nat) : Prop :=
  Forall (fun j => (j < W)%nat) tab /\ (host_sig cfg W <$> tab) ≡ₚ seq 0 n.

Definition tables_ok (cfg : Conf) : Prop :=
  table_ok cfg 4 1 (inuxi1 cfg) /\ table_ok cfg 4 2 (inuxi2 cfg)
  /\ table_ok cfg 4 4 (inuxi4 cfg) /\ table_ok cfg 8 8 (inuxi8 cfg).

Definition nuxi_image (cfg : Conf) (W : nat) (tab : list nat) (x : Z) : list Z :=
  (fun j => byte_of x (host_sig cfg W j)) <$> tab.

Definition splice (p : list Z) (a : nat) (bs : list Z) : list Z :=
  take a p ++ bs ++ drop (a + length bs) p.

(** ** Bytes *)

Definition touch (cfg : Conf) (s : Sym) : Sym :=
  set_reachable (if s_type s =? 0 then set_type s (SDATA cfg) else s) true.

Definition rebuf (s : Sym) (np maxp : Z) (p : list Z) : Sym :=
  set_p (set_maxp (set_np s np) maxp) p.

Definition uint_table (cfg : Conf) (wid : Z) : list nat :=
  if wid =? 1 then inuxi1 cfg else if wid =? 2 then inuxi2 cfg
  else if wid =? 4 then inuxi4 cfg else inuxi8 cfg.

Definition uint_host (wid : Z) : nat := if wid =? 8 then 8%nat else 4%nat.

Definition uint_image (cfg : Conf) (wid : Z) (v : Z) : list Z :=
  nuxi_image cfg (uint_host wid) (uint_table cfg wid) v.

Definition sumZ (l : list Z) : Z := foldr Z.add 0 l.

(** ** Reading an integer back *)

(** An integer whose memory image has the byte [b] at host address [j] owes
    [b * 2^(8 * host_sig j)] to it; the table sends byte [i] of the target
    image to host address [tab[i]]. *)
Fixpoint nuxi_value (cfg : Conf) (W : nat) (tab : list nat) (bs : list Z) : Z :=
  match tab, bs with
  | j :: tab', b :: bs' =>
      b * 2 ^ (8 * Z.of_nat (host_sig cfg W j)) + nuxi_value cfg W tab' bs'
  | _, _ => 0
  end.

(** Decoding the [wid] bytes at [off] through the table [setuintxx] used. *)
Definition getuintxx (cfg : Conf) (s : Sym) (off wid : Z) : Z :=
  nuxi_value cfg (uint_host wid) (uint_table cfg wid)
    (take (Z.to_nat wid) (drop (Z.to_nat off) (s_p s))).

(** ** Concrete targets

    The numbering of the kinds follows the order the section walk of
    [dodata] relies on; the tables are those of a little-endian target on a
    little-endian host. *)

Definition amd64 : Conf :=
  {| thechar := "6"; PtrSize := 8; HEADTYPE := 7; Hwindows := 10;
     isobj := false; flag_shared := false; debug_d := false; iself := true;
     host_be := false;
     inuxi1 := [0]%nat; inuxi2 := [0; 1]%nat; inuxi4 := [0; 1; 2; 3]%nat;
     inuxi8 := [0; 1; 2; 3; 4; 5; 6; 7]%nat;
     STEXT := 1; STYPE := 3; SGOSTRING := 5; SRODATA := 6; STYPELINK := 7;
     SGCDATA := 8; SGCBSS := 9; SPCLNTAB := 11; SELFROSECT := 12;
     SELFSECT := 13; SNOPTRDATA := 14; SDATARELRO := 15; SDATA := 16;
     SBSS := 20; SNOPTRBSS := 21; SXREF := 22; SCONST := 29;
     SDYNIMPORT := 30; SSUB := 256; SMASK := 255;
     D_ADDR := 120; D_PCREL := 122; D_SIZE := 121;
     GC_END := 0; GC_APTR := 2; GC_CALL := 5 |}.

Definition with_target (cfg : Conf) (c : ascii) (ptr head : Z) : Conf :=
  {| thechar := c; PtrSize := ptr; HEADTYPE := head; Hwindows := Hwindows cfg;
     isobj := isobj cfg; flag_shared := flag_shared cfg; debug_d := debug_d cfg;
     iself := false;
     host_be := host_be cfg;
     inuxi1 := inuxi1 cfg; inuxi2 := inuxi2 cfg; inuxi4 := inuxi4 cfg;
     inuxi8 := inuxi8 cfg;
     STEXT := STEXT cfg; STYPE := STYPE cfg; SGOSTRING := SGOSTRING cfg;
     SRODATA := SRODATA cfg; STYPELINK := STYPELINK cfg; SGCDATA := SGCDATA cfg;
     SGCBSS := SGCBSS cfg; SPCLNTAB := SPCLNTAB cfg; SELFROSECT := SELFROSECT cfg;
     SELFSECT := SELFSECT cfg; SNOPTRDATA := SNOPTRDATA cfg;
     SDATARELRO := SDATARELRO cfg; SDATA := SDATA cfg; SBSS := SBSS cfg;
     SNOPTRBSS := SNOPTRBSS cfg; SXREF := SXREF cfg; SCONST := SCONST cfg;
     SDYNIMPORT := SDYNIMPORT cfg; SSUB := SSUB cfg; SMASK := SMASK cfg;
     D_ADDR := D_ADDR cfg; D_PCREL := D_PCREL cfg; D_SIZE := D_SIZE cfg;
     GC_END := GC_END cfg; GC_APTR := GC_APTR cfg; GC_CALL := GC_CALL cfg |}.

(** Windows/PE, 32 and 64 bits. *)
Definition i386_pe : Conf := with_target amd64 "8" 4 10.
Definition amd64_pe : Conf := with_target amd64 "6" 8 10.

(** A 16-byte symbol without payload, as a BSS symbol is after loading. *)
Definition bss16 : Sym := set_size (newsym "b") 16.

(** ** Statements about relocation *)

(** [symaddr(target)], taken as 0 when the target is null. *)
Definition target_addr (h : Heap) (r : Reloc) : Z :=
  match r_sym r with
  | None => 0
  | Some t => match h !! t with Some ts => symaddr ts | None => 0 end
  end.

(** Hooks for the examples: no architecture relocation, no dynamic
    relocation records; [lookup] interns the names [data.c] asks for at
    fixed addresses. *)
Definition known_names : list string :=
  [".rel"; ".got"; "gcdata1"; "gcbss1"; "noptrdata"; "enoptrdata"; "datarelro";
   "edatarelro"; "data"; "edata"; "bss"; "ebss"; "noptrbss"; "enoptrbss"; "end";
   "rodata"; "erodata"; "typelink"; "etypelink"; "gcdata"; "egcdata"; "gcbss";
   "egcbss"; "symtab"; "esymtab"; "pclntab"; "epclntab"]%string.

Fixpoint name_index (name : string) (l : list string) (i : nat) : nat :=
  match l with
  | [] => i
  | x :: l' => if String.eqb name x then i else name_index name l' (S i)
  end.

Definition ext0 : Ext :=
  {| lookup := fun name => name_index name known_names 100;
     lookuprel := 100%nat;
     archreloc := fun _ _ => (-1, 0);
     adddynrel := fun h _ _ => Some h;
     adddynrela := fun h _ _ _ => Some h;
     elfdynhash := fun h => Some h;
     decodetype_gc := fun _ t => Some t |}.

Definition mkSym (name : string) (type size value : Z) (p : list Z)
    (r : list Reloc) : Sym :=
  {| s_name := name; s_type := type; s_size := size; s_value := value;
     s_align := 0; s_reachable := true; s_special := false; s_plt := -1;
     s_got := -1; s_gotype := None; s_outer := None; s_sect := None;
     s_rel_ro := false; s_dynimpname := None; s_dynexport := false;
     s_p := p; s_np := Z.of_nat (length p); s_maxp := Z.of_nat (length p);
     s_r := r |}.






Definition mkLink (h : Heap) (textp datap : list nat) : Link :=
  {| syms := h; allsym := textp ++ datap; textp := textp; datap := datap;
     sects := []; diags := [] |}.

(** Scenario S2: [f] (32 bytes of text at [fv]) calls [g] (at [gv], of kind
    [gkind]) from [pc = 16]. *)
Definition S2_reloc : Reloc := mkReloc 16 4 (D_PCREL amd64) 0 (Some 1%nat).

Definition S2_link (gkind fv gv : Z) : Link :=
  mkLink (<[0%nat := mkSym "f" (STEXT amd64) 32 fv (replicate 32 0) [S2_reloc]]>
            (<[1%nat := mkSym "g" gkind 16 gv (replicate 16 0) []]> ∅))
    [0%nat; 1%nat] [].

(** Two symbols that differ in the bytes of their payload only. *)
Definition same_frame (s t : Sym) : Prop :=
  t = set_p s (s_p t) /\ length (s_p t) = length (s_p s).

Definition heap_frame (h g : Heap) : Prop :=
  forall id, option_Forall2 same_frame (h !! id) (g !! id).

(** The architecture hook computes from the record, the kinds and the
    addresses, not from the bytes being patched. *)
Definition archreloc_frame (ext : Ext) : Prop :=
  forall r s p, archreloc ext r (set_p s p) = archreloc ext r s.

(** Two runs of the same stores, one from [p] to [p1], one from [q] to
    [q2]: at each index either both wrote, and the same byte, or neither. *)
Definition bytes_rel (p p1 q q2 : list Z) : Prop :=
  length p1 = length p /\ length q2 = length q
  /\ forall i : nat, q2 !! i = p1 !! i \/ (q2 !! i = q !! i /\ p1 !! i = p !! i).

Definition sym_rel (s s1 t t2 : Sym) : Prop :=
  same_frame s s1 /\ same_frame s t /\ same_frame s t2
  /\ bytes_rel (s_p s) (s_p s1) (s_p t) (s_p t2).

Definition heap_rel (h h1 g g2 : Heap) : Prop :=
  forall id,
    (h !! id = None /\ h1 !! id = None /\ g !! id = None /\ g2 !! id = None)
    \/ (exists s s1 t t2,
          h !! id = Some s /\ h1 !! id = Some s1 /\ g !! id = Some t
          /\ g2 !! id = Some t2 /\ sym_rel s s1 t t2).

Definition link_rel (L L1 M M2 : Link) : Prop :=
  textp L1 = textp L /\ datap L1 = datap L
  /\ textp M2 = textp M /\ datap M2 = datap M
  /\ heap_rel (syms L) (syms L1) (syms M) (syms M2).

(** ** Statements about the encoder *)

(** A symbol built through the encoder only: its payload is its size. *)
Definition enc_ok (s : Sym) : Prop := buf_ok s /\ s_np s = s_size s.

(** [s'] is [s] after appending the bytes [bs] and the records [rs]. *)
Definition grown_by (cfg : Conf) (s s' : Sym) (bs : list Z) (rs : list Reloc) : Prop :=
  exists m p,
    s' = rebuf (set_r (set_size (touch cfg s) (s_size s + Z.of_nat (length bs)))
                  (s_r s ++ rs))
           (s_size s + Z.of_nat (length bs)) m p
    /\ enc_ok s'
    /\ payload s' = payload s ++ bs.

(** The record [gcaddsym] appends for the pointer slot number [k]. *)
Definition gc_aptr (cfg : Conf) (off : Z) (k : nat) : list Z :=
  uint_image cfg (PtrSize cfg) (GC_APTR cfg)
  ++ uint_image cfg (PtrSize cfg) (off + Z.of_nat k * PtrSize cfg).

(** ** Statements about the layout *)

(** The order of the kinds, as the comparisons of [dodata] and [address]
    rely on it; [Sxxx = 0] comes first. *)
Definition kind_order (cfg : Conf) : Prop :=
  0 <= STEXT cfg
  /\ STEXT cfg < SRODATA cfg < SELFSECT cfg
  /\ SELFSECT cfg <= SNOPTRDATA cfg < SDATARELRO cfg
  /\ SDATARELRO cfg < SDATA cfg < SBSS cfg
  /\ SBSS cfg < SNOPTRBSS cfg < SXREF cfg.

(** Symbols that have a kind keep it from [h] to [h']. *)
Definition nzstable (h h' : Heap) : Prop :=
  forall j s, h !! j = Some s -> s_type s <> 0 ->
    exists s', h' !! j = Some s' /\ s_type s' = s_type s.

(** The same, but for the symbol under the cursor. *)
Definition nzstable_but (id : nat) (h h' : Heap) : Prop :=
  forall j s, j <> id -> h !! j = Some s -> s_type s <> 0 ->
    exists s', h' !! j = Some s' /\ s_type s' = s_type s.

(** A step of the layout that leaves the data list alone and the kinds of
    the symbols that have one. *)
Definition lstable (L L' : Link) : Prop :=
  datap L' = datap L /\ nzstable (syms L) (syms L').

Definition type_of (h : Heap) (id : nat) : Z :=
  match h !! id with Some s => s_type s | None => 0 end.

(** What a loop body of the section walk does to the kinds: the symbol
    under the cursor goes from kind [t] to a kind [t'] with [Dn t t'];
    the other symbols that have a kind keep it. *)
Definition body_ok (Dn : Z -> Z -> Prop)
    (body : nat -> Sym -> Z -> Link -> option (Z * Link)) : Prop :=
  forall id s d L d' L',
    syms L !! id = Some s -> s_type s <> 0 ->
    body id s d L = Some (d', L') ->
    datap L' = datap L
    /\ nzstable_but id (syms L) (syms L')
    /\ exists s', syms L' !! id = Some s' /\ s_type s' <> 0
                  /\ Dn (s_type s) (s_type s').

(** The state of one pass over the sorted list [l], whose symbols had the
    kinds [t0] when the pass began: those still ahead of the cursor have
    their kind, those behind it went from [t] to a [t'] with [D t t']. *)
Definition pass_inv (l : list nat) (t0 : nat -> Z) (D : Z -> Z -> Prop)
    (L : Link) (todo : list nat) : Prop :=
  exists done,
    l = done ++ todo
    /\ (forall id, id ∈ todo ->
          exists s, syms L !! id = Some s /\ s_type s = t0 id)
    /\ (forall id, id ∈ done ->
          exists s, syms L !! id = Some s /\ s_type s <> 0 /\ D (t0 id) (s_type s)).

(** After the walk of segdata. *)
Definition segdata_done (cfg : Conf) (t t' : Z) : Prop :=
  (t < SELFSECT cfg /\ t' = t)
  \/ (SELFSECT cfg <= t /\ (t' = SDATA cfg \/ (t' = t /\ SBSS cfg <= t))).

(** ** Scenario S2, run *)

(** The diagnostics and the four bytes at [f.payload[16..20]] after
    [relocsym(f)]. *)
Definition S2_run (cfg : Conf) (ext : Ext) (L : Link) : option (list Diag * list Z) :=
  L' ← relocsym cfg ext 0%nat L;
  f' ← syms L' !! 0%nat;
  Some (diags L', take 4 (drop 16 (s_p f'))).

(** A little-endian integer. *)
Fixpoint le_value (bs : list Z) : Z :=
  match bs with
  | [] => 0
  | b :: bs' => b + 256 * le_value bs'
  end.

(** One symbol of each family: read-only, initialized, zeroed. *)
Definition three_heap : Heap :=
  <[0%nat := mkSym "ro" (SRODATA amd64) 8 0 [1; 2; 3; 4; 5; 6; 7; 8] []]>
    (<[1%nat := mkSym "d" (SNOPTRDATA amd64) 4 0 [9; 9; 9; 9] []]>
       (<[2%nat := set_size (mkSym "z" (SBSS amd64) 0 0 [] []) 16]> ∅)).

Definition three_link : Link := mkLink three_heap [] [0; 1; 2]%nat.

Definition kinds_of (L : option Link) : list (option Z) :=
  match L with
  | Some L => (fun id => s_type <$> syms L !! id) <$> datap L
  | None => []
  end.

(** The list and the heap [dodata] leaves for [three_link]. *)
Definition three_done : Link := default three_link (dodata amd64 ext0 three_link).

(** Scenario S2 at concrete addresses. *)
Definition S2_text : Link := S2_link (STEXT amd64) 4198400 4202496.

(** Scenario S2 after [reloc]. *)
Definition S2_done : Link := default S2_text (reloc amd64 ext0 S2_text).

(** Scenario S5: [q], 24 bytes of data without [gotype], and the empty GC
    symbol. *)
Definition S5_q : Sym := mkSym "q" (SDATA amd64) 24 0 (replicate 24 0) [].

Definition S5_heap : Heap :=
  <[5%nat := S5_q]> (<[102%nat := newsym "gcdata1"]> ∅).

(** A Windows import: [main] refers to the imported [ExitProcess], whose [plt]
    field is [plt]; [.rel] is empty. *)
Definition pe_reloc : Reloc := mkReloc 2 4 (D_ADDR amd64) 0 (Some 1%nat).

Definition pe_main : Sym :=
  mkSym "main" (STEXT amd64) 8 0 (replicate 8 0) [pe_reloc].

Definition pe_import (plt : Z) : Sym :=
  set_plt (mkSym "ExitProcess" (SDYNIMPORT amd64) 0 0 [] []) plt.

Definition pe_heap (plt : Z) : Heap :=
  <[0%nat := pe_main]>
    (<[1%nat := pe_import plt]> (<[100%nat := newsym ".rel"]> ∅)).

(** The same with two call sites in [main]. *)
Definition pe_main2 : Sym :=
  mkSym "main" (STEXT amd64) 16 0 (replicate 16 0)
    [pe_reloc; mkReloc 10 4 (D_ADDR amd64) 0 (Some 1%nat)].

Definition pe_heap2 : Heap := <[0%nat := pe_main2]> (pe_heap (-2)).

(** What [dynrelocsym(main)] leaves: the bytes and records of [.rel], the
    records of [main], the [plt] field of the import. *)
Definition pe_run (cfg : Conf) : option (list Z * list Reloc * list Reloc * Z) :=
  h ← dynrelocsym cfg ext0 0%nat pe_heap2;
  rs ← h !! 100%nat;
  s ← h !! 0%nat;
  t ← h !! 1%nat;
  Some (payload rs, s_r rs, s_r s, s_plt t).

(** * The rest of [data.c] *)

(** ** More of the byte encoder *)

Definition setuint8 (cfg : Conf) (s : Sym) (r v : Z) : option Sym :=
  '(_, s) ← setuintxx cfg s r (v mod 2 ^ 8) 1; Some s.

Definition setuint16 (cfg : Conf) (s : Sym) (r v : Z) : option Sym :=
  '(_, s) ← setuintxx cfg s r (v mod 2 ^ 16) 2; Some s.

Definition setuint32 (cfg : Conf) (s : Sym) (r v : Z) : option Sym :=
  '(_, s) ← setuintxx cfg s r (v mod 2 ^ 32) 4; Some s.

Definition setuint64 (cfg : Conf) (s : Sym) (r v : Z) : option Sym :=
  '(_, s) ← setuintxx cfg s r (v mod 2 ^ 64) 8; Some s.

Definition setaddrplus (cfg : Conf) (s : Sym) (off : Z) (t : option nat) (add : Z)
    : option (Z * Sym) :=
  let s := if s_type s =? 0 then set_type s (SDATA cfg) else s in
  let s := set_reachable s true in
  s ← (if off + PtrSize cfg >? s_size s
       then symgrow (set_size s (off + PtrSize cfg)) (int32 (off + PtrSize cfg))
       else Some s);
  Some (off, addrel s (mkReloc off (PtrSize cfg) (D_ADDR cfg) (int32 add) t)).

Definition setaddr (cfg : Conf) (s : Sym) (off : Z) (t : option nat)
    : option (Z * Sym) :=
  setaddrplus cfg s off t 0.

(** The slot [addrel] hands out is zeroed, so [r->add] stays 0. *)
Definition addsize (cfg : Conf) (s : Sym) (t : option nat) : option (Z * Sym) :=
  let s := if s_type s =? 0 then set_type s (SDATA cfg) else s in
  let s := set_reachable s true in
  let i := s_size s in
  let s := set_size s (s_size s + PtrSize cfg) in
  s ← symgrow s (int32 (s_size s));
  Some (i, addrel s (mkReloc i (PtrSize cfg) (D_SIZE cfg) 0 t)).

(** ** Strings *)

(** The bytes of a string. *)
Fixpoint codes (s : string) : list Z :=
  match s with
  | EmptyString => []
  | String c s' => code c :: codes s'
  end.

(** [memmove(p + r, src, n)], inside the allocated buffer only. *)
Fixpoint blit (p : list Z) (r : Z) (src : list Z) : option (list Z) :=
  match src with
  | [] => Some p
  | b :: src' => p' ← poke p r b; blit p' (r + 1) src'
  end.

(** [addstring] stores [str] and its final NUL at the end of [s].  The
    third component is the call [elfsetstring(str, r)] ([elf.c]) made for
    the section name table, if any. *)
Definition addstring (cfg : Conf) (s : Sym) (str : string)
    : option (Z * Sym * list (string * Z)) :=
  let s := if s_type s =? 0 then set_type s (SNOPTRDATA cfg) else s in
  let s := set_reachable s true in
  let r := int32 (s_size s) in
  let bs := codes (cstr str) ++ [0] in
  let n := Z.of_nat (length bs) in
  let calls := if strcmp (s_name s) ".shstrtab" =? 0 then [(str, r)] else [] in
  s ← symgrow s (int32 (r + n));
  p ← blit (s_p s) r bs;
  Some (r, set_size (set_p s p) (s_size s + n), calls).

(** [strnput(s, n)]: the bytes it hands to [cput]. *)
Fixpoint strnput_copy (s : string) (n : nat) : list Z * nat :=
  match n, s with
  | S n', String c s' =>
      if code c =? 0 then ([], n)
      else let '(o, k) := strnput_copy s' n' in (code c :: o, k)
  | _, _ => ([], n)
  end.

Definition strnput (s : string) (n : Z) : list Z :=
  let '(o, k) := strnput_copy s (Z.to_nat n) in
  o ++ replicate k 0.

(** Reading a C string back: the bytes before the first NUL. *)
Fixpoint until_nul (bs : list Z) : list Z :=
  match bs with
  | [] => []
  | b :: bs' => if b =? 0 then [] else b :: until_nul bs'
  end.

(** ** Kinds of the symbols that have data *)

(** [dosymtype]: the loop over [allsym]. *)
Fixpoint dosymtype_loop (cfg : Conf) (l : list nat) (h : Heap) : option Heap :=
  match l with
  | [] => Some h
  | id :: l' =>
      s ← h !! id;
      let s :=
        if s_np s >? 0 then
          let s := if s_type s =? SBSS cfg then set_type s (SDATA cfg) else s in
          if s_type s =? SNOPTRBSS cfg then set_type s (SNOPTRDATA cfg) else s
        else s in
      dosymtype_loop cfg l' (<[id := s]> h)
  end.

Definition dosymtype (cfg : Conf) (L : Link) : option Link :=
  on_syms (dosymtype_loop cfg (allsym L)) L.

(** ** Calls that may end the link *)

(** The fatal errors of [data.c] that depend on the input: [mangle(pn)],
    and the two phase errors of [blk], each followed by [errorexit()].  The
    exit when memory runs out is not among them: allocation is taken to
    succeed. *)
Inductive Fatal :=
  | Mangled
  | PhaseAddr (addr value type : Z)
  | PhaseSize (addr vend : Z).

(** A call returns, ends the link, or does neither ([Fault]): it reads or
    writes outside an object, or runs a loop that never ends. *)
Inductive Run (A : Type) :=
  | Ret (a : A)
  | Exit (f : Fatal)
  | Fault.

Arguments Ret {A} a.
Arguments Exit {A} f.
Arguments Fault {A}.

(** ** Initialized data *)

(** The fields of [Prog] ([l.h]) that [savedata] reads: [from.offset],
    [datasize], and of the operand [to]: its type, offset, symbol, string
    bytes and, for a floating constant, the memory image of [to.ieee]. *)
Record Prog := {
  from_offset : Z;
  datasize : Z;
  to_type : Z;
  to_offset : Z;
  to_sym : option nat;
  to_scon : list Z;
  to_ieee : list Z
}.

(** Operand types and float tables of [l.h], and [ieeedtof] ([lib.c]). *)
Record Asm := {
  D_CONST : Z;
  D_FCONST : Z;
  D_SCONST : Z;
  fnuxi4 : list nat;
  fnuxi8 : list nat;
  ieeedtof : list Z -> Z
}.

Inductive DataDiag :=
  | BadData
  | BadNuxi (siz : Z).

(** [for(i=0; i<siz; i++) s->p[off+i] = p->to.scon[i];] *)
Fixpoint scon_put (scon : list Z) (off : Z) (i n : nat) (p : list Z)
    : option (list Z) :=
  match n with
  | O => Some p
  | S n' =>
      b ← scon !! i;
      p' ← poke p (off + Z.of_nat i) b;
      scon_put scon off (S i) n' p'
  end.

Definition stored (s : Sym) (ds : list DataDiag) (p : option (list Z))
    : Run (Sym * list DataDiag) :=
  match p with
  | Some p => Ret (set_p s p, ds)
  | None => Fault
  end.

Definition savedata (cfg : Conf) (asm : Asm) (s : Sym) (p : Prog)
    : Run (Sym * list DataDiag) :=
  let off := int32 (from_offset p) in
  let siz := int32 (datasize p) in
  if (off <? 0) || (siz <? 0) || (off >=? 2 ^ 30) || (siz >=? 100) then Exit Mangled
  else
    match symgrow s (int32 (off + siz)) with
    | None => Fault
    | Some s =>
        let addr :=
          let type := if to_type p =? D_SIZE cfg then D_SIZE cfg else D_ADDR cfg in
          Ret (addrel s (mkReloc off siz type (to_offset p) (to_sym p)), []) in
        if to_type p =? D_FCONST asm then
          if siz =? 8 then
            stored s [] (nuxi_put (fnuxi8 asm) (to_ieee p) off 0 8 (s_p s))
          else
            let fl := int32 (ieeedtof asm (to_ieee p)) in
            stored s [] (nuxi_put (fnuxi4 asm) (cast cfg 4 fl) off 0 4 (s_p s))
        else if to_type p =? D_SCONST asm then
          stored s [] (scon_put (to_scon p) off 0 (Z.to_nat siz) (s_p s))
        else if to_type p =? D_CONST asm then
          match to_sym p with
          | Some _ => addr
          | None =>
              let o := int64 (to_offset p) in
              let fl := int32 o in
              if siz =? 1 then
                stored s [] (j ← inuxi1 cfg !! 0%nat; b ← cast cfg 4 fl !! j;
                             poke (s_p s) off b)
              else if siz =? 2 then
                stored s [] (nuxi_put (inuxi2 cfg) (cast cfg 4 fl) off 0 2 (s_p s))
              else if siz =? 4 then
                stored s [] (nuxi_put (inuxi4 cfg) (cast cfg 4 fl) off 0 4 (s_p s))
              else if siz =? 8 then
                stored s [] (nuxi_put (inuxi8 cfg) (cast cfg 8 o) off 0 8 (s_p s))
              else Ret (s, [BadNuxi siz])
          end
        else if (to_type p =? D_ADDR cfg) || (to_type p =? D_SIZE cfg) then addr
        else Ret (s, [BadData])
    end.

(** ** Writing the image *)

(** [for(; addr < target; addr++) cput(0);] *)
Definition zeros_to (addr target : Z) : list Z := replicate (Z.to_nat (target - addr)) 0.

(** The first loop of [blk]: the list from the first symbol that is not a
    sub-symbol and lies at or after [addr]. *)
Fixpoint blk_seek (cfg : Conf) (h : Heap) (l : list nat) (addr : Z)
    : option (list nat) :=
  match l with
  | [] => Some []
  | id :: l' =>
      sym ← h !! id;
      if (Z.land (s_type sym) (SSUB cfg) =? 0) && (s_value sym >=? addr) then Some l
      else blk_seek cfg h l' addr
  end.

(** The second loop: the address reached and the bytes written.  [addr]
    is an [int32] and [addr += sym->np] wraps; the loop that pads with zeros
    up to [value + size], a 64-bit sum, counts [addr] up by one, so it never
    ends when that sum is past the largest [int32]. *)
Fixpoint blk_emit (cfg : Conf) (h : Heap) (l : list nat) (addr eaddr : Z)
    (out : list Z) : Run (Z * list Z) :=
  match l with
  | [] => Ret (addr, out)
  | id :: l' =>
      match h !! id with
      | None => Fault
      | Some sym =>
          if negb (Z.land (s_type sym) (SSUB cfg) =? 0)
          then blk_emit cfg h l' addr eaddr out
          else if s_value sym >=? eaddr then Ret (addr, out)
          else if s_value sym <? addr
          then Exit (PhaseAddr addr (s_value sym) (s_type sym))
          else
            let out := out ++ zeros_to addr (s_value sym) in
            let addr := Z.max addr (s_value sym) in
            if Z.of_nat (length (s_p sym)) <? s_np sym then Fault
            else
              let out := out ++ take (Z.to_nat (s_np sym)) (s_p sym) in
              let addr := int32 (addr + s_np sym) in
              if (addr <? s_value sym + s_size sym)
                 && (s_value sym + s_size sym >=? 2 ^ 31)
              then Fault
              else
              let out := out ++ zeros_to addr (s_value sym + s_size sym) in
              let addr := Z.max addr (s_value sym + s_size sym) in
              if negb (addr =? s_value sym + s_size sym)
              then Exit (PhaseSize addr (s_value sym + s_size sym))
              else blk_emit cfg h l' addr eaddr out
      end
  end.

(** [blk(start, addr, size)]: the bytes handed to [cput]. *)
Definition blk (cfg : Conf) (h : Heap) (start : list nat) (addr size : Z)
    : Run (list Z) :=
  let addr := int32 addr in
  let size := int32 size in
  match blk_seek cfg h start addr with
  | None => Fault
  | Some l =>
      let eaddr := int32 (addr + size) in
      match blk_emit cfg h l addr eaddr [] with
      | Ret (addr, out) => Ret (out ++ zeros_to addr eaddr)
      | Exit f => Exit f
      | Fault => Fault
      end
  end.

(** [codeblk] and [datblk] without the listing of [debug['a']]: the bytes
    written to the output file. *)
Definition codeblk (cfg : Conf) (L : Link) (addr size : Z) : Run (list Z) :=
  blk cfg (syms L) (textp L) addr size.

Definition datblk (cfg : Conf) (L : Link) (addr size : Z) : Run (list Z) :=
  blk cfg (syms L) (datap L) addr size.

(** ** Scenario S1

    [a] (8 zeroed bytes of data) holds the address of [b] (16 bytes of
    read-only data at [bv]). *)
Definition S1_reloc : Reloc := mkReloc 0 8 (D_ADDR amd64) 0 (Some 1%nat).

Definition S1_a : Sym := mkSym "a" (SDATA amd64) 8 0 (replicate 8 0) [S1_reloc].

Definition S1_b (bv : Z) : Sym := mkSym "b" (SRODATA amd64) 16 bv (replicate 16 0) [].

Definition S1_link (bv : Z) : Link :=
  mkLink (<[0%nat := S1_a]> (<[1%nat := S1_b bv]> ∅)) [] [0%nat; 1%nat].

(** What a run of the resolver may change: the bytes of the payloads and
    the list of diagnostics. *)
Definition patched (L L' : Link) : Prop :=
  heap_frame (syms L) (syms L')
  /\ allsym L' = allsym L /\ textp L' = textp L /\ datap L' = datap L
  /\ sects L' = sects L
  /\ exists ds, diags L' = diags L ++ ds.

(** Three symbols with one key, as static symbols of one name are. *)
Definition ties_heap : Heap :=
  <[0%nat := mkSym "x" (SDATA amd64) 8 0 [] []]>
    (<[1%nat := mkSym "x" (SDATA amd64) 8 0 [] []]>
       (<[2%nat := mkSym "x" (SDATA amd64) 8 0 [] []]> ∅)).

(** Three symbols in the order of their keys: by kind, then by size. *)
Definition asc_heap : Heap :=
  <[0%nat := mkSym "c" (SRODATA amd64) 8 0 [] []]>
    (<[1%nat := mkSym "b" (SDATA amd64) 4 0 [] []]>
       (<[2%nat := mkSym "a" (SDATA amd64) 8 0 [] []]> ∅)).

(** The operand types of [6l] and little-endian float tables; [ieeedtof]
    is not used by the examples. *)
Definition asm0 : Asm :=
  {| D_CONST := 65; D_FCONST := 66; D_SCONST := 67;
     fnuxi4 := [0; 1; 2; 3]%nat; fnuxi8 := [0; 1; 2; 3; 4; 5; 6; 7]%nat;
     ieeedtof := fun _ => 0 |}.

(** [DATA x+off(SB)/siz, $v] *)
Definition data_const (off siz v : Z) : Prog :=
  {| from_offset := off; datasize := siz; to_type := D_CONST asm0; to_offset := v;
     to_sym := None; to_scon := []; to_ieee := [] |}.

(** [DATA x+off(SB)/siz, $"..."] *)
Definition data_scon (off siz : Z) (bs : list Z) : Prog :=
  {| from_offset := off; datasize := siz; to_type := D_SCONST asm0; to_offset := 0;
     to_sym := None; to_scon := bs; to_ieee := [] |}.

(** [DATA x+off(SB)/siz, $t+add(SB)] *)
Definition data_addr (off siz : Z) (t : nat) (add : Z) : Prog :=
  {| from_offset := off; datasize := siz; to_type := D_ADDR amd64; to_offset := add;
     to_sym := Some t; to_scon := []; to_ieee := [] |}.

(** ** The memory image

    The byte the symbols of a list put at the address [a]: the payload byte
    of the first symbol, not a sub-symbol, whose payload covers [a], and 0
    where there is none. *)
Fixpoint byte_at (cfg : Conf) (h : Heap) (l : list nat) (a : Z) : Z :=
  match l with
  | [] => 0
  | id :: l' =>
      match h !! id with
      | None => 0
      | Some sym =>
          if negb (Z.land (s_type sym) (SSUB cfg) =? 0) then byte_at cfg h l' a
          else if (s_value sym <=? a) && (a <? s_value sym + s_np sym)
          then default 0 (s_p sym !! Z.to_nat (a - s_value sym))
          else byte_at cfg h l' a
      end
  end.

(** The symbols of the list that are not sub-symbols lie one after the
    other from [lo] on, each with its payload inside its size and inside
    its buffer. *)
Fixpoint laid_out (cfg : Conf) (h : Heap) (l : list nat) (lo : Z) : Prop :=
  match l with
  | [] => True
  | id :: l' =>
      match h !! id with
      | None => False
      | Some sym =>
          if negb (Z.land (s_type sym) (SSUB cfg) =? 0) then laid_out cfg h l' lo
          else
            lo <= s_value sym /\ 0 <= s_np sym <= s_size sym
            /\ s_np sym <= Z.of_nat (length (s_p sym))
            /\ laid_out cfg h l' (s_value sym + s_size sym)
      end
  end.

(** No symbol of the list lies across the address [a]. *)
Definition clear_at (cfg : Conf) (h : Heap) (l : list nat) (a : Z) : Prop :=
  forall id sym, id ∈ l -> h !! id = Some sym ->
    Z.land (s_type sym) (SSUB cfg) = 0 ->
    ~ (s_value sym < a < s_value sym + s_size sym).

(** Two data symbols at 4096 and 4104, and a sub-symbol between them. *)
Definition img_heap : Heap :=
  <[0%nat := mkSym "a" (SDATA amd64) 4 4096 [1; 2] []]>
    (<[1%nat := mkSym "a.sub" (SDATA amd64 + SSUB amd64) 2 4098 [7; 7] []]>
       (<[2%nat := mkSym "b" (SDATA amd64) 2 4104 [9; 8] []]> ∅)).

(** A symbol with data in a zeroed kind takes the matching kind with data. *)
Definition promoted (cfg : Conf) (s : Sym) : Sym :=
  if s_np s >? 0 then
    if s_type s =? SBSS cfg then set_type s (SDATA cfg)
    else if s_type s =? SNOPTRBSS cfg then set_type s (SNOPTRDATA cfg)
    else s
  else s.

(** Scenario S3: [c], of kind BSS, size 64, with 8 bytes of payload. *)
Definition S3_heap : Heap :=
  <[0%nat := set_size (mkSym "c" (SBSS amd64) 0 0 [1; 2; 3; 4; 5; 6; 7; 8] []) 64]>
    (<[1%nat := set_size (mkSym "z" (SBSS amd64) 0 0 [] []) 16]> ∅).

(** ** The garbage collector's record of a typed symbol *)

(** The bytes [gcaddsym] appends for a symbol with a Go type, placed at
    [off]: the word [GC_CALL], the word [off], the four bytes of the slot
    that refers to the type's program, and four more zero bytes where a
    pointer has eight. *)
Definition gc_call (cfg : Conf) (off : Z) : list Z :=
  uint_image cfg (PtrSize cfg) (GC_CALL cfg)
  ++ uint_image cfg (PtrSize cfg) off
  ++ [0; 0; 0; 0]
  ++ (if PtrSize cfg =? 8 then [0; 0; 0; 0] else []).

(** After scenario S4: a typed symbol, here of 16 bytes, and an empty GC
    symbol. *)
Definition S4_typed : Sym :=
  {| s_name := "v"; s_type := 0; s_size := 16; s_value := 0; s_align := 0;
     s_reachable := false; s_special := false; s_plt := -1; s_got := -1;
     s_gotype := Some 2%nat; s_outer := None; s_sect := None; s_rel_ro := false;
     s_dynimpname := None; s_dynexport := false; s_p := []; s_np := 0;
     s_maxp := 0; s_r := [] |}.

Definition S4_heap : Heap :=
  <[0%nat := newsym "gcdata"]> (<[1%nat := S4_typed]> (<[2%nat := newsym "type.T"]> ∅)).

(** * Properties *)

(** ** Sorting the data list *)

Lemma code_nonneg c : 0 <= code c.
Proof. unfold code. lia. Qed.

Lemma peek_nonneg s : 0 <= peek s.
Proof. destruct s; simpl; [lia | apply code_nonneg]. Qed.

Lemma strcmp_flip a : forall b, strcmp b a = - strcmp a b.
Proof.
  induction a as [|c a IH]; intros [|d b]; simpl.
  - reflexivity.
  - destruct (code d =? 0) eqn:E; simpl; rewrite ?E; simpl; lia.
  - destruct (code c =? 0) eqn:E; simpl; rewrite ?E; simpl; lia.
  - destruct (code c =? 0) eqn:Ec, (code d =? 0) eqn:Ed,
      (code c =? code d) eqn:Ecd, (code d =? code c) eqn:Edc; simpl; try lia.
    apply IH.
Qed.

(** [datcmp] is total: one of two symbols is never after the other. *)
Lemma datcmp_total s1 s2 : 0 <= datcmp s1 s2 -> datcmp s2 s1 <= 0.
Proof.
  unfold datcmp.
  destruct (s_type s1 =? s_type s2) eqn:Et, (s_type s2 =? s_type s1) eqn:Et';
    simpl; try lia.
  destruct (s_size s1 =? s_size s2) eqn:Es, (s_size s2 =? s_size s1) eqn:Es';
    simpl; try lia.
  - rewrite (strcmp_flip (s_name s1) (s_name s2)). lia.
  - destruct (s_size s1 <? s_size s2) eqn:E1, (s_size s2 <? s_size s1) eqn:E2; lia.
Qed.

Lemma datcmp_at_total h a b : 0 <= datcmp_at h a b -> datcmp_at h b a <= 0.
Proof.
  unfold datcmp_at. destruct (h !! a), (h !! b); try lia. apply datcmp_total.
Qed.

Section Merge.
Context (h : Heap).

Lemma datmerge_nil_l l2 : datmerge h [] l2 = l2.
Proof. destruct l2; reflexivity. Qed.

Lemma datmerge_nil_r l1 : datmerge h l1 [] = l1.
Proof. destruct l1; reflexivity. Qed.

Lemma datmerge_cons a l1 b l2 :
  datmerge h (a :: l1) (b :: l2) =
    if datcmp_at h a b <? 0 then a :: datmerge h l1 (b :: l2)
    else b :: datmerge h (a :: l1) l2.
Proof. reflexivity. Qed.

Lemma datmerge_perm l1 : forall l2, datmerge h l1 l2 ≡ₚ l1 ++ l2.
Proof.
  induction l1 as [|a l1 IH1]; intros l2; [by rewrite datmerge_nil_l|].
  induction l2 as [|b l2 IH2].
  - rewrite datmerge_nil_r, app_nil_r. reflexivity.
  - rewrite datmerge_cons. destruct (datcmp_at h a b <? 0).
    + simpl. rewrite IH1. reflexivity.
    + rewrite IH2. rewrite (Permutation_middle (a :: l1) l2 b). reflexivity.
Qed.

Lemma datmerge_hd a l1 : forall l2,
  HdRel (dat_le h) a l1 -> HdRel (dat_le h) a l2 ->
  HdRel (dat_le h) a (datmerge h l1 l2).
Proof.
  intros l2 H1 H2. destruct l1 as [|x l1]; [by rewrite datmerge_nil_l|].
  destruct l2 as [|y l2]; [exact H1|].
  rewrite datmerge_cons. destruct (datcmp_at h x y <? 0).
  - constructor. inversion H1; assumption.
  - constructor. inversion H2; assumption.
Qed.

Lemma datmerge_sorted l1 : forall l2,
  Sorted (dat_le h) l1 -> Sorted (dat_le h) l2 ->
  Sorted (dat_le h) (datmerge h l1 l2).
Proof.
  induction l1 as [|a l1 IH1]; intros l2 S1 S2; [by rewrite datmerge_nil_l|].
  induction l2 as [|b l2 IH2]; [exact S1|].
  rewrite datmerge_cons. destruct (datcmp_at h a b <? 0) eqn:E.
  - inversion S1; subst. constructor; [apply IH1; assumption|].
    apply datmerge_hd; [assumption|]. constructor.
    unfold dat_le. apply Z.ltb_lt in E. lia.
  - inversion S2; subst. constructor; [apply IH2; assumption|].
    apply datmerge_hd; [|assumption]. constructor.
    unfold dat_le. apply datcmp_at_total. apply Z.ltb_ge in E. lia.
Qed.

(** Choosing the lead element and then looping is one merge. *)
Lemma datsort_lead l1 l2 :
  match l1, l2 with
  | a :: l1', b :: l2' =>
      if datcmp_at h a b <? 0 then a :: datmerge h l1' l2
      else b :: datmerge h l1 l2'
  | _, _ => l1 ++ l2
  end = datmerge h l1 l2.
Proof.
  destruct l1 as [|a l1]; [by rewrite datmerge_nil_l|].
  destruct l2 as [|b l2]; [apply app_nil_r|]. reflexivity.
Qed.
End Merge.

(** The cut leaves both halves shorter than the list. *)
Lemma datsort_mid_spec {A} (l : list A) :
  (forall k, k <= datsort_mid l k /\ 2 * (datsort_mid l k - k) <= length l - 1)%nat
  /\ (forall x k, k <= datsort_mid (x :: l) k
                 /\ 2 * (datsort_mid (x :: l) k - k) <= length (x :: l) - 1)%nat.
Proof.
  induction l as [|a l [IH1 IH2]].
  - split; intros; simpl; lia.
  - split; [exact (IH2 a)|]. intros x k. destruct l as [|b l].
    + simpl. lia.
    + change (datsort_mid (x :: a :: b :: l) k) with (datsort_mid (b :: l) (S k)).
      destruct (IH1 (S k)) as [H1 H2]. simpl in *. lia.
Qed.

Lemma datsort_mid_lt {A} (l : list A) :
  (2 <= length l)%nat -> (S (datsort_mid l 0) < length l)%nat.
Proof.
  intros Hl. destruct (datsort_mid_spec l) as [H _].
  destruct (H 0%nat) as [_ H2]. lia.
Qed.

Lemma datsort_rec_eq fuel h l :
  datsort_rec (S fuel) h l =
    match l with
    | [] | [_] => l
    | _ => datmerge h (datsort_rec fuel h (take (S (datsort_mid l 0)) l))
             (datsort_rec fuel h (drop (S (datsort_mid l 0)) l))
    end.
Proof.
  destruct l as [|a [|b l]]; try reflexivity.
  cbv zeta beta iota delta [datsort_rec]. fold datsort_rec.
  apply datsort_lead.
Qed.

Lemma datsort_rec_spec h fuel : forall l, (length l <= fuel)%nat ->
  datsort_rec fuel h l ≡ₚ l /\ Sorted (dat_le h) (datsort_rec fuel h l).
Proof.
  induction fuel as [|fuel IH]; intros l Hl.
  - destruct l; [|simpl in Hl; lia]. split; [reflexivity|constructor].
  - rewrite datsort_rec_eq. destruct l as [|a [|b l]].
    + split; [reflexivity|constructor].
    + split; [reflexivity|repeat constructor].
    + set (l0 := a :: b :: l) in *.
      pose proof (datsort_mid_lt l0 ltac:(simpl; lia)) as Hk.
      set (k := datsort_mid l0 0) in *.
      destruct (IH (take (S k) l0)) as [P1 S1]; [rewrite length_take; lia|].
      destruct (IH (drop (S k) l0)) as [P2 S2]; [rewrite length_drop; lia|].
      split.
      * rewrite datmerge_perm, P1, P2. rewrite take_drop. reflexivity.
      * apply datmerge_sorted; assumption.
Qed.

Lemma byte_of_div x k : byte_of x k = (x / 2 ^ (8 * Z.of_nat k)) mod 256.
Proof.
  unfold byte_of. rewrite Z.shiftr_div_pow2 by lia.
  change 255 with (Z.ones 8). rewrite Z.land_ones by lia. reflexivity.
Qed.

Lemma byte_of_range x k : 0 <= byte_of x k < 256.
Proof. rewrite byte_of_div. apply Z.mod_pos_bound. lia. Qed.

Lemma byte_of_mod x y k n :
  (k < n)%nat -> x mod 2 ^ (8 * Z.of_nat n) = y mod 2 ^ (8 * Z.of_nat n) ->
  byte_of x k = byte_of y k.
Proof.
  intros Hk E. unfold byte_of. apply Z.bits_inj'. intros i Hi.
  rewrite !Z.land_spec, !Z.shiftr_spec by lia. change 255 with (Z.ones 8).
  destruct (Z_lt_dec i 8).
  - rewrite <- (Z.mod_pow2_bits_low x (8 * Z.of_nat n)) by lia. rewrite E.
    rewrite Z.mod_pow2_bits_low by lia. reflexivity.
  - rewrite Z.ones_spec_high by lia. rewrite !andb_false_r. reflexivity.
Qed.

Lemma le_value_bytes x n :
  le_value ((fun k => byte_of x k) <$> seq 0 n) = x mod 2 ^ (8 * Z.of_nat n).
Proof.
  assert (G : forall n i, le_value ((fun k => byte_of x k) <$> seq i n)
               = (x / 2 ^ (8 * Z.of_nat i)) mod 2 ^ (8 * Z.of_nat n)).
  { clear n. induction n as [|n IH]; intros i.
    - simpl. rewrite Z.mod_1_r. reflexivity.
    - cbn [seq fmap list_fmap le_value]. change (list_fmap _ _ ?f ?l) with (f <$> l).
      rewrite IH, byte_of_div.
      replace (8 * Z.of_nat (S n)) with (8 + 8 * Z.of_nat n) by lia.
      rewrite (Z.pow_add_r 2 8) by lia. change (2 ^ 8) with 256.
      rewrite Z.rem_mul_r by lia.
      replace (8 * Z.of_nat (S i)) with (8 * Z.of_nat i + 8) by lia.
      rewrite Z.pow_add_r by lia. change (2 ^ 8) with 256.
      rewrite Z.div_div by lia. reflexivity. }
  rewrite G. simpl. rewrite Z.div_1_r. reflexivity.
Qed.

Lemma cast_lookup cfg W x j :
  (j < W)%nat -> cast cfg W x !! j = Some (byte_of x (host_sig cfg W j)).
Proof.
  intros Hj. unfold cast. rewrite list_lookup_fmap, lookup_seq_lt by lia.
  reflexivity.
Qed.

Lemma cast_length cfg W x : length (cast cfg W x) = W.
Proof. unfold cast. rewrite length_fmap, length_seq. reflexivity. Qed.

(** ** The store loop *)

Lemma poke_Some p i b :
  0 <= i < Z.of_nat (length p) -> poke p i b = Some (<[Z.to_nat i := b]> p).
Proof.
  intros H. unfold poke.
  destruct (0 <=? i) eqn:E1; [|lia]. destruct (i <? Z.of_nat (length p)) eqn:E2; [|lia].
  reflexivity.
Qed.

Lemma poke_inv p i b p' :
  poke p i b = Some p' -> 0 <= i < Z.of_nat (length p) /\ p' = <[Z.to_nat i := b]> p.
Proof.
  unfold poke. destruct (0 <=? i) eqn:E1; simpl; [|discriminate].
  destruct (i <? Z.of_nat (length p)) eqn:E2; [|discriminate].
  intros [= <-]. split; [lia|reflexivity].
Qed.

Lemma splice_length p a bs :
  (a + length bs <= length p)%nat -> length (splice p a bs) = length p.
Proof.
  intros H. unfold splice. rewrite !length_app, length_take, length_drop. lia.
Qed.

Lemma nuxi_put_spec cfg W x tab off : forall n i p,
  Forall (fun j => (j < W)%nat) tab ->
  (i + n <= length tab)%nat ->
  0 <= off ->
  off + Z.of_nat i + Z.of_nat n <= Z.of_nat (length p) ->
  nuxi_put tab (cast cfg W x) off i n p =
    Some (splice p (Z.to_nat off + i)
            (take n (drop i (nuxi_image cfg W tab x)))).
Proof.
  induction n as [|n IH]; intros i p Htab Hlen Hoff Hp.
  - simpl. unfold splice. rewrite take_0. simpl.
    rewrite Nat.add_0_r, take_drop. reflexivity.
  - cbn [nuxi_put].
    destruct (lookup_lt_is_Some_2 tab i ltac:(lia)) as [j Hj].
    rewrite Hj. cbn [mbind option_bind].
    assert (Hjw : (j < W)%nat).
    { rewrite Forall_lookup in Htab. exact (Htab _ _ Hj). }
    rewrite cast_lookup by exact Hjw. cbn [mbind option_bind].
    rewrite poke_Some by lia. cbn [mbind option_bind].
    rewrite IH; [|assumption|lia|assumption|rewrite length_insert; lia].
    f_equal. unfold splice.
    assert (Hd : drop i (nuxi_image cfg W tab x)
                 = byte_of x (host_sig cfg W j) :: drop (S i) (nuxi_image cfg W tab x)).
    { apply drop_S. unfold nuxi_image. rewrite list_lookup_fmap, Hj. reflexivity. }
    rewrite Hd. cbn [take length].
    assert (Hn : (n <= length (drop (S i) (nuxi_image cfg W tab x)))%nat).
    { rewrite length_drop. unfold nuxi_image. rewrite length_fmap. lia. }
    rewrite !length_take, !Nat.min_l by (simpl; lia).
    replace (Z.to_nat (off + Z.of_nat i)) with (Z.to_nat off + i)%nat by lia.
    set (a := (Z.to_nat off + i)%nat).
    replace (Z.to_nat off + S i)%nat with (S a) by lia.
    rewrite (take_S_r _ a (byte_of x (host_sig cfg W j)))
      by (apply list_lookup_insert_eq; lia).
    rewrite take_insert_ge by lia.
    rewrite drop_insert_lt by lia.
    rewrite <- app_assoc. simpl. repeat f_equal. lia.
Qed.

(** ** Growing the payload *)

Lemma int32_id x : - 2 ^ 31 <= x < 2 ^ 31 -> int32 x = x.
Proof. intros H. unfold int32. rewrite Z.mod_small; lia. Qed.

(** Up to [2^30] the doubling stays inside [int32] and ends. *)
Lemma symgrow_cap_spec fuel : forall m siz,
  0 < m -> siz <= 2 ^ 30 -> siz <= m * 2 ^ Z.of_nat fuel ->
  exists m', symgrow_cap fuel m siz = Some m' /\ siz <= m' /\ m <= m'.
Proof.
  induction fuel as [|fuel IH]; intros m siz Hm Hb Hs.
  - simpl in *. destruct (m <? siz) eqn:E; [lia|]. exists m. split; [reflexivity|lia].
  - cbn [symgrow_cap]. destruct (m <? siz) eqn:E.
    + rewrite int32_id by lia.
      destruct (IH (m * 2) siz) as (m' & H1 & H2 & H3); [lia|exact Hb| |].
      * rewrite Nat2Z.inj_succ, Z.pow_succ_r in Hs by lia. lia.
      * exists m'. split; [exact H1|lia].
    + exists m. split; [reflexivity|lia].
Qed.

(** Past [2^30] it does not end: a buffer of 8 bytes asked to hold more
    than [2^30] doubles to [2^30], wraps to [-2^31], then to 0, and stays
    there. *)
Lemma symgrow_cap_wraps : symgrow_cap 32 8 (2 ^ 30 + 1) = None.
Proof. vm_compute. reflexivity. Qed.

Lemma rebuf_id s : rebuf s (s_np s) (s_maxp s) (s_p s) = s.
Proof. destruct s; reflexivity. Qed.

Lemma splice_take p a bs n :
  (a + length bs <= n)%nat -> (n <= length p)%nat ->
  take n (splice p a bs) = splice (take n p) a bs.
Proof.
  intros H Hn. unfold splice.
  rewrite take_app, length_take, Nat.min_l by lia.
  rewrite take_take, Nat.min_r by lia.
  rewrite take_take, Nat.min_l by lia.
  f_equal. rewrite take_app. replace (n - a - length bs)%nat with (n - (a + length bs))%nat by lia.
  rewrite (take_ge bs) by lia. f_equal.
  rewrite take_drop_commute. f_equal. f_equal. lia.
Qed.

Lemma splice_drop p a bs n :
  (a + length bs <= n)%nat -> (n <= length p)%nat ->
  drop n (splice p a bs) = drop n p.
Proof.
  intros H Hn. unfold splice.
  rewrite drop_app, length_take, Nat.min_l by lia.
  rewrite (drop_ge (take a p)) by (rewrite length_take; lia). simpl.
  rewrite drop_app, (drop_ge bs) by lia. simpl.
  rewrite drop_drop. f_equal. lia.
Qed.

Lemma buf_ok_splice s a bs :
  buf_ok s -> (a + length bs <= Z.to_nat (s_np s))%nat ->
  buf_ok (set_p s (splice (s_p s) a bs))
  /\ payload (set_p s (splice (s_p s) a bs)) = splice (payload s) a bs.
Proof.
  intros (H1 & H2 & H3 & H4) Ha. unfold buf_ok, payload. simpl.
  rewrite splice_length by lia. rewrite splice_drop by lia.
  rewrite splice_take by lia. auto.
Qed.

Lemma symgrow_spec s siz :
  buf_ok s -> siz <= 2 ^ 30 ->
  exists m p,
    symgrow s siz = Some (rebuf s (Z.max (s_np s) siz) m p)
    /\ buf_ok (rebuf s (Z.max (s_np s) siz) m p)
    /\ payload (rebuf s (Z.max (s_np s) siz) m p)
       = payload s ++ replicate (Z.to_nat (siz - s_np s)) 0.
Proof.
  intros (H1 & H2 & H3 & H4) Hb. unfold symgrow.
  destruct (s_np s >=? siz) eqn:E.
  - exists (s_maxp s), (s_p s). rewrite Z.max_l by lia. rewrite rebuf_id.
    split; [reflexivity|]. split; [repeat split; assumption|].
    replace (Z.to_nat (siz - s_np s)) with 0%nat by lia. simpl.
    rewrite app_nil_r. reflexivity.
  - rewrite Z.max_r by lia. destruct (s_maxp s <? siz) eqn:E2.
    + destruct (symgrow_cap_spec 32
                  (if s_maxp s =? 0 then 8 else s_maxp s) siz)
        as (m & Hm & Hm1 & Hm2).
      { destruct (s_maxp s =? 0) eqn:E3; lia. }
      { exact Hb. }
      { change (2 ^ Z.of_nat 32) with 4294967296.
        destruct (s_maxp s =? 0) eqn:E3; lia. }
      rewrite Hm. cbn [mbind option_bind].
      eexists m, _. split; [reflexivity|].
      unfold buf_ok, payload, rebuf. simpl.
      rewrite length_app, length_take, length_replicate.
      split; [|rewrite take_app, length_take, Nat.min_l by lia;
               rewrite take_take, Nat.min_r by lia;
               rewrite take_replicate; f_equal; f_equal; lia].
      split; [lia|]. split; [lia|]. split; [lia|].
      rewrite drop_app, length_take, Nat.min_l by lia.
      rewrite (drop_ge (take _ _)) by (rewrite length_take; lia). simpl.
      rewrite drop_replicate. f_equal. lia.
    + exists (s_maxp s), (s_p s). cbn [mbind option_bind].
      assert (Hs : set_np s siz = rebuf s siz (s_maxp s) (s_p s))
        by (destruct s; reflexivity).
      rewrite <- Hs. split; [reflexivity|].
      unfold buf_ok, payload. simpl.
      split.
      * split; [lia|]. split; [lia|]. split; [lia|].
        replace (Z.to_nat siz) with (Z.to_nat (s_np s) + Z.to_nat (siz - s_np s))%nat by lia.
        rewrite <- drop_drop, H4, drop_replicate. f_equal. lia.
      * replace (Z.to_nat siz) with (Z.to_nat (s_np s) + Z.to_nat (siz - s_np s))%nat by lia.
        rewrite <- take_take_drop, H4, take_replicate. f_equal. f_equal. lia.
Qed.

(** ** Integer conversions *)

Lemma int32_mod x : int32 x mod 2 ^ 32 = x mod 2 ^ 32.
Proof.
  unfold int32. rewrite Zminus_mod_idemp_l. f_equal. lia.
Qed.

Lemma int64_mod x : int64 x mod 2 ^ 64 = x mod 2 ^ 64.
Proof.
  unfold int64. rewrite Zminus_mod_idemp_l. f_equal. lia.
Qed.

Lemma mod_pow2_le x y (n m : nat) :
  (n <= m)%nat -> x mod 2 ^ (8 * Z.of_nat m) = y mod 2 ^ (8 * Z.of_nat m) ->
  x mod 2 ^ (8 * Z.of_nat n) = y mod 2 ^ (8 * Z.of_nat n).
Proof.
  intros Hn E.
  assert (D : (2 ^ (8 * Z.of_nat n) | 2 ^ (8 * Z.of_nat m))).
  { exists (2 ^ (8 * Z.of_nat (m - n))). rewrite <- Z.pow_add_r by lia. f_equal. lia. }
  rewrite <- (Z.mod_mod_divide x _ _ D), <- (Z.mod_mod_divide y _ _ D).
  rewrite E. reflexivity.
Qed.

Lemma table_ok_length cfg W n tab : table_ok cfg W n tab -> length tab = n.
Proof.
  intros [_ H]. apply Permutation_length in H.
  rewrite length_fmap, length_seq in H. exact H.
Qed.

Lemma nuxi_image_mod cfg W n tab x y :
  table_ok cfg W n tab ->
  x mod 2 ^ (8 * Z.of_nat n) = y mod 2 ^ (8 * Z.of_nat n) ->
  nuxi_image cfg W tab x = nuxi_image cfg W tab y.
Proof.
  intros [_ H] E. unfold nuxi_image. apply list_fmap_ext. intros i j Hj.
  apply (byte_of_mod _ _ _ n); [|exact E].
  assert (Hin : host_sig cfg W j ∈ host_sig cfg W <$> tab).
  { apply list_elem_of_fmap. exists j. split; [reflexivity|].
    apply list_elem_of_lookup. eauto. }
  rewrite H in Hin. apply elem_of_seq in Hin. lia.
Qed.

Lemma uint_image_length cfg wid v :
  tables_ok cfg -> wid = 1 \/ wid = 2 \/ wid = 4 \/ wid = 8 ->
  Z.of_nat (length (uint_image cfg wid v)) = wid.
Proof.
  intros (T1 & T2 & T4 & T8) Hw. unfold uint_image, nuxi_image, uint_table.
  rewrite length_fmap.
  destruct Hw as [-> | [-> | [-> | ->]]]; simpl;
    [rewrite (table_ok_length _ _ _ _ T1) | rewrite (table_ok_length _ _ _ _ T2)
    | rewrite (table_ok_length _ _ _ _ T4) | rewrite (table_ok_length _ _ _ _ T8)];
    reflexivity.
Qed.

(** The four arms of the [switch(wid)] of [setuintxx]. *)
Lemma setuintxx_put cfg off v wid p :
  tables_ok cfg -> wid = 1 \/ wid = 2 \/ wid = 4 \/ wid = 8 ->
  0 <= off -> off + wid <= Z.of_nat (length p) ->
  (if wid =? 1 then
     j ← inuxi1 cfg !! 0%nat; b ← cast cfg 4 (int32 (uint64 v)) !! j; poke p off b
   else if wid =? 2 then nuxi_put (inuxi2 cfg) (cast cfg 4 (int32 (uint64 v))) off 0 2 p
   else if wid =? 4 then nuxi_put (inuxi4 cfg) (cast cfg 4 (int32 (uint64 v))) off 0 4 p
   else if wid =? 8 then
     nuxi_put (inuxi8 cfg) (cast cfg 8 (int64 (uint64 v))) off 0 8 p
   else Some p)
  = Some (splice p (Z.to_nat off) (uint_image cfg wid v)).
Proof.
  intros (T1 & T2 & T4 & T8) Hw Hoff Hp.
  assert (E32 : int32 (uint64 v) mod 2 ^ (8 * Z.of_nat 4) = v mod 2 ^ (8 * Z.of_nat 4)).
  { change (8 * Z.of_nat 4) with 32. rewrite int32_mod. unfold uint64.
    apply Z.mod_mod_divide. exists (2 ^ 32). reflexivity. }
  assert (E64 : int64 (uint64 v) mod 2 ^ (8 * Z.of_nat 8) = v mod 2 ^ (8 * Z.of_nat 8)).
  { change (8 * Z.of_nat 8) with 64. rewrite int64_mod. unfold uint64.
    apply Z.mod_mod. lia. }
  unfold uint_image, uint_table, uint_host.
  destruct Hw as [-> | [-> | [-> | ->]]]; cbn [Z.eqb Pos.eqb].
  - transitivity (nuxi_put (inuxi1 cfg) (cast cfg 4 (int32 (uint64 v))) off 0 1 p).
    { cbn [nuxi_put]. rewrite Z.add_0_r.
      destruct (inuxi1 cfg !! 0%nat); [|reflexivity]. cbn [mbind option_bind].
      destruct (cast cfg 4 (int32 (uint64 v)) !! n); [|reflexivity].
      cbn [mbind option_bind]. destruct (poke p off z); reflexivity. }
    pose proof (table_ok_length _ _ _ _ T1) as L.
    rewrite (nuxi_put_spec cfg 4) by (try apply T1; simpl; lia).
    rewrite Nat.add_0_r, drop_0, take_ge by (unfold nuxi_image; rewrite length_fmap; lia).
    rewrite (nuxi_image_mod cfg 4 1 _ _ v T1); [reflexivity|].
    apply (mod_pow2_le _ _ 1 4); [lia|exact E32].
  - pose proof (table_ok_length _ _ _ _ T2) as L.
    rewrite (nuxi_put_spec cfg 4) by (try apply T2; simpl; lia).
    rewrite Nat.add_0_r, drop_0, take_ge by (unfold nuxi_image; rewrite length_fmap; lia).
    rewrite (nuxi_image_mod cfg 4 2 _ _ v T2); [reflexivity|].
    apply (mod_pow2_le _ _ 2 4); [lia|exact E32].
  - pose proof (table_ok_length _ _ _ _ T4) as L.
    rewrite (nuxi_put_spec cfg 4) by (try apply T4; simpl; lia).
    rewrite Nat.add_0_r, drop_0, take_ge by (unfold nuxi_image; rewrite length_fmap; lia).
    rewrite (nuxi_image_mod cfg 4 4 _ _ v T4); [reflexivity|exact E32].
  - pose proof (table_ok_length _ _ _ _ T8) as L.
    rewrite (nuxi_put_spec cfg 8) by (try apply T8; simpl; lia).
    rewrite Nat.add_0_r, drop_0, take_ge by (unfold nuxi_image; rewrite length_fmap; lia).
    rewrite (nuxi_image_mod cfg 8 8 _ _ v T8); [reflexivity|exact E64].
Qed.

Lemma buf_ok_touch cfg s : buf_ok s -> buf_ok (touch cfg s).
Proof. unfold touch, buf_ok. destruct (s_type s =? 0); simpl; auto. Qed.

Lemma setuintxx_spec cfg s off v wid :
  tables_ok cfg -> buf_ok s -> s_size s <= s_np s ->
  0 <= off -> off + wid <= 2 ^ 30 ->
  wid = 1 \/ wid = 2 \/ wid = 4 \/ wid = 8 ->
  exists m p,
    let s' := rebuf (set_size (touch cfg s) (Z.max (s_size s) (off + wid)))
                (Z.max (s_np s) (off + wid)) m p in
    setuintxx cfg s off v wid = Some (off, s')
    /\ buf_ok s'
    /\ payload s' = splice (payload s ++ replicate (Z.to_nat (off + wid - s_np s)) 0)
                      (Z.to_nat off) (uint_image cfg wid v).
Proof.
  intros HT Hb Hsz Hoff Hlt Hw.
  pose proof (uint_image_length cfg wid v HT Hw) as Hlen.
  unfold setuintxx. fold (touch cfg s).
  assert (Ht : s_size (touch cfg s) = s_size s /\ s_np (touch cfg s) = s_np s
               /\ payload (touch cfg s) = payload s).
  { unfold touch, payload. destruct (s_type s =? 0); simpl; auto. }
  destruct Ht as (Ht1 & Ht2 & Ht3).
  pose proof (buf_ok_touch cfg s Hb) as Hb0.
  set (s0 := touch cfg s) in *.
  assert (G : exists m p0,
    (if s_size s0 <? off + wid
     then symgrow (set_size s0 (off + wid)) (int32 (off + wid)) else Some s0)
    = Some (rebuf (set_size s0 (Z.max (s_size s) (off + wid)))
              (Z.max (s_np s) (off + wid)) m p0)
    /\ buf_ok (rebuf (set_size s0 (Z.max (s_size s) (off + wid)))
                 (Z.max (s_np s) (off + wid)) m p0)
    /\ payload (rebuf (set_size s0 (Z.max (s_size s) (off + wid)))
                 (Z.max (s_np s) (off + wid)) m p0)
       = payload s ++ replicate (Z.to_nat (off + wid - s_np s)) 0).
  { destruct (s_size s0 <? off + wid) eqn:E.
    - rewrite int32_id by lia.
      assert (Hb1 : buf_ok (set_size s0 (off + wid))) by exact Hb0.
      destruct (symgrow_spec (set_size s0 (off + wid)) (off + wid) Hb1 Hlt)
        as (m & p0 & H1 & H2 & H3).
      exists m, p0. rewrite (Z.max_r (s_size s)) by lia.
      change (s_np (set_size s0 (off + wid))) with (s_np s0) in *.
      rewrite Ht2 in *. change (payload (set_size s0 (off + wid))) with (payload s0) in H3.
      rewrite Ht3 in H3. auto.
    - exists (s_maxp s0), (s_p s0).
      rewrite (Z.max_l (s_size s)), (Z.max_l (s_np s)) by lia.
      assert (Hs : rebuf (set_size s0 (s_size s)) (s_np s) (s_maxp s0) (s_p s0) = s0).
      { rewrite <- Ht1, <- Ht2. destruct s0; reflexivity. }
      rewrite Hs. split; [reflexivity|]. split; [exact Hb0|].
      rewrite Ht3. replace (Z.to_nat (off + wid - s_np s)) with 0%nat by lia.
      simpl. rewrite app_nil_r. reflexivity. }
  destruct G as (m & p0 & G1 & G2 & G3). rewrite G1. cbn [mbind option_bind].
  set (s1 := rebuf _ _ m p0) in *.
  assert (Hnp : s_np s1 = Z.max (s_np s) (off + wid)) by reflexivity.
  destruct G2 as (B1 & B2 & B3 & B4).
  rewrite setuintxx_put; [|assumption|assumption|assumption|].
  2:{ change (s_p s1) with p0 in *. change (s_maxp s1) with m in *. lia. }
  cbn [mbind option_bind].
  exists m, (splice (s_p s1) (Z.to_nat off) (uint_image cfg wid v)).
  cbv zeta. split; [reflexivity|].
  destruct (buf_ok_splice s1 (Z.to_nat off) (uint_image cfg wid v)) as [K1 K2].
  { repeat split; assumption. }
  { lia. }
  split; [exact K1|]. rewrite <- G3. exact K2.
Qed.

Lemma amd64_tables_ok : tables_ok amd64.
Proof.
  unfold tables_ok, table_ok. simpl.
  repeat split; try (repeat constructor; lia); reflexivity.
Qed.

Lemma newsym_buf_ok name : buf_ok (newsym name).
Proof. unfold buf_ok. simpl. repeat split; lia || reflexivity. Qed.

Lemma sumZ_perm l l' : l ≡ₚ l' -> sumZ l = sumZ l'.
Proof. induction 1; simpl in *; lia. Qed.

Lemma sumZ_app l l' : sumZ (l ++ l') = sumZ l + sumZ l'.
Proof. induction l; simpl in *; lia. Qed.

Lemma sumZ_bytes x n :
  sumZ ((fun k => byte_of x k * 2 ^ (8 * Z.of_nat k)) <$> seq 0 n)
  = x mod 2 ^ (8 * Z.of_nat n).
Proof.
  induction n as [|n IH].
  - simpl. rewrite Z.mod_1_r. reflexivity.
  - rewrite seq_S, fmap_app, sumZ_app, IH. simpl.
    replace (8 * Z.of_nat (S n)) with (8 * Z.of_nat n + 8) by lia.
    rewrite Z.pow_add_r by lia. rewrite Z.rem_mul_r by lia.
    rewrite byte_of_div. change (2 ^ 8) with 256. lia.
Qed.

Lemma nuxi_value_image cfg W tab x :
  nuxi_value cfg W tab (nuxi_image cfg W tab x)
  = sumZ ((fun k => byte_of x k * 2 ^ (8 * Z.of_nat k)) <$> (host_sig cfg W <$> tab)).
Proof.
  unfold nuxi_image, sumZ. induction tab as [|j tab IH]; [reflexivity|].
  simpl. f_equal. exact IH.
Qed.

(** Decoding the image of [x] through a table that reaches the [n] low bytes
    gives back those bytes. *)
Lemma nuxi_roundtrip cfg W n tab x :
  table_ok cfg W n tab ->
  nuxi_value cfg W tab (nuxi_image cfg W tab x) = x mod 2 ^ (8 * Z.of_nat n).
Proof.
  intros [_ H]. rewrite nuxi_value_image.
  rewrite (sumZ_perm _ _ (fmap_Permutation _ _ _ H)). apply sumZ_bytes.
Qed.

Lemma nuxi_put_bounds tab img off : forall n i p p',
  nuxi_put tab img off i n p = Some p' ->
  length p' = length p
  /\ ((0 < n)%nat -> 0 <= off + Z.of_nat i
                    /\ off + Z.of_nat i + Z.of_nat n <= Z.of_nat (length p)).
Proof.
  induction n as [|n IH]; intros i p p' H.
  - simpl in H. injection H as <-. split; [reflexivity|lia].
  - cbn [nuxi_put] in H.
    destruct (tab !! i) as [j|]; [|discriminate]. cbn [mbind option_bind] in H.
    destruct (img !! j) as [b|]; [|discriminate]. cbn [mbind option_bind] in H.
    destruct (poke p (off + Z.of_nat i) b) as [p1|] eqn:Ep; [|discriminate].
    cbn [mbind option_bind] in H.
    apply poke_inv in Ep. destruct Ep as [Hi ->].
    destruct (IH _ _ _ H) as [L B]. rewrite length_insert in L, B.
    split; [exact L|]. intros _. destruct n; [lia|].
    destruct B as [B1 B2]; lia.
Qed.

Lemma splice_read p a bs :
  (a <= length p)%nat -> take (length bs) (drop a (splice p a bs)) = bs.
Proof.
  intros H. unfold splice.
  rewrite drop_app_length' by (rewrite length_take; lia).
  apply take_app_length.
Qed.

Lemma uint_table_ok cfg wid :
  tables_ok cfg -> wid = 1 \/ wid = 2 \/ wid = 4 \/ wid = 8 ->
  table_ok cfg (uint_host wid) (Z.to_nat wid) (uint_table cfg wid).
Proof.
  intros (T1 & T2 & T4 & T8) [-> | [-> | [-> | ->]]]; assumption.
Qed.

(** Whenever [setuintxx] returns, the bytes at [off] are the image of [v]. *)
Lemma setuintxx_inv cfg s off v wid o s' :
  tables_ok cfg -> 0 <= off -> wid = 1 \/ wid = 2 \/ wid = 4 \/ wid = 8 ->
  setuintxx cfg s off v wid = Some (o, s') ->
  exists p, o = off /\ off + wid <= Z.of_nat (length p)
            /\ s_p s' = splice p (Z.to_nat off) (uint_image cfg wid v).
Proof.
  intros HT Hoff Hw H. unfold setuintxx in H.
  match type of H with (?g ≫= _) = _ => destruct g as [s1|] eqn:G end;
    [|discriminate].
  cbn [mbind option_bind] in H.
  match type of H with (?g ≫= _) = _ => destruct g as [p'|] eqn:Hp end;
    [|discriminate].
  cbn [mbind option_bind] in H. injection H as <- <-.
  exists (s_p s1). split; [reflexivity|].
  assert (B : off + wid <= Z.of_nat (length (s_p s1))).
  { destruct Hw as [-> | [-> | [-> | ->]]]; cbn [Z.eqb Pos.eqb] in Hp.
    - destruct (inuxi1 cfg !! 0%nat); [|discriminate]. cbn [mbind option_bind] in Hp.
      destruct (cast cfg 4 _ !! n); [|discriminate]. cbn [mbind option_bind] in Hp.
      apply poke_inv in Hp. lia.
    - apply nuxi_put_bounds in Hp. destruct Hp as [_ B]. specialize (B ltac:(lia)). lia.
    - apply nuxi_put_bounds in Hp. destruct Hp as [_ B]. specialize (B ltac:(lia)). lia.
    - apply nuxi_put_bounds in Hp. destruct Hp as [_ B]. specialize (B ltac:(lia)). lia. }
  split; [exact B|].
  rewrite setuintxx_put in Hp by assumption. injection Hp as <-. reflexivity.
Qed.

Lemma setuintxx_read cfg s off v wid o s' :
  tables_ok cfg -> 0 <= off -> wid = 1 \/ wid = 2 \/ wid = 4 \/ wid = 8 ->
  0 <= v < 2 ^ (8 * wid) ->
  setuintxx cfg s off v wid = Some (o, s') ->
  getuintxx cfg s' off wid = v.
Proof.
  intros HT Hoff Hw Hv H.
  destruct (setuintxx_inv _ _ _ _ _ _ _ HT Hoff Hw H) as (p & -> & B & Hp).
  unfold getuintxx. rewrite Hp.
  pose proof (uint_image_length cfg wid v HT Hw) as L.
  replace (Z.to_nat wid) with (length (uint_image cfg wid v)) by lia.
  rewrite splice_read by lia.
  unfold uint_image. rewrite (nuxi_roundtrip cfg _ (Z.to_nat wid)).
  - rewrite Z2Nat.id by lia. apply Z.mod_small. exact Hv.
  - apply uint_table_ok; assumption.
Qed.

(** C3, amended: on a symbol whose buffer is consistent and whose payload
    covers its declared size, [setuintxx] at an offset [off >= 0] with
    [off + wid <= 2^30] returns, the payload length becomes the larger of
    the old length and [off + wid], and it stays within the allocated
    buffer: every byte written lies inside the payload. *)
Theorem setuintxx_in_payload cfg s off v wid :
  tables_ok cfg -> buf_ok s -> s_size s <= s_np s ->
  0 <= off -> off + wid <= 2 ^ 30 ->
  wid = 1 \/ wid = 2 \/ wid = 4 \/ wid = 8 ->
  exists s',
    setuintxx cfg s off v wid = Some (off, s')
    /\ s_np s' = Z.max (s_np s) (off + wid)
    /\ off + wid <= s_np s'
    /\ s_np s' <= Z.of_nat (length (s_p s')).
Proof.
  intros HT Hb Hsz Hoff Hlt Hw.
  destruct (setuintxx_spec cfg s off v wid HT Hb Hsz Hoff Hlt Hw)
    as (m & p & H1 & H2 & H3).
  cbv zeta in *. eexists. split; [exact H1|].
  destruct H2 as (B1 & B2 & B3 & B4). simpl in *. lia.
Qed.

Lemma setuintxx_in_payload_witness :
  exists s', setuintxx amd64 (newsym "x") 4 258 2 = Some (4, s')
    /\ s_np s' = Z.max 0 6 /\ 4 + 2 <= s_np s'
    /\ s_np s' <= Z.of_nat (length (s_p s')).
Proof.
  apply (setuintxx_in_payload amd64 (newsym "x") 4 258 2).
  - exact amd64_tables_ok.
  - apply newsym_buf_ok.
  - simpl. lia.
  - lia.
  - lia.
  - auto.
Defined.

(** C3 as stated fails: on a 16-byte symbol without payload the declared
    size already covers [off + wid], nothing is grown and the first store is
    outside the buffer; and past [2^30] the doubling of [symgrow] wraps and
    never ends, so the call does not return. *)
Lemma setuintxx_presized_counterexample :
  ~ (exists s', setuintxx amd64 bss16 0 1 4 = Some (0, s') /\ 0 + 4 <= s_np s')
  /\ ~ (exists s', setuintxx amd64 (newsym "x") (2 ^ 30) 1 4
                   = Some (2 ^ 30, s')
                   /\ 2 ^ 30 + 4 <= s_np s').
Proof.
  split; intros (s' & H & _); vm_compute in H; discriminate.
Qed.

(** C8: for tables that are byte permutations, a width of 1, 2, 4 or 8 and
    a value [v] that fits it, the bytes [setuintxx] wrote decode to [v]
    through the same table, whenever it returns; and it returns on a
    consistent buffer when [off + wid] is within [2^30], up to where
    [symgrow] returns. *)
Theorem setuintxx_roundtrip cfg s off v wid :
  tables_ok cfg -> 0 <= off -> wid = 1 \/ wid = 2 \/ wid = 4 \/ wid = 8 ->
  0 <= v < 2 ^ (8 * wid) ->
  (forall o s', setuintxx cfg s off v wid = Some (o, s') ->
                getuintxx cfg s' off wid = v)
  /\ (buf_ok s -> s_size s <= s_np s -> off + wid <= 2 ^ 30 ->
      exists s', setuintxx cfg s off v wid = Some (off, s')
                 /\ getuintxx cfg s' off wid = v).
Proof.
  intros HT Hoff Hw Hv. split.
  - intros o s' H. eapply setuintxx_read; eassumption.
  - intros Hb Hsz Hlt.
    destruct (setuintxx_spec cfg s off v wid HT Hb Hsz Hoff Hlt Hw)
      as (m & p & H1 & _).
    cbv zeta in H1. eexists. split; [exact H1|].
    eapply setuintxx_read; eassumption.
Qed.

(** ** Relocation resolution *)

(** The test for an undefined target never succeeds: each of its two masks
    is the result of comparing two different constants. *)
Lemma reloc_undefined_false cfg t :
  SMASK cfg <> 0 -> SMASK cfg <> SXREF cfg -> reloc_undefined cfg t = false.
Proof.
  intros H1 H2. unfold reloc_undefined.
  destruct (SMASK cfg =? 0) eqn:E1; [lia|].
  destruct (SMASK cfg =? SXREF cfg) eqn:E2; [lia|].
  simpl. rewrite Z.land_0_r. reflexivity.
Qed.

Lemma relocsym_store_spec cfg off siz o p :
  tables_ok cfg -> siz = 4 \/ siz = 8 -> 0 <= off ->
  off + siz <= Z.of_nat (length p) ->
  relocsym_store cfg off siz o p
  = Some (splice p (Z.to_nat off) (uint_image cfg siz o)).
Proof.
  intros (T1 & T2 & T4 & T8) Hs Hoff Hp. unfold relocsym_store, uint_image, uint_table, uint_host.
  destruct Hs as [-> | ->]; cbn [Z.eqb Pos.eqb].
  - pose proof (table_ok_length _ _ _ _ T4) as L.
    rewrite (nuxi_put_spec cfg 4) by (try apply T4; simpl; lia).
    rewrite Nat.add_0_r, drop_0, take_ge by (unfold nuxi_image; rewrite length_fmap; lia).
    rewrite (nuxi_image_mod cfg 4 4 _ _ o T4); [reflexivity|].
    change (8 * Z.of_nat 4) with 32. apply int32_mod.
  - pose proof (table_ok_length _ _ _ _ T8) as L.
    rewrite (nuxi_put_spec cfg 8) by (try apply T8; simpl; lia).
    rewrite Nat.add_0_r, drop_0, take_ge by (unfold nuxi_image; rewrite length_fmap; lia).
    rewrite (nuxi_image_mod cfg 8 8 _ _ o T8); [reflexivity|].
    change (8 * Z.of_nat 8) with 64. apply int64_mod.
Qed.

Lemma splice_getuintxx cfg s p off wid o :
  tables_ok cfg -> wid = 1 \/ wid = 2 \/ wid = 4 \/ wid = 8 -> 0 <= off ->
  off <= Z.of_nat (length p) ->
  getuintxx cfg (set_p s (splice p (Z.to_nat off) (uint_image cfg wid o))) off wid
  = o mod 2 ^ (8 * wid).
Proof.
  intros HT Hw Hoff Hp. unfold getuintxx. simpl.
  pose proof (uint_image_length cfg wid o HT Hw) as L.
  replace (Z.to_nat wid) with (length (uint_image cfg wid o)) by lia.
  rewrite splice_read by lia.
  unfold uint_image. rewrite (nuxi_roundtrip cfg _ (Z.to_nat wid)).
  - rewrite Z2Nat.id by lia. reflexivity.
  - apply uint_table_ok; assumption.
Qed.

(** One turn of [relocsym] whose record passes the checks and whose value
    is [o]. *)
Lemma relocsym_step_value cfg ext L sid s r tg o d3 :
  tables_ok cfg -> SMASK cfg <> 0 -> SMASK cfg <> SXREF cfg ->
  syms L !! sid = Some s ->
  s_np s <= Z.of_nat (length (s_p s)) -> s_np s < 2 ^ 31 ->
  r_type r < 256 -> r_siz r = 4 \/ r_siz r = 8 ->
  0 <= r_off r -> r_off r + r_siz r <= s_np s ->
  match r_sym r with
  | None => Some None
  | Some t => ts ← syms L !! t; Some (Some ts)
  end = Some tg ->
  reloc_value cfg ext (syms L) s r tg = Some (o, d3) ->
  exists L' p',
    relocsym_step cfg ext sid r L = Some L'
    /\ syms L' = <[sid := set_p s p']> (syms L)
    /\ p' = splice (s_p s) (Z.to_nat (r_off r)) (uint_image cfg (r_siz r) o)
    /\ getuintxx cfg (set_p s p') (r_off r) (r_siz r) = o mod 2 ^ (8 * r_siz r).
Proof.
  intros HT Hm0 Hmx Hs Hbuf Hnp Hty Hsiz Hoff Hin Htg Hval.
  assert (Eoff : int32 (r_off r) = r_off r) by (apply int32_id; lia).
  assert (Esiz : int32 (r_siz r) = r_siz r) by (apply int32_id; lia).
  assert (Hd4 : (r_siz r =? 4) || (r_siz r =? 8) = true).
  { destruct Hsiz as [-> | ->]; reflexivity. }
  assert (Hev : exists ds, relocsym_eval cfg ext (syms L) sid r
                           = Some (ds, Some (r_off r, r_siz r, o))).
  { unfold relocsym_eval. rewrite Hs. cbn [mbind option_bind].
    rewrite Eoff, Esiz. rewrite (int32_id (r_off r + r_siz r)) by lia.
    destruct (r_off r <? 0) eqn:E1; [lia|].
    destruct (r_off r + r_siz r >? s_np s) eqn:E2; [lia|]. cbn [orb].
    rewrite Htg. cbn [mbind option_bind].
    replace (match tg with Some ts => reloc_undefined cfg ts | None => false end)
      with false by (destruct tg; [rewrite reloc_undefined_false by assumption|];
                     reflexivity).
    destruct (r_type r >=? 256) eqn:E4; [lia|].
    rewrite Hval. cbn [mbind option_bind]. rewrite Hd4. cbn [mbind option_bind].
    eexists. reflexivity. }
  destruct Hev as [ds Hev].
  unfold relocsym_step. rewrite Hev. cbn [mbind option_bind]. cbn [syms diags_add].
  rewrite Hs. cbn [mbind option_bind].
  rewrite relocsym_store_spec by (try assumption; lia). cbn [mbind option_bind].
  eexists _, _. split; [reflexivity|]. split; [reflexivity|]. split; [reflexivity|].
  apply splice_getuintxx; try assumption; [|lia].
  destruct Hsiz; auto.
Qed.

(** One turn of the loop of [relocsym] on a PC-relative record. *)
Lemma relocsym_step_pcrel cfg ext L sid s r :
  tables_ok cfg ->
  D_PCREL cfg <> D_ADDR cfg -> D_PCREL cfg < 256 ->
  SMASK cfg <> 0 -> SMASK cfg <> SXREF cfg ->
  isobj cfg = false ->
  syms L !! sid = Some s ->
  s_np s <= Z.of_nat (length (s_p s)) -> s_np s < 2 ^ 31 ->
  r_type r = D_PCREL cfg ->
  r_siz r = 4 \/ r_siz r = 8 ->
  0 <= r_off r -> r_off r + r_siz r <= s_np s ->
  (forall t, r_sym r = Some t -> is_Some (syms L !! t)) ->
  let o := target_addr (syms L) r + r_add r - (s_value s + r_off r + r_siz r) in
  exists L' p',
    relocsym_step cfg ext sid r L = Some L'
    /\ syms L' = <[sid := set_p s p']> (syms L)
    /\ p' = splice (s_p s) (Z.to_nat (r_off r)) (uint_image cfg (r_siz r) o)
    /\ getuintxx cfg (set_p s p') (r_off r) (r_siz r) = o mod 2 ^ (8 * r_siz r).
Proof.
  intros HT Hne Hlt Hm0 Hmx Hobj Hs Hbuf Hnp Hty Hsiz Hoff Hin Htg o.
  assert (Eoff : int32 (r_off r) = r_off r) by (apply int32_id; lia).
  assert (Esiz : int32 (r_siz r) = r_siz r) by (apply int32_id; lia).
  assert (Hev : relocsym_eval cfg ext (syms L) sid r
                = Some (match r_sym r with
                        | Some t =>
                            match syms L !! t with
                            | Some ts =>
                                (if s_type ts =? SDYNIMPORT cfg
                                 then [UnhandledRelocation (s_name ts) (s_type ts) (r_type r)]
                                 else [])
                                ++ (if negb (s_reachable ts)
                                    then [UnreachableSym (s_name s) (s_name ts)]
                                    else []) ++ [] ++ []
                            | None => []
                            end
                        | None => [] ++ [] ++ [] ++ []
                        end, Some (r_off r, r_siz r, o))).
  { unfold relocsym_eval. rewrite Hs. cbn [mbind option_bind].
    rewrite Eoff, Esiz. rewrite (int32_id (r_off r + r_siz r)) by lia.
    destruct (r_off r <? 0) eqn:E1; [lia|].
    destruct (r_off r + r_siz r >? s_np s) eqn:E2; [lia|]. cbn [orb].
    assert (Hval : forall tg, reloc_value cfg ext (syms L) s r tg
              = Some ((match tg with Some ts => 0 + symaddr ts | None => 0 end)
                      + (r_add r - (s_value s + r_off r + r_siz r)), [])).
    { intros tg. unfold reloc_value. rewrite Hty.
      destruct (D_PCREL cfg =? D_ADDR cfg) eqn:E3; [lia|].
      rewrite Z.eqb_refl, Hobj. reflexivity. }
    assert (Hd4 : (r_siz r =? 4) || (r_siz r =? 8) = true).
    { destruct Hsiz as [-> | ->]; reflexivity. }
    subst o. unfold target_addr.
    destruct (r_sym r) as [t|] eqn:Et.
    - destruct (Htg t eq_refl) as [ts Hts]. rewrite Hts. cbn [mbind option_bind].
      rewrite reloc_undefined_false by assumption.
      rewrite Hty. destruct (D_PCREL cfg >=? 256) eqn:E4; [lia|].
      rewrite Hval. cbn [mbind option_bind]. rewrite Hd4. cbn [mbind option_bind].
      replace (0 + symaddr ts + (r_add r - (s_value s + r_off r + r_siz r)))
        with (symaddr ts + r_add r - (s_value s + r_off r + r_siz r)) by lia.
      reflexivity.
    - cbn [mbind option_bind].
      rewrite Hty. destruct (D_PCREL cfg >=? 256) eqn:E4; [lia|].
      rewrite Hval. cbn [mbind option_bind]. rewrite Hd4. cbn [mbind option_bind].
      replace (0 + (r_add r - (s_value s + r_off r + r_siz r)))
        with (0 + r_add r - (s_value s + r_off r + r_siz r)) by lia.
      reflexivity. }
  unfold relocsym_step. rewrite Hev. cbn [mbind option_bind]. cbn [syms diags_add].
  rewrite Hs. cbn [mbind option_bind].
  rewrite relocsym_store_spec by (try assumption; lia). cbn [mbind option_bind].
  eexists _, _. split; [reflexivity|]. split; [reflexivity|]. split; [reflexivity|].
  apply splice_getuintxx; try assumption; [|lia].
  destruct Hsiz; auto.
Qed.

(** ** The whole loop on records that pass the checks *)










(** Scenario S2 for all addresses: after [relocsym(f)] the four bytes at
    [f.payload[16..20]], read as a little-endian integer, are
    [g.value - (f.value + 16 + 4)] on 32 bits. *)
Example relocsym_S2 fv gv :
  exists L' f',
    relocsym amd64 ext0 0 (S2_link (STEXT amd64) fv gv) = Some L'
    /\ syms L' !! 0%nat = Some f'
    /\ le_value (take 4 (drop 16 (s_p f'))) = (gv - (fv + 16 + 4)) mod 2 ^ 32.
Proof.
  set (f := mkSym "f" (STEXT amd64) 32 fv (replicate 32 0) [S2_reloc]).
  set (g := mkSym "g" (STEXT amd64) 16 gv (replicate 16 0) []).
  set (L := S2_link (STEXT amd64) fv gv).
  assert (Hf : syms L !! 0%nat = Some f) by apply lookup_insert_eq.
  assert (Hg : syms L !! 1%nat = Some g).
  { unfold L, S2_link, mkLink. cbn [syms].
    rewrite lookup_insert_ne by discriminate. apply lookup_insert_eq. }
  destruct (relocsym_step_pcrel amd64 ext0 L 0 f S2_reloc) as (L' & p' & E & Eh & Ep & _).
  - exact amd64_tables_ok.
  - vm_compute. discriminate.
  - reflexivity.
  - vm_compute. discriminate.
  - vm_compute. discriminate.
  - reflexivity.
  - exact Hf.
  - vm_compute. discriminate.
  - reflexivity.
  - reflexivity.
  - left. reflexivity.
  - vm_compute. discriminate.
  - vm_compute. discriminate.
  - intros t Ht. injection Ht as <-. exists g. exact Hg.
  - exists L', (set_p f p'). unfold relocsym. rewrite Hf. cbn [mbind option_bind].
    cbn [s_r f mkSym relocsym_loop]. rewrite E. cbn [mbind option_bind].
    split; [reflexivity|]. split; [rewrite Eh; apply lookup_insert_eq|].
    cbn [s_p set_p]. subst p'.
    change (Z.to_nat (r_off S2_reloc)) with 16%nat.
    change (r_siz S2_reloc) with 4.
    change 4%nat with (length (uint_image amd64 4
      (target_addr (syms L) S2_reloc + r_add S2_reloc
       - (s_value f + r_off S2_reloc + 4)))) at 1.
    rewrite splice_read by (simpl; lia).
    unfold target_addr. change (r_sym S2_reloc) with (Some 1%nat). cbv iota beta.
    rewrite Hg.
    change (symaddr g) with gv. change (r_add S2_reloc) with 0.
    change (s_value f) with fv. change (r_off S2_reloc) with 16.
    replace (gv + 0 - (fv + 16 + 4)) with (gv - (fv + 16 + 4)) by lia.
    exact (le_value_bytes (gv - (fv + 16 + 4)) 4).
Qed.

(** C4, at the input of scenario S2 with [g] left undefined (kind [SXREF],
    then kind 0): [relocsym(f)] reports nothing and stores the four bytes
    of the call. *)
Theorem relocsym_undefined_unreported :
  S2_run amd64 ext0 (S2_link (SXREF amd64) 4198400 4202496)
    = Some ([], [236; 15; 0; 0])
  /\ S2_run amd64 ext0 (S2_link 0 4198400 4202496) = Some ([], [236; 15; 0; 0])
  /\ S2_run amd64 ext0 S2_text = Some ([], [236; 15; 0; 0]).
Proof. vm_compute. repeat split. Qed.

(** ** Running the resolver twice *)

Lemma same_frame_refl s : same_frame s s.
Proof. destruct s; split; reflexivity. Qed.

Lemma same_frame_inv s t :
  same_frame s t -> exists q, t = set_p s q /\ length q = length (s_p s).
Proof. intros [H1 H2]. exists (s_p t). auto. Qed.

Lemma same_frame_set_p s q : length q = length (s_p s) -> same_frame s (set_p s q).
Proof. intros H. split; [reflexivity|exact H]. Qed.

Lemma same_frame_sym s t : same_frame s t -> same_frame t s.
Proof.
  intros H. destruct (same_frame_inv _ _ H) as (q & -> & Hq).
  split; [destruct s; reflexivity|]. simpl. lia.
Qed.

Lemma same_frame_trans s t u : same_frame s t -> same_frame t u -> same_frame s u.
Proof.
  intros H1 H2. destruct (same_frame_inv _ _ H1) as (q & -> & Hq).
  destruct (same_frame_inv _ _ H2) as (q' & -> & Hq').
  split; [reflexivity|]. simpl in *. lia.
Qed.

Lemma heap_frame_refl h : heap_frame h h.
Proof.
  intros id. destruct (h !! id); constructor. apply same_frame_refl.
Qed.

Lemma heap_frame_size h g : heap_frame h g -> size h = size g.
Proof.
  intros H. rewrite <- !size_dom. f_equal. apply set_eq. intros id.
  rewrite !elem_of_dom. specialize (H id).
  destruct H; split; intros [? ?]; eauto; discriminate.
Qed.

Lemma outermost_frame h g n : forall rs rs',
  heap_frame h g -> same_frame rs rs' ->
  option_Forall2 same_frame (outermost n h rs) (outermost n g rs').
Proof.
  induction n as [|n IH]; intros rs rs' Hf Hs;
    destruct (same_frame_inv _ _ Hs) as (q & -> & Hq); cbn [outermost set_p s_outer].
  - destruct (s_outer rs); constructor. exact Hs.
  - destruct (s_outer rs) as [o|]; [|constructor; exact Hs].
    destruct (Hf o) as [x y Hxy|]; cbn [mbind option_bind]; [|constructor].
    apply IH; assumption.
Qed.

Ltac proj_set_p :=
  cbn [set_p s_name s_type s_size s_value s_align s_reachable s_special s_plt
       s_got s_gotype s_outer s_sect s_rel_ro s_dynimpname s_dynexport s_np
       s_maxp s_r s_p] in *.

Lemma reloc_value_frame cfg ext h g s q r tg tg' :
  archreloc_frame ext -> heap_frame h g ->
  option_Forall2 same_frame tg tg' ->
  reloc_value cfg ext g (set_p s q) r tg' = reloc_value cfg ext h s r tg.
Proof.
  intros Ha Hf Htg. unfold reloc_value. rewrite Ha. proj_set_p.
  rewrite <- (heap_frame_size _ _ Hf).
  destruct Htg as [ts ts' Hts|]; [|reflexivity].
  destruct (same_frame_inv _ _ Hts) as (q' & -> & Hq').
  cbn [mbind option_bind]. unfold symaddr. proj_set_p.
  destruct (r_type r =? D_ADDR cfg); [|reflexivity].
  destruct (isobj cfg && negb (s_type ts =? SCONST cfg)); [|reflexivity].
  destruct (Ascii.eqb (thechar cfg) "6"); [reflexivity|].
  destruct (outermost_frame h g (S (size h)) ts (set_p ts q') Hf Hts) as [x y Hxy|];
    [|reflexivity].
  destruct (same_frame_inv _ _ Hxy) as (q2 & -> & _). reflexivity.
Qed.

Lemma relocsym_eval_frame cfg ext h g sid r :
  archreloc_frame ext -> heap_frame h g ->
  relocsym_eval cfg ext g sid r = relocsym_eval cfg ext h sid r.
Proof.
  intros Ha Hf. unfold relocsym_eval.
  destruct (Hf sid) as [s t Hst|]; [|reflexivity].
  destruct (same_frame_inv _ _ Hst) as (q & -> & Hq).
  cbn [mbind option_bind]. proj_set_p.
  destruct ((int32 (r_off r) <? 0)
            || (int32 (int32 (r_off r) + int32 (r_siz r)) >? s_np s));
    [reflexivity|].
  destruct (r_sym r) as [t|].
  - destruct (Hf t) as [ts ts' Hts|]; [|reflexivity].
    cbn [mbind option_bind].
    rewrite (reloc_value_frame cfg ext h g s q r (Some ts) (Some ts') Ha Hf)
      by (constructor; exact Hts).
    destruct (same_frame_inv _ _ Hts) as (q' & -> & Hq').
    unfold reloc_undefined. proj_set_p. reflexivity.
  - cbn [mbind option_bind].
    rewrite (reloc_value_frame cfg ext h g s q r None None Ha Hf) by constructor.
    reflexivity.
Qed.

Lemma bytes_rel_refl p q : bytes_rel p p q q.
Proof. repeat split. intros i. right. auto. Qed.

Lemma bytes_rel_trans p p1 p2 q q1 q2 :
  bytes_rel p p1 q q1 -> bytes_rel p1 p2 q1 q2 -> bytes_rel p p2 q q2.
Proof.
  intros (A1 & A2 & A3) (B1 & B2 & B3). split; [lia|]. split; [lia|].
  intros i. destruct (B3 i) as [H|[H1 H2]]; [left; exact H|].
  destruct (A3 i) as [H|[H3 H4]].
  - left. congruence.
  - right. split; congruence.
Qed.

Lemma bytes_rel_poke p p1 q i b :
  length q = length p -> poke p i b = Some p1 ->
  exists q2, poke q i b = Some q2 /\ bytes_rel p p1 q q2.
Proof.
  intros Hl H. apply poke_inv in H. destruct H as [Hi ->].
  exists (<[Z.to_nat i := b]> q). split; [apply poke_Some; lia|].
  split; [apply length_insert|]. split; [apply length_insert|].
  intros k. destruct (decide (k = Z.to_nat i)) as [->|Hk].
  - left. rewrite !list_lookup_insert_eq by lia. reflexivity.
  - right. rewrite !list_lookup_insert_ne by congruence. auto.
Qed.

Lemma nuxi_put_parallel tab img off : forall n i p p1 q,
  length q = length p -> nuxi_put tab img off i n p = Some p1 ->
  exists q2, nuxi_put tab img off i n q = Some q2 /\ bytes_rel p p1 q q2.
Proof.
  induction n as [|n IH]; intros i p p1 q Hl H.
  - simpl in *. injection H as <-. exists q. split; [reflexivity|apply bytes_rel_refl].
  - cbn [nuxi_put] in *.
    destruct (tab !! i) as [j|]; [|discriminate]. cbn [mbind option_bind] in *.
    destruct (img !! j) as [b|]; [|discriminate]. cbn [mbind option_bind] in *.
    destruct (poke p (off + Z.of_nat i) b) as [p'|] eqn:Ep; [|discriminate].
    cbn [mbind option_bind] in H.
    destruct (bytes_rel_poke _ _ q _ _ Hl Ep) as (q' & Eq & R1).
    rewrite Eq. cbn [mbind option_bind].
    destruct (IH (S i) p' p1 q') as (q2 & E2 & R2); [|exact H|].
    { destruct R1 as (A1 & A2 & _). lia. }
    exists q2. split; [exact E2|]. eapply bytes_rel_trans; eassumption.
Qed.

Lemma relocsym_store_parallel cfg off siz o p p1 q :
  length q = length p -> relocsym_store cfg off siz o p = Some p1 ->
  exists q2, relocsym_store cfg off siz o q = Some q2 /\ bytes_rel p p1 q q2.
Proof.
  unfold relocsym_store. destruct (siz =? 8); apply nuxi_put_parallel.
Qed.

Lemma sym_rel_refl s t : same_frame s t -> sym_rel s s t t.
Proof.
  intros H. split; [apply same_frame_refl|]. split; [exact H|]. split; [exact H|].
  apply bytes_rel_refl.
Qed.

Lemma sym_rel_trans s s1 s2 t t1 t2 :
  sym_rel s s1 t t1 -> sym_rel s1 s2 t1 t2 -> sym_rel s s2 t t2.
Proof.
  intros (A1 & A2 & A3 & A4) (B1 & B2 & B3 & B4).
  split; [exact (same_frame_trans _ _ _ A1 B1)|]. split; [exact A2|].
  split; [exact (same_frame_trans _ _ _ A1 B3)|].
  exact (bytes_rel_trans _ _ _ _ _ _ A4 B4).
Qed.

Lemma heap_rel_refl h g : heap_frame h g -> heap_rel h h g g.
Proof.
  intros Hf id. destruct (Hf id) as [s t Hst|].
  - right. exists s, s, t, t. do 4 (split; [reflexivity|]).
    apply sym_rel_refl, Hst.
  - left. auto.
Qed.

Lemma heap_rel_trans h h1 h2 g g1 g2 :
  heap_rel h h1 g g1 -> heap_rel h1 h2 g1 g2 -> heap_rel h h2 g g2.
Proof.
  intros A B id.
  destruct (A id) as [(A1 & A2 & A3 & A4)|(s & s1 & t & t1 & A1 & A2 & A3 & A4 & A5)];
    destruct (B id) as [(B1 & B2 & B3 & B4)|(s' & s2 & t' & t2 & B1 & B2 & B3 & B4 & B5)];
    try congruence.
  - left. auto.
  - right. assert (s' = s1) by congruence. assert (t' = t1) by congruence. subst.
    exists s, s2, t, t2. do 4 (split; [assumption|]).
    eapply sym_rel_trans; eassumption.
Qed.

Lemma heap_rel_frame h h1 g g2 : heap_rel h h1 g g2 -> heap_frame h1 g2.
Proof.
  intros A id.
  destruct (A id) as [(A1 & A2 & A3 & A4)|(s & s1 & t & t2 & A1 & A2 & A3 & A4 & B1 & B2 & B3 & B4)].
  - rewrite A2, A4. constructor.
  - rewrite A2, A4. constructor.
    eapply same_frame_trans; [apply same_frame_sym; exact B1|exact B3].
Qed.

Lemma link_rel_refl L M : heap_frame (syms L) (syms M) -> link_rel L L M M.
Proof. intros H. do 4 (split; [reflexivity|]). apply heap_rel_refl, H. Qed.

Lemma link_rel_trans L L1 L2 M M1 M2 :
  link_rel L L1 M M1 -> link_rel L1 L2 M1 M2 -> link_rel L L2 M M2.
Proof.
  intros (A1 & A2 & A3 & A4 & A5) (B1 & B2 & B3 & B4 & B5).
  do 4 (split; [congruence|]). eapply heap_rel_trans; eassumption.
Qed.

Lemma link_rel_frame L L1 M M2 : link_rel L L1 M M2 -> heap_frame (syms L1) (syms M2).
Proof. intros (_ & _ & _ & _ & H). eapply heap_rel_frame, H. Qed.

Lemma heap_frame_lookup h g id s :
  heap_frame h g -> h !! id = Some s ->
  exists t, g !! id = Some t /\ same_frame s t.
Proof.
  intros Hf Hs. specialize (Hf id). rewrite Hs in Hf. inversion Hf; subst. eauto.
Qed.

Lemma relocsym_step_parallel cfg ext sid r L L1 M :
  archreloc_frame ext -> heap_frame (syms L) (syms M) ->
  relocsym_step cfg ext sid r L = Some L1 ->
  exists M2, relocsym_step cfg ext sid r M = Some M2 /\ link_rel L L1 M M2.
Proof.
  intros Ha Hf H. unfold relocsym_step in *.
  rewrite (relocsym_eval_frame cfg ext (syms L) (syms M) sid r Ha Hf).
  destruct (relocsym_eval cfg ext (syms L) sid r) as [[ds w]|]; [|discriminate].
  cbn [mbind option_bind] in *. destruct w as [[[off siz] o]|].
  - cbn [syms diags_add] in *.
    destruct (syms L !! sid) as [s|] eqn:Es; [|discriminate].
    destruct (heap_frame_lookup _ _ _ _ Hf Es) as (t & Et & Hst). rewrite Et.
    cbn [mbind option_bind] in *.
    destruct (relocsym_store cfg off siz o (s_p s)) as [p1|] eqn:Ep; [|discriminate].
    cbn [mbind option_bind] in H. injection H as <-.
    destruct (relocsym_store_parallel cfg off siz o _ p1 (s_p t) (proj2 Hst) Ep)
      as (q2 & Eq & R).
    rewrite Eq. cbn [mbind option_bind]. eexists. split; [reflexivity|].
    do 4 (split; [reflexivity|]). cbn [syms set_syms diags_add].
    destruct R as (R1 & R2 & R3).
    intros id. destruct (decide (id = sid)) as [->|Hne].
    + right. exists s, (set_p s p1), t, (set_p t q2).
      rewrite !lookup_insert_eq. do 4 (split; [congruence|]).
      destruct (same_frame_inv _ _ Hst) as (q & -> & Hq).
      split; [apply same_frame_set_p; exact R1|]. split; [exact Hst|].
      split; [change (set_p (set_p s q) q2) with (set_p s q2);
              apply same_frame_set_p; simpl in *; lia|].
      split; [exact R1|]. split; [exact R2|]. exact R3.
    + rewrite !lookup_insert_ne by congruence. apply heap_rel_refl, Hf.
  - injection H as <-. eexists. split; [reflexivity|].
    do 4 (split; [reflexivity|]). apply heap_rel_refl, Hf.
Qed.

Lemma relocsym_loop_parallel cfg ext sid : forall rs L L1 M,
  archreloc_frame ext -> heap_frame (syms L) (syms M) ->
  relocsym_loop cfg ext sid rs L = Some L1 ->
  exists M2, relocsym_loop cfg ext sid rs M = Some M2 /\ link_rel L L1 M M2.
Proof.
  induction rs as [|r rs IH]; intros L L1 M Ha Hf H.
  - simpl in *. injection H as <-. exists M. split; [reflexivity|].
    apply link_rel_refl, Hf.
  - cbn [relocsym_loop] in *.
    destruct (relocsym_step cfg ext sid r L) as [L'|] eqn:E; [|discriminate].
    cbn [mbind option_bind] in H.
    destruct (relocsym_step_parallel _ _ _ _ _ _ M Ha Hf E) as (M' & EM & R1).
    rewrite EM. cbn [mbind option_bind].
    destruct (IH L' L1 M' Ha (link_rel_frame _ _ _ _ R1) H) as (M2 & E2 & R2).
    exists M2. split; [exact E2|]. eapply link_rel_trans; eassumption.
Qed.

Lemma relocsym_parallel cfg ext sid L L1 M :
  archreloc_frame ext -> heap_frame (syms L) (syms M) ->
  relocsym cfg ext sid L = Some L1 ->
  exists M2, relocsym cfg ext sid M = Some M2 /\ link_rel L L1 M M2.
Proof.
  intros Ha Hf H. unfold relocsym in *.
  destruct (Hf sid) as [s t Hst|]; [|discriminate].
  cbn [mbind option_bind] in *.
  destruct (same_frame_inv _ _ Hst) as (q & -> & Hq). proj_set_p.
  eapply relocsym_loop_parallel; eassumption.
Qed.

Lemma foreach_relocsym_parallel cfg ext : forall l L L1 M,
  archreloc_frame ext -> heap_frame (syms L) (syms M) ->
  foreach_sym (relocsym cfg ext) l L = Some L1 ->
  exists M2, foreach_sym (relocsym cfg ext) l M = Some M2 /\ link_rel L L1 M M2.
Proof.
  induction l as [|sid l IH]; intros L L1 M Ha Hf H.
  - simpl in *. injection H as <-. exists M. split; [reflexivity|].
    apply link_rel_refl, Hf.
  - cbn [foreach_sym] in *.
    destruct (relocsym cfg ext sid L) as [L'|] eqn:E; [|discriminate].
    cbn [mbind option_bind] in H.
    destruct (relocsym_parallel _ _ _ _ _ M Ha Hf E) as (M' & EM & R1).
    rewrite EM. cbn [mbind option_bind].
    destruct (IH L' L1 M' Ha (link_rel_frame _ _ _ _ R1) H) as (M2 & E2 & R2).
    exists M2. split; [exact E2|]. eapply link_rel_trans; eassumption.
Qed.

Lemma reloc_parallel cfg ext L L1 M :
  archreloc_frame ext -> heap_frame (syms L) (syms M) ->
  textp M = textp L -> datap M = datap L ->
  reloc cfg ext L = Some L1 ->
  exists M2, reloc cfg ext M = Some M2 /\ link_rel L L1 M M2.
Proof.
  intros Ha Hf Ht Hd H. unfold reloc in *. rewrite Ht.
  destruct (foreach_sym (relocsym cfg ext) (textp L) L) as [L'|] eqn:E; [|discriminate].
  cbn [mbind option_bind] in H.
  destruct (foreach_relocsym_parallel _ _ _ _ _ M Ha Hf E) as (M' & EM & R1).
  rewrite EM. cbn [mbind option_bind].
  assert (Hd' : datap M' = datap L').
  { destruct R1 as (_ & A & _ & B & _). congruence. }
  rewrite Hd'.
  destruct (foreach_relocsym_parallel _ _ _ _ _ M' Ha (link_rel_frame _ _ _ _ R1) H)
    as (M2 & E2 & R2).
  exists M2. split; [exact E2|]. eapply link_rel_trans; eassumption.
Qed.

(** C9: running [reloc] again on the graph [reloc] returned leaves every
    symbol, hence every payload byte, as the first run left it; the second
    run returns.  The architecture hook must not read the bytes being
    patched. *)
Theorem reloc_idempotent cfg ext L L1 :
  archreloc_frame ext ->
  reloc cfg ext L = Some L1 ->
  exists L2, reloc cfg ext L1 = Some L2 /\ syms L2 = syms L1.
Proof.
  intros Ha H.
  destruct (reloc_parallel cfg ext L L1 L Ha (heap_frame_refl _) eq_refl eq_refl H)
    as (L1' & E1 & R1).
  assert (L1' = L1) by congruence. subst L1'.
  destruct R1 as (T1 & D1 & _ & _ & R1).
  assert (Hf : heap_frame (syms L) (syms L1)).
  { intros id. destruct (R1 id) as [(A1 & A2 & _)|(s & s1 & t & t2 & A1 & A2 & _ & _ & B1 & _)].
    - rewrite A1, A2. constructor.
    - rewrite A1, A2. constructor. exact B1. }
  destruct (reloc_parallel cfg ext L L1 L1 Ha Hf T1 D1 H) as (L2 & E2 & R2).
  exists L2. split; [exact E2|].
  destruct R2 as (_ & _ & _ & _ & R2).
  apply map_eq. intros id.
  destruct (R2 id) as [(_ & A2 & _ & A4)|(s & s1 & t & t2 & A1 & A2 & A3 & A4 & B1 & B2 & B3 & B4)].
  - congruence.
  - rewrite A2, A4. f_equal. assert (t = s1) by congruence. subst t.
    destruct B4 as (C1 & C2 & C3).
    assert (Hp : s_p t2 = s_p s1).
    { apply list_eq. intros i. destruct (C3 i) as [E|[E _]]; exact E. }
    destruct B1 as [E1' _]. destruct B3 as [E3 _].
    rewrite E3, E1', Hp. reflexivity.
Qed.

(** ** Appending through the encoder *)

Lemma payload_length s : buf_ok s -> Z.of_nat (length (payload s)) = s_np s.
Proof.
  intros (H1 & H2 & H3 & _). unfold payload. rewrite length_take. lia.
Qed.

Lemma touch_fixed cfg s x :
  s_reachable x = true -> s_type x = s_type (touch cfg s) -> touch cfg x = x.
Proof.
  intros Hr Ht. unfold touch in *. destruct x; simpl in *. subst.
  destruct (s_type s =? 0) eqn:E; simpl.
  - destruct (SDATA cfg =? 0) eqn:E2; reflexivity.
  - rewrite E. reflexivity.
Qed.

Lemma grown_by_trans cfg s s1 s2 b1 r1 b2 r2 :
  grown_by cfg s s1 b1 r1 -> grown_by cfg s1 s2 b2 r2 ->
  grown_by cfg s s2 (b1 ++ b2) (r1 ++ r2).
Proof.
  intros (m1 & p1 & E1 & O1 & P1) (m2 & p2 & E2 & O2 & P2).
  exists m2, p2. split; [|split; [exact O2|]].
  - rewrite E2. rewrite (touch_fixed cfg s s1) by (rewrite E1; reflexivity).
    rewrite E1. unfold rebuf. cbn [set_p set_maxp set_np set_r set_size s_name s_type
      s_size s_value s_align s_reachable s_special s_plt s_got s_gotype s_outer
      s_sect s_rel_ro s_dynimpname s_dynexport s_np s_maxp s_r s_p].
    rewrite length_app, Nat2Z.inj_add, <- app_assoc, !Z.add_assoc. reflexivity.
  - rewrite P2, P1, app_assoc. reflexivity.
Qed.

Lemma grown_by_fields cfg s s' bs rs :
  grown_by cfg s s' bs rs ->
  s_size s' = s_size s + Z.of_nat (length bs) /\ s_r s' = s_r s ++ rs
  /\ s_plt s' = s_plt s /\ s_got s' = s_got s /\ s_name s' = s_name s
  /\ s_value s' = s_value s /\ s_reachable s' = true
  /\ s_type s' = (if s_type s =? 0 then SDATA cfg else s_type s).
Proof.
  intros (m & p & -> & _ & _). unfold touch.
  destruct (s_type s =? 0) eqn:E; simpl; rewrite ?E; repeat split; reflexivity.
Qed.

Lemma adduintxx_grown cfg s v wid :
  tables_ok cfg -> enc_ok s -> s_size s + wid <= 2 ^ 30 ->
  wid = 1 \/ wid = 2 \/ wid = 4 \/ wid = 8 ->
  exists s', adduintxx cfg s v wid = Some (s_size s, s')
             /\ grown_by cfg s s' (uint_image cfg wid v) [].
Proof.
  intros HT [Hb Hnp] Hlt Hw.
  pose proof (uint_image_length cfg wid v HT Hw) as Hlen.
  assert (H0 : 0 <= s_size s) by (destruct Hb; lia).
  destruct (setuintxx_spec cfg s (s_size s) v wid HT Hb ltac:(lia) H0 Hlt Hw)
    as (m & p & H1 & H2 & H3). cbv zeta in *.
  unfold adduintxx. rewrite int32_id by lia. rewrite H1. cbn [mbind option_bind].
  eexists. split; [reflexivity|].
  rewrite Hnp, !Z.max_r in * by lia.
  exists m, p. rewrite Hlen, app_nil_r.
  split; [|split].
  - unfold rebuf, touch. destruct (s_type s =? 0); reflexivity.
  - split; [exact H2|reflexivity].
  - rewrite H3. replace (Z.to_nat (s_size s + wid - s_size s)) with (length (uint_image cfg wid v)) by lia.
    unfold splice. pose proof (payload_length s Hb) as Lp.
    rewrite take_app_length' by lia.
    rewrite drop_ge by (rewrite length_app, length_replicate; lia).
    rewrite app_nil_r. reflexivity.
Qed.

(** The three adders of a zeroed slot with a relocation record. *)
Lemma addslot_grown cfg s n r :
  enc_ok s -> 0 <= n -> s_size s + n <= 2 ^ 30 ->
  exists s',
    (s0 ← symgrow (set_size (touch cfg s) (s_size s + n)) (int32 (s_size s + n));
     Some (s_size s, addrel s0 r)) = Some (s_size s, s')
    /\ grown_by cfg s s' (replicate (Z.to_nat n) 0) [r].
Proof.
  intros [Hb Hnp] Hn Hlt.
  assert (H0 : 0 <= s_size s) by (destruct Hb; lia).
  rewrite int32_id by lia.
  assert (Hb1 : buf_ok (set_size (touch cfg s) (s_size s + n))).
  { apply (buf_ok_touch cfg) in Hb. exact Hb. }
  destruct (symgrow_spec _ (s_size s + n) Hb1 Hlt) as (m & p & H1 & H2 & H3).
  rewrite H1. cbn [mbind option_bind]. eexists. split; [reflexivity|].
  assert (Enp : s_np (set_size (touch cfg s) (s_size s + n)) = s_np s).
  { unfold touch. destruct (s_type s =? 0); reflexivity. }
  assert (Epl : payload (set_size (touch cfg s) (s_size s + n)) = payload s).
  { unfold touch, payload. destruct (s_type s =? 0); reflexivity. }
  rewrite Enp, Epl, Hnp in *. rewrite Z.max_r in * by lia.
  exists m, p. rewrite length_replicate, Z2Nat.id by lia.
  split; [|split].
  - unfold addrel, rebuf, touch. destruct (s_type s =? 0); reflexivity.
  - split; [exact H2|reflexivity].
  - change (payload (addrel ?x r)) with (payload x). rewrite H3.
    do 2 f_equal. lia.
Qed.

Lemma addaddrplus_grown cfg s t add :
  enc_ok s -> 0 <= PtrSize cfg -> s_size s + PtrSize cfg <= 2 ^ 30 ->
  exists s', addaddrplus cfg s t add = Some (s_size s, s')
    /\ grown_by cfg s s' (replicate (Z.to_nat (PtrSize cfg)) 0)
         [mkReloc (s_size s) (PtrSize cfg) (D_ADDR cfg) (int32 add) t].
Proof.
  intros He Hp Hlt.
  destruct (addslot_grown cfg s (PtrSize cfg)
              (mkReloc (s_size s) (PtrSize cfg) (D_ADDR cfg) (int32 add) t) He Hp Hlt)
    as (s' & H1 & H2).
  exists s'. split; [|exact H2]. rewrite <- H1. unfold addaddrplus, touch.
  destruct (s_type s =? 0); reflexivity.
Qed.

Lemma addaddrplus4_grown cfg s t add :
  enc_ok s -> s_size s + 4 <= 2 ^ 30 ->
  exists s', addaddrplus4 cfg s t add = Some (s_size s, s')
    /\ grown_by cfg s s' [0; 0; 0; 0]
         [mkReloc (s_size s) 4 (D_ADDR cfg) (int32 add) t].
Proof.
  intros He Hlt.
  destruct (addslot_grown cfg s 4
              (mkReloc (s_size s) 4 (D_ADDR cfg) (int32 add) t) He ltac:(lia) Hlt)
    as (s' & H1 & H2).
  exists s'. split; [|exact H2]. rewrite <- H1. unfold addaddrplus4, touch.
  destruct (s_type s =? 0); reflexivity.
Qed.

Lemma adduintxx_at_grown cfg h id s v wid :
  tables_ok cfg -> h !! id = Some s -> enc_ok s -> s_size s + wid <= 2 ^ 30 ->
  wid = 1 \/ wid = 2 \/ wid = 4 \/ wid = 8 ->
  exists s', adduintxx_at cfg id v wid h = Some (<[id := s']> h)
             /\ grown_by cfg s s' (uint_image cfg wid v) [].
Proof.
  intros HT Hs He Hlt Hw.
  destruct (adduintxx_grown cfg s v wid HT He Hlt Hw) as (s' & H1 & H2).
  exists s'. split; [|exact H2].
  unfold adduintxx_at, at_sym. rewrite Hs. cbn [mbind option_bind].
  rewrite H1. reflexivity.
Qed.

(** ** Conservative garbage collection records *)

Lemma gcaddsym_aptr_eq cfg fuel gc sid off a h :
  gcaddsym_aptr cfg fuel gc sid off a h =
    (s ← h !! sid;
     if int32 (a + PtrSize cfg) <=? s_size s then
       match fuel with
       | O => None
       | S fuel' =>
           h ← adduintxx_at cfg gc (GC_APTR cfg) (PtrSize cfg) h;
           h ← adduintxx_at cfg gc (int32 (off + a)) (PtrSize cfg) h;
           gcaddsym_aptr cfg fuel' gc sid off (int32 (a + PtrSize cfg)) h
       end
     else Some h).
Proof. destruct fuel; reflexivity. Qed.

Lemma gc_aptr_length cfg off k :
  tables_ok cfg -> PtrSize cfg = 4 \/ PtrSize cfg = 8 ->
  Z.of_nat (length (gc_aptr cfg off k)) = 2 * PtrSize cfg.
Proof.
  intros HT HP. unfold gc_aptr. rewrite length_app, Nat2Z.inj_add.
  rewrite !uint_image_length by (try assumption; lia). lia.
Qed.

Lemma gc_aptrs_length cfg off : forall n k,
  tables_ok cfg -> PtrSize cfg = 4 \/ PtrSize cfg = 8 ->
  Z.of_nat (length (flat_map (gc_aptr cfg off) (seq k n)))
  = 2 * PtrSize cfg * Z.of_nat n.
Proof.
  induction n as [|n IH]; intros k HT HP; [simpl; lia|].
  cbn [seq flat_map]. rewrite length_app, Nat2Z.inj_add, IH, gc_aptr_length by assumption.
  lia.
Qed.

(** One turn of the loop: the opcode and the offset of the slot. *)
Lemma gcaddsym_aptr_turn cfg gc off k h g :
  tables_ok cfg -> PtrSize cfg = 4 \/ PtrSize cfg = 8 ->
  h !! gc = Some g -> enc_ok g -> s_size g + 2 * PtrSize cfg <= 2 ^ 30 ->
  exists g',
    (h1 ← adduintxx_at cfg gc (GC_APTR cfg) (PtrSize cfg) h;
     adduintxx_at cfg gc (off + Z.of_nat k * PtrSize cfg) (PtrSize cfg) h1)
    = Some (<[gc := g']> h)
    /\ grown_by cfg g g' (gc_aptr cfg off k) [].
Proof.
  intros HT HP Hg He Hlt.
  assert (HP' : PtrSize cfg = 1 \/ PtrSize cfg = 2 \/ PtrSize cfg = 4 \/ PtrSize cfg = 8)
    by lia.
  destruct (adduintxx_at_grown cfg h gc g (GC_APTR cfg) (PtrSize cfg) HT Hg He
              ltac:(lia) HP') as (g1 & E1 & G1).
  rewrite E1. cbn [mbind option_bind].
  pose proof (grown_by_fields _ _ _ _ _ G1) as (F1 & _).
  rewrite uint_image_length in F1 by assumption.
  assert (He1 : enc_ok g1) by (destruct G1 as (? & ? & _ & H & _); exact H).
  destruct (adduintxx_at_grown cfg (<[gc := g1]> h) gc g1
              (off + Z.of_nat k * PtrSize cfg) (PtrSize cfg) HT
              (lookup_insert_eq _ _ _) He1 ltac:(lia) HP') as (g2 & E2 & G2).
  rewrite E2, insert_insert_eq. exists g2. split; [reflexivity|].
  pose proof (grown_by_trans _ _ _ _ _ _ _ _ G1 G2) as G. exact G.
Qed.

Lemma gcaddsym_aptr_spec cfg gc sid off s : forall m k fuel h g,
  tables_ok cfg -> PtrSize cfg = 4 \/ PtrSize cfg = 8 -> gc <> sid ->
  h !! sid = Some s -> h !! gc = Some g -> enc_ok g ->
  s_size g + 2 * PtrSize cfg * Z.of_nat (S m) <= 2 ^ 30 ->
  (S m <= fuel)%nat ->
  s_size s = Z.of_nat (k + S m) * PtrSize cfg ->
  0 <= off -> off + s_size s <= 2 ^ 31 -> s_size s + PtrSize cfg < 2 ^ 31 ->
  exists g',
    gcaddsym_aptr cfg fuel gc sid off (Z.of_nat k * PtrSize cfg) h
    = Some (<[gc := g']> h)
    /\ grown_by cfg g g' (flat_map (gc_aptr cfg off) (seq k (S m))) [].
Proof.
  induction m as [|m IH]; intros k fuel h g HT HP Hne Hs Hg He Hlt Hf Hsz Ho Hend Hcnt.
  - destruct fuel as [|fuel]; [lia|]. cbn [gcaddsym_aptr]. rewrite Hs.
    cbn [mbind option_bind].
    rewrite (int32_id (Z.of_nat k * PtrSize cfg + PtrSize cfg)) by lia.
    rewrite (int32_id (off + Z.of_nat k * PtrSize cfg)) by lia.
    destruct (Z.of_nat k * PtrSize cfg + PtrSize cfg <=? s_size s) eqn:E; [|lia].
    destruct (gcaddsym_aptr_turn cfg gc off k h g HT HP Hg He ltac:(lia))
      as (g' & E1 & G1).
    destruct (adduintxx_at cfg gc (GC_APTR cfg) (PtrSize cfg) h) as [h1|];
      [|discriminate].
    cbn [mbind option_bind] in *. rewrite E1. cbn [mbind option_bind].
    rewrite gcaddsym_aptr_eq, lookup_insert_ne, Hs by exact Hne.
    cbn [mbind option_bind].
    rewrite (int32_id (Z.of_nat k * PtrSize cfg + PtrSize cfg + PtrSize cfg)) by lia.
    destruct (Z.of_nat k * PtrSize cfg + PtrSize cfg + PtrSize cfg <=? s_size s) eqn:E2;
      [lia|].
    exists g'. split; [reflexivity|]. cbn [seq flat_map]. rewrite app_nil_r. exact G1.
  - destruct fuel as [|fuel]; [lia|]. cbn [gcaddsym_aptr]. rewrite Hs.
    cbn [mbind option_bind].
    rewrite (int32_id (Z.of_nat k * PtrSize cfg + PtrSize cfg)) by lia.
    rewrite (int32_id (off + Z.of_nat k * PtrSize cfg)) by lia.
    destruct (Z.of_nat k * PtrSize cfg + PtrSize cfg <=? s_size s) eqn:E; [|lia].
    destruct (gcaddsym_aptr_turn cfg gc off k h g HT HP Hg He ltac:(lia))
      as (g1 & E1 & G1).
    destruct (adduintxx_at cfg gc (GC_APTR cfg) (PtrSize cfg) h) as [h1|];
      [|discriminate].
    cbn [mbind option_bind] in *. rewrite E1. cbn [mbind option_bind].
    pose proof (grown_by_fields _ _ _ _ _ G1) as (F1 & _).
    rewrite gc_aptr_length in F1 by assumption.
    assert (He1 : enc_ok g1) by (destruct G1 as (? & ? & _ & H & _); exact H).
    replace (Z.of_nat k * PtrSize cfg + PtrSize cfg)
      with (Z.of_nat (S k) * PtrSize cfg) by lia.
    destruct (IH (S k) fuel (<[gc := g1]> h) g1 HT HP Hne) as (g' & E2 & G2);
      [rewrite lookup_insert_ne by exact Hne; exact Hs
      |apply lookup_insert_eq|exact He1|lia|lia|rewrite Hsz; f_equal; lia
      |exact Ho|exact Hend|exact Hcnt|].
    rewrite E2, insert_insert_eq. exists g'. split; [reflexivity|].
    change (seq k (S (S m))) with (k :: seq (S k) (S m)). cbn [flat_map].
    pose proof (grown_by_trans _ _ _ _ _ _ _ _ G1 G2) as G. exact G.
Qed.

Lemma land_neg_aligned off P :
  P = 4 \/ P = 8 -> off mod P = 0 -> Z.land (- off) (P - 1) = 0.
Proof.
  intros [-> | ->] H.
  - change (4 - 1) with (Z.ones 2). rewrite Z.land_ones by lia.
    change (2 ^ 2) with 4. apply Z.mod_divide; [lia|].
    apply Z.divide_opp_r. apply Z.mod_divide; [lia|exact H].
  - change (8 - 1) with (Z.ones 3). rewrite Z.land_ones by lia.
    change (2 ^ 3) with 8. apply Z.mod_divide; [lia|].
    apply Z.divide_opp_r. apply Z.mod_divide; [lia|exact H].
Qed.

(** C6: for a symbol without [gotype], not named [.string], of [n >= 1]
    pointer-sized words, placed at a pointer-aligned offset [off],
    [gcaddsym] appends to the GC symbol exactly [n] records
    [GC_APTR, off + k * PtrSize], for [k = 0 .. n-1], and nothing else.
    The offsets are [int32] in the code: the symbol is taken to end at or
    below [2^31] and to be shorter than [2^31 - PtrSize], so that no sum
    wraps, and the GC symbol to stay within [2^30] bytes, up to where
    [symgrow] returns. *)
Theorem gcaddsym_untyped cfg ext gc sid off h s g n :
  tables_ok cfg -> PtrSize cfg = 4 \/ PtrSize cfg = 8 ->
  h !! sid = Some s -> h !! gc = Some g -> gc <> sid ->
  s_gotype s = None -> strcmp (s_name s) ".string" <> 0 ->
  (1 <= n)%nat -> s_size s = Z.of_nat n * PtrSize cfg ->
  0 <= off -> off + s_size s <= 2 ^ 31 -> s_size s + PtrSize cfg < 2 ^ 31 ->
  off mod PtrSize cfg = 0 ->
  enc_ok g -> s_size g + 2 * PtrSize cfg * Z.of_nat n <= 2 ^ 30 ->
  exists g',
    gcaddsym cfg ext gc sid off h = Some (<[gc := g']> h)
    /\ payload g' = payload g ++ flat_map (gc_aptr cfg off) (seq 0 n)
    /\ s_r g' = s_r g
    /\ s_size g' = s_size g + 2 * PtrSize cfg * Z.of_nat n.
Proof.
  intros HT HP Hs Hg Hne Hgo Hname Hn Hsz Hoff Hend Hcnt Hal He Hlt.
  destruct n as [|m]; [lia|].
  destruct (gcaddsym_aptr_spec cfg gc sid off s m 0 (Z.to_nat (s_size s)) h g
              HT HP Hne Hs Hg He Hlt ltac:(nia) Hsz Hoff Hend Hcnt) as (g' & E & G).
  assert (Hpos : 0 <= s_size s) by nia.
  exists g'. unfold gcaddsym. rewrite (int32_id off) by lia. rewrite Hs.
  cbn [mbind option_bind].
  destruct (s_size s <? PtrSize cfg) eqn:E1; [nia|].
  destruct (strcmp (s_name s) ".string" =? 0) eqn:E2; [lia|].
  rewrite (int32_id (- off)) by lia.
  rewrite Hgo, land_neg_aligned by assumption.
  change (Z.of_nat 0 * PtrSize cfg) with 0 in E. rewrite E.
  split; [reflexivity|].
  pose proof (grown_by_fields _ _ _ _ _ G) as (F1 & F2 & _).
  rewrite gc_aptrs_length in F1 by assumption. rewrite app_nil_r in F2.
  destruct G as (? & ? & _ & _ & G3). auto.
Qed.

(** ** The jump table for PE dynamic imports *)



Lemma grown_enc cfg s s' bs rs : grown_by cfg s s' bs rs -> enc_ok s'.
Proof. intros (? & ? & _ & H & _). exact H. Qed.




(** ** The import stubs of Windows *)








Lemma setuintxx_roundtrip_witness :
  exists s', setuintxx amd64 (newsym "x") 4 258 2 = Some (4, s')
             /\ getuintxx amd64 s' 4 2 = 258.
Proof.
  apply (setuintxx_roundtrip amd64 (newsym "x") 4 258 2).
  - exact amd64_tables_ok.
  - lia.
  - auto.
  - lia.
  - apply newsym_buf_ok.
  - simpl. lia.
  - lia.
Defined.

Lemma ext0_archreloc_frame : archreloc_frame ext0.
Proof. intros r s p. reflexivity. Qed.

Lemma reloc_idempotent_witness :
  exists L2, reloc amd64 ext0 S2_done = Some L2 /\ syms L2 = syms S2_done.
Proof.
  apply (reloc_idempotent amd64 ext0 S2_text S2_done).
  - exact ext0_archreloc_frame.
  - vm_compute. reflexivity.
Defined.

Lemma newsym_enc_ok name : enc_ok (newsym name).
Proof. split; [apply newsym_buf_ok|reflexivity]. Qed.

Lemma gcaddsym_untyped_witness :
  exists g',
    gcaddsym amd64 ext0 102 5 64 S5_heap = Some (<[102%nat := g']> S5_heap)
    /\ payload g' = payload (newsym "gcdata1")
                    ++ flat_map (gc_aptr amd64 64) (seq 0 3)
    /\ s_r g' = s_r (newsym "gcdata1")
    /\ s_size g' = s_size (newsym "gcdata1") + 2 * PtrSize amd64 * Z.of_nat 3.
Proof.
  apply (gcaddsym_untyped amd64 ext0 102 5 64 S5_heap S5_q (newsym "gcdata1") 3).
  - exact amd64_tables_ok.
  - right. reflexivity.
  - reflexivity.
  - reflexivity.
  - discriminate.
  - reflexivity.
  - vm_compute. discriminate.
  - lia.
  - reflexivity.
  - lia.
  - vm_compute. discriminate.
  - vm_compute. reflexivity.
  - reflexivity.
  - apply newsym_enc_ok.
  - vm_compute. discriminate.
Defined.

(** Scenario S5, byte by byte: three records [GC_APTR, offset] of two
    8-byte words each. *)
Example gcaddsym_S5 :
  (g ← (h ← gcaddsym amd64 ext0 102 5 64 S5_heap; h !! 102%nat); Some (payload g))
  = Some [2; 0; 0; 0; 0; 0; 0; 0;  64; 0; 0; 0; 0; 0; 0; 0;
          2; 0; 0; 0; 0; 0; 0; 0;  72; 0; 0; 0; 0; 0; 0; 0;
          2; 0; 0; 0; 0; 0; 0; 0;  80; 0; 0; 0; 0; 0; 0; 0].
Proof. vm_compute. reflexivity. Qed.



(** The whole of [dynrelocsym] on a symbol with two call sites of one
    import: one stub, both records redirected to it. *)
Example dynrelocsym_pe_twice :
  pe_run i386_pe
  = Some ([255; 37; 0; 0; 0; 0; 144; 144],
          [mkReloc 2 4 120 0 (Some 1%nat)],
          [mkReloc 2 4 120 0 (Some 100%nat); mkReloc 10 4 120 0 (Some 100%nat)],
          0)
  /\ pe_run amd64_pe
     = Some ([255; 36; 37; 0; 0; 0; 0; 144],
             [mkReloc 3 4 120 0 (Some 1%nat)],
             [mkReloc 2 4 120 0 (Some 100%nat); mkReloc 10 4 120 0 (Some 100%nat)],
             0).
Proof. vm_compute. split; reflexivity. Qed.

(** ** Kinds through the layout *)

Lemma nzstable_refl h : nzstable h h.
Proof. intros j s Hs _. eauto. Qed.

Lemma nzstable_trans h1 h2 h3 : nzstable h1 h2 -> nzstable h2 h3 -> nzstable h1 h3.
Proof.
  intros A B j s Hs Hz. destruct (A j s Hs Hz) as (s' & Hs' & E).
  destruct (B j s' Hs' ltac:(congruence)) as (s'' & Hs'' & E').
  exists s''. split; [exact Hs''|congruence].
Qed.

Lemma nzstable_weaken id h h' : nzstable h h' -> nzstable_but id h h'.
Proof. intros A j s _. apply A. Qed.

Lemma nzstable_but_trans id h1 h2 h3 :
  nzstable_but id h1 h2 -> nzstable_but id h2 h3 -> nzstable_but id h1 h3.
Proof.
  intros A B j s Hj Hs Hz. destruct (A j s Hj Hs Hz) as (s' & Hs' & E).
  destruct (B j s' Hj Hs' ltac:(congruence)) as (s'' & Hs'' & E').
  exists s''. split; [exact Hs''|congruence].
Qed.

Lemma lstable_refl L : lstable L L.
Proof. split; [reflexivity|apply nzstable_refl]. Qed.

Lemma lstable_trans L1 L2 L3 : lstable L1 L2 -> lstable L2 L3 -> lstable L1 L3.
Proof.
  intros [A1 A2] [B1 B2]. split; [congruence|eapply nzstable_trans; eassumption].
Qed.

Lemma nzstable_alter_keep (f : Sym -> Sym) id h :
  (forall s, s_type (f s) = s_type s) -> nzstable h (alter f id h).
Proof.
  intros Hf j s Hs Hz. destruct (decide (j = id)) as [->|Hn].
  - exists (f s). rewrite lookup_alter_eq, Hs. split; [reflexivity|apply Hf].
  - exists s. rewrite lookup_alter_ne by congruence. auto.
Qed.

Lemma nzstable_but_alter (f : Sym -> Sym) id h : nzstable_but id h (alter f id h).
Proof.
  intros j s Hj Hs Hz. exists s. rewrite lookup_alter_ne by congruence. auto.
Qed.

Lemma nzstable_insert_same id s s' h :
  h !! id = Some s -> (s_type s <> 0 -> s_type s' = s_type s) ->
  nzstable h (<[id := s']> h).
Proof.
  intros Hs Ht j x Hx Hz. destruct (decide (j = id)) as [->|Hn].
  - exists s'. rewrite lookup_insert_eq. split; [reflexivity|].
    assert (x = s) by congruence. subst. auto.
  - exists x. rewrite lookup_insert_ne by congruence. auto.
Qed.

Lemma nzstable_intern ext name h : nzstable h (intern ext name h).2.
Proof.
  unfold intern. cbv zeta. destruct (h !! lookup ext name) eqn:E; simpl.
  - apply nzstable_refl.
  - intros j s Hs Hz. exists s. split; [|reflexivity].
    rewrite lookup_insert_ne; [exact Hs|]. intros Heq. rewrite Heq in E. congruence.
Qed.

(** The encoder gives a kind to a symbol that has none, and changes no
    other. *)
Lemma touch_type cfg s : s_type s <> 0 -> s_type (touch cfg s) = s_type s.
Proof.
  intros H. unfold touch. destruct (s_type s =? 0) eqn:E; [lia|reflexivity].
Qed.

Lemma symgrow_type s siz s' : symgrow s siz = Some s' -> s_type s' = s_type s.
Proof.
  unfold symgrow. destruct (s_np s >=? siz); [intros [= <-]; reflexivity|].
  destruct (s_maxp s <? siz).
  - destruct (symgrow_cap _ _ _); [|discriminate]. cbn [mbind option_bind].
    intros [= <-]. reflexivity.
  - cbn [mbind option_bind]. intros [= <-]. reflexivity.
Qed.

Lemma setuintxx_type cfg s off v wid o s' :
  setuintxx cfg s off v wid = Some (o, s') -> s_type s' = s_type (touch cfg s).
Proof.
  unfold setuintxx. fold (touch cfg s).
  match goal with |- (?g ≫= _) = _ -> _ => destruct g as [s1|] eqn:G end;
    [|discriminate].
  cbn [mbind option_bind].
  match goal with |- (?g ≫= _) = _ -> _ => destruct g as [p'|] end; [|discriminate].
  cbn [mbind option_bind]. intros [= <- <-]. cbn [s_type set_p].
  destruct (s_size (touch cfg s) <? off + wid).
  - apply symgrow_type in G. exact G.
  - injection G as <-. reflexivity.
Qed.

Lemma adduintxx_type cfg s v wid o s' :
  adduintxx cfg s v wid = Some (o, s') -> s_type s' = s_type (touch cfg s).
Proof.
  unfold adduintxx. destruct (setuintxx cfg s _ v wid) as [[o1 s1]|] eqn:E;
    [|discriminate].
  cbn [mbind option_bind]. intros [= <- <-]. eapply setuintxx_type; eassumption.
Qed.

Lemma addpcrelplus_type cfg s t add o s' :
  addpcrelplus cfg s t add = Some (o, s') -> s_type s' = s_type (touch cfg s).
Proof.
  unfold addpcrelplus. fold (touch cfg s).
  match goal with |- (?g ≫= _) = _ -> _ => destruct g as [s1|] eqn:G end;
    [|discriminate].
  cbn [mbind option_bind]. intros [= <- <-]. apply symgrow_type in G.
  unfold addrel. cbn [s_type set_r]. rewrite G. unfold touch.
  destruct (s_type s =? 0); reflexivity.
Qed.

Lemma at_sym_nzstable cfg h id f x h' :
  (forall s o s', f s = Some (o, s') -> s_type s' = s_type (touch cfg s)) ->
  at_sym h id f = Some (x, h') -> nzstable h h'.
Proof.
  intros Hf. unfold at_sym. destruct (h !! id) as [s|] eqn:Hs; [|discriminate].
  cbn [mbind option_bind]. destruct (f s) as [[o s']|] eqn:E; [|discriminate].
  cbn [mbind option_bind]. intros [= <- <-].
  apply (nzstable_insert_same id s s' h Hs). intros Hz.
  rewrite (Hf _ _ _ E). apply touch_type, Hz.
Qed.

Lemma adduintxx_at_nzstable cfg id v wid h h' :
  adduintxx_at cfg id v wid h = Some h' -> nzstable h h'.
Proof.
  unfold adduintxx_at.
  destruct (at_sym h id _) as [[x h1]|] eqn:E; [|discriminate].
  cbn [mbind option_bind]. intros [= <-].
  eapply (at_sym_nzstable cfg); [|exact E]. intros s o s'. apply adduintxx_type.
Qed.

Lemma gcaddsym_aptr_nzstable cfg gc sid off : forall fuel a h h',
  gcaddsym_aptr cfg fuel gc sid off a h = Some h' -> nzstable h h'.
Proof.
  induction fuel as [|fuel IH]; intros a h h'; rewrite gcaddsym_aptr_eq;
    destruct (h !! sid) as [s|]; try discriminate; cbn [mbind option_bind];
    destruct (int32 (a + PtrSize cfg) <=? s_size s); try discriminate;
    try (intros [= <-]; apply nzstable_refl).
  destruct (adduintxx_at cfg gc (GC_APTR cfg) (PtrSize cfg) h) as [h1|] eqn:E1;
    [|discriminate].
  cbn [mbind option_bind].
  destruct (adduintxx_at cfg gc (int32 (off + a)) (PtrSize cfg) h1) as [h2|] eqn:E2;
    [|discriminate].
  cbn [mbind option_bind]. intros H.
  eapply nzstable_trans; [eapply adduintxx_at_nzstable; exact E1|].
  eapply nzstable_trans; [eapply adduintxx_at_nzstable; exact E2|].
  eapply IH; exact H.
Qed.

Lemma gcaddsym_nzstable cfg ext gc sid off h h' :
  gcaddsym cfg ext gc sid off h = Some h' -> nzstable h h'.
Proof.
  unfold gcaddsym. destruct (h !! sid) as [s|]; [|discriminate].
  cbn [mbind option_bind].
  destruct (s_size s <? PtrSize cfg); [intros [= <-]; apply nzstable_refl|].
  destruct (strcmp (s_name s) ".string" =? 0); [intros [= <-]; apply nzstable_refl|].
  destruct (s_gotype s) as [gotype|]; [|apply gcaddsym_aptr_nzstable].
  destruct (adduintxx_at cfg gc (GC_CALL cfg) (PtrSize cfg) h) as [h1|] eqn:E1;
    [|discriminate].
  cbn [mbind option_bind].
  destruct (adduintxx_at cfg gc (int32 off) (PtrSize cfg) h1) as [h2|] eqn:E2;
    [|discriminate].
  cbn [mbind option_bind].
  destruct (decodetype_gc ext h2 gotype) as [t|]; [|discriminate].
  cbn [mbind option_bind].
  destruct (at_sym h2 gc _) as [[x h3]|] eqn:E3; [|discriminate].
  cbn [mbind option_bind]. intros H.
  eapply nzstable_trans; [eapply adduintxx_at_nzstable; exact E1|].
  eapply nzstable_trans; [eapply adduintxx_at_nzstable; exact E2|].
  eapply nzstable_trans.
  { eapply (at_sym_nzstable cfg); [|exact E3]. intros ? ? ?. apply addpcrelplus_type. }
  destruct (PtrSize cfg =? 8).
  - eapply adduintxx_at_nzstable; exact H.
  - injection H as <-. apply nzstable_refl.
Qed.

Lemma walk_types (c : Z -> bool) body Dn :
  body_ok Dn body ->
  forall todo d L todo' d' L',
    walk (fun s => c (s_type s)) body todo d L = Some (todo', d', L') ->
    NoDup todo ->
    (forall id, id ∈ todo -> exists s, syms L !! id = Some s /\ s_type s <> 0) ->
    exists done,
      todo = done ++ todo'
      /\ datap L' = datap L
      /\ (forall j s, j ∉ done -> syms L !! j = Some s -> s_type s <> 0 ->
            exists s', syms L' !! j = Some s' /\ s_type s' = s_type s)
      /\ (forall id, id ∈ done ->
            exists s s', syms L !! id = Some s /\ c (s_type s) = true
                         /\ syms L' !! id = Some s' /\ s_type s' <> 0
                         /\ Dn (s_type s) (s_type s'))
      /\ match todo' with
         | [] => True
         | x :: _ => exists s, syms L !! x = Some s /\ c (s_type s) = false
         end.
Proof.
  intros Hb. induction todo as [|id l IH]; intros d L todo' d' L' H Hnd Hbound.
  - simpl in H. injection H as <- <- <-. exists []. repeat split; eauto.
    intros id Hin. inversion Hin.
  - cbn [walk] in H.
    destruct (Hbound id ltac:(left)) as (s & Hs & Hz). rewrite Hs in H.
    cbn [mbind option_bind] in H.
    destruct (c (s_type s)) eqn:Ec.
    + destruct (body id s d L) as [[d1 L1]|] eqn:Eb; [|discriminate].
      cbn [mbind option_bind] in H.
      destruct (Hb id s d L d1 L1 Hs Hz Eb) as (B1 & B2 & s1 & Hs1 & Hz1 & HD).
      apply NoDup_cons in Hnd. destruct Hnd as [Hnin Hnd].
      assert (Hbound1 : forall j, j ∈ l ->
                exists x, syms L1 !! j = Some x /\ s_type x <> 0).
      { intros j Hj. destruct (Hbound j ltac:(right; exact Hj)) as (x & Hx & Hxz).
        destruct (B2 j x ltac:(intros ->; contradiction) Hx Hxz) as (x' & Hx' & E).
        exists x'. split; [exact Hx'|congruence]. }
      destruct (IH d1 L1 todo' d' L' H Hnd Hbound1) as (done & E & I1 & I2 & I3 & I4).
      exists (id :: done). split; [rewrite E; reflexivity|]. split; [congruence|].
      assert (Hnd' : id ∉ done).
      { intros Hin. apply Hnin. rewrite E. apply elem_of_app. left. exact Hin. }
      split; [|split].
      * intros j x Hj Hx Hxz. apply not_elem_of_cons in Hj. destruct Hj as [Hj1 Hj2].
        destruct (B2 j x Hj1 Hx Hxz) as (x' & Hx' & E1).
        destruct (I2 j x' Hj2 Hx' ltac:(congruence)) as (x'' & Hx'' & E2).
        exists x''. split; [exact Hx''|congruence].
      * intros j Hj. apply elem_of_cons in Hj. destruct Hj as [->|Hj].
        -- destruct (I2 id s1 Hnd' Hs1 Hz1) as (s2 & Hs2 & E2).
           exists s, s2. rewrite E2. auto.
        -- destruct (I3 j Hj) as (x1 & x2 & Hx1 & Hc & Hx2 & Hz2 & HD2).
           assert (Hjl : j ∈ l) by (rewrite E; apply elem_of_app; left; exact Hj).
           destruct (Hbound j ltac:(right; exact Hjl)) as (x & Hx & Hxz).
           destruct (B2 j x ltac:(intros ->; contradiction) Hx Hxz) as (x' & Hx' & E1).
           assert (x' = x1) by congruence. subst x'.
           exists x, x2. rewrite <- E1. auto.
      * destruct todo' as [|y todo']; [exact I|].
        destruct I4 as (x1 & Hx1 & Hc).
        assert (Hyl : y ∈ l) by (rewrite E; apply elem_of_app; right; left).
        destruct (Hbound y ltac:(right; exact Hyl)) as (x & Hx & Hxz).
        destruct (B2 y x ltac:(intros ->; contradiction) Hx Hxz) as (x' & Hx' & E1).
        assert (x' = x1) by congruence. subst x'.
        exists x. rewrite <- E1. auto.
    + injection H as <- <- <-. exists []. split; [reflexivity|]. split; [reflexivity|].
      split; [intros j x _ Hx _; eauto|]. split; [intros j Hj; inversion Hj|].
      exists s. auto.
Qed.

Section Pass.
Context (l : list nat) (t0 : nat -> Z) (D : Z -> Z -> Prop).
Hypothesis Hnd : NoDup l.
Hypothesis Hnz : forall id, id ∈ l -> t0 id <> 0.

Lemma pass_stable L L' todo :
  pass_inv l t0 D L todo -> nzstable (syms L) (syms L') ->
  pass_inv l t0 D L' todo.
Proof.
  intros (done & E & I1 & I2) Hst. exists done. split; [exact E|]. split.
  - intros id Hin. destruct (I1 id Hin) as (s & Hs & Ht).
    destruct (Hst id s Hs) as (s' & Hs' & E').
    { rewrite Ht. apply Hnz. rewrite E. apply elem_of_app. right. exact Hin. }
    exists s'. split; [exact Hs'|congruence].
  - intros id Hin. destruct (I2 id Hin) as (s & Hs & Hz & HD).
    destruct (Hst id s Hs Hz) as (s' & Hs' & E').
    exists s'. rewrite E'. auto.
Qed.

Lemma pass_walk (c : Z -> bool) body Dn L todo d todo' d' L' :
  body_ok Dn body ->
  pass_inv l t0 D L todo ->
  (forall id t', id ∈ todo -> c (t0 id) = true -> t' <> 0 -> Dn (t0 id) t' ->
                 D (t0 id) t') ->
  walk (fun s => c (s_type s)) body todo d L = Some (todo', d', L') ->
  pass_inv l t0 D L' todo'
  /\ datap L' = datap L
  /\ (exists mid, todo = mid ++ todo')
  /\ match todo' with [] => True | x :: _ => c (t0 x) = false end.
Proof.
  intros Hb (done & E & I1 & I2) HD H.
  assert (Hnd' : NoDup todo).
  { rewrite E in Hnd. apply NoDup_app in Hnd. tauto. }
  assert (Hbound : forall id, id ∈ todo ->
            exists s, syms L !! id = Some s /\ s_type s <> 0).
  { intros id Hin. destruct (I1 id Hin) as (s & Hs & Ht). exists s.
    split; [exact Hs|]. rewrite Ht. apply Hnz. rewrite E.
    apply elem_of_app. right. exact Hin. }
  destruct (walk_types c body Dn Hb todo d L todo' d' L' H Hnd' Hbound)
    as (mid & E' & W1 & W2 & W3 & W4).
  split; [|split; [exact W1|split; [exists mid; exact E'|]]].
  - exists (done ++ mid). split; [rewrite E, E', app_assoc; reflexivity|]. split.
    + intros id Hin.
      assert (Hin' : id ∈ todo) by (rewrite E'; apply elem_of_app; right; exact Hin).
      destruct (I1 id Hin') as (s & Hs & Ht).
      destruct (W2 id s) as (s' & Hs' & Et); [|exact Hs| |].
      * intros Hm. rewrite E' in Hnd'. apply NoDup_app in Hnd'.
        destruct Hnd' as (_ & Hdis & _). exact (Hdis id Hm Hin).
      * rewrite Ht. apply Hnz. rewrite E. apply elem_of_app. right. exact Hin'.
      * exists s'. split; [exact Hs'|congruence].
    + intros id Hin. apply elem_of_app in Hin. destruct Hin as [Hin|Hin].
      * destruct (I2 id Hin) as (s & Hs & Hz & HDs).
        destruct (W2 id s) as (s' & Hs' & Et); [|exact Hs|exact Hz|].
        -- intros Hm. rewrite E in Hnd. apply NoDup_app in Hnd.
           destruct Hnd as (_ & Hdis & _). apply (Hdis id Hin).
           rewrite E'. apply elem_of_app. left. exact Hm.
        -- exists s'. rewrite Et. auto.
      * destruct (W3 id Hin) as (s & s' & Hs & Hc & Hs' & Hz' & HDn).
        assert (Hin' : id ∈ todo) by (rewrite E'; apply elem_of_app; left; exact Hin).
        destruct (I1 id Hin') as (x & Hx & Ht).
        assert (x = s) by congruence. subst x. rewrite Ht in *.
        exists s'. split; [exact Hs'|]. split; [exact Hz'|].
        apply HD; assumption.
  - destruct todo' as [|x todo']; [exact I|].
    destruct W4 as (s & Hs & Hc).
    assert (Hin' : x ∈ todo) by (rewrite E'; apply elem_of_app; right; left).
    destruct (I1 x Hin') as (y & Hy & Ht).
    assert (y = s) by congruence. subst y. rewrite <- Ht. exact Hc.
Qed.
End Pass.

(** ** The loop bodies of [dodata] *)

Lemma upd_lookup id f L s :
  syms L !! id = Some s -> syms (upd id f L) !! id = Some (f s).
Proof. intros H. unfold upd. cbn [syms set_syms]. rewrite lookup_alter_eq, H. reflexivity. Qed.

Lemma upd_but id f L : nzstable_but id (syms L) (syms (upd id f L)).
Proof. unfold upd. cbn [syms set_syms]. apply nzstable_but_alter. Qed.

Lemma on_syms_inv f L L' :
  on_syms f L = Some L' ->
  exists h, f (syms L) = Some h /\ L' = set_syms L h.
Proof.
  unfold on_syms. destruct (f (syms L)) as [h|]; [|discriminate].
  cbn [mbind option_bind]. intros [= <-]. eauto.
Qed.

Lemma body_ok_skip : body_ok (fun t t' => t' = t) place_skip.
Proof.
  intros id s d L d' L' Hs Hz H. injection H as <- <-.
  split; [reflexivity|]. split; [apply nzstable_weaken, nzstable_refl|].
  exists s. auto.
Qed.

(** A body that is two assignments to the symbol under the cursor, possibly
    around changes to the sections and the diagnostics. *)
Lemma body_ok_alter (K : Z) (L L' : Link) id s (f : Sym -> Sym) :
  syms L !! id = Some s -> K <> 0 ->
  syms L' = alter f id (syms L) -> datap L' = datap L -> s_type (f s) = K ->
  datap L' = datap L
  /\ nzstable_but id (syms L) (syms L')
  /\ exists s', syms L' !! id = Some s' /\ s_type s' <> 0 /\ s_type s' = K.
Proof.
  intros Hs HK E Ed Ht. split; [exact Ed|]. rewrite E.
  split; [apply nzstable_but_alter|].
  exists (f s). rewrite lookup_alter_eq, Hs. split; [reflexivity|]. rewrite Ht. auto.
Qed.

Lemma alter_alter_sym (f g : Sym -> Sym) id (h : Heap) :
  alter f id (alter g id h) = alter (fun s => f (g s)) id h.
Proof.
  apply map_eq. intros j. destruct (decide (j = id)) as [->|Hn].
  - rewrite !lookup_alter_eq. destruct (h !! id); reflexivity.
  - rewrite !lookup_alter_ne by congruence. reflexivity.
Qed.

Lemma body_ok_elfsect cfg :
  SDATA cfg <> 0 -> body_ok (fun _ t' => t' = SDATA cfg) (place_elfsect cfg).
Proof.
  intros HK id s d L d' L' Hs Hz H. unfold place_elfsect in H.
  cbn [addsection] in H. injection H as <- <-.
  eapply (body_ok_alter (SDATA cfg)); [exact Hs|exact HK| | |];
    [reflexivity|reflexivity|reflexivity].
Qed.

Lemma body_ok_elfrosect cfg :
  SRODATA cfg <> 0 -> body_ok (fun _ t' => t' = SRODATA cfg) (place_elfrosect cfg).
Proof.
  intros HK id s d L d' L' Hs Hz H. unfold place_elfrosect in H.
  cbn [addsection] in H. injection H as <- <-.
  eapply (body_ok_alter (SRODATA cfg)); [exact Hs|exact HK| | |];
    [reflexivity|reflexivity|reflexivity].
Qed.

Lemma body_ok_noptrdata cfg sect :
  SDATA cfg <> 0 -> body_ok (fun _ t' => t' = SDATA cfg) (place_noptrdata cfg sect).
Proof.
  intros HK id s d L d' L' Hs Hz H. unfold place_noptrdata in H.
  injection H as <- <-.
  eapply (body_ok_alter (SDATA cfg)); [exact Hs|exact HK| | |];
    [unfold upd; cbn [syms set_syms]; apply alter_alter_sym|reflexivity|reflexivity].
Qed.

Lemma body_ok_datarelro cfg sect :
  SDATA cfg <> 0 -> body_ok (fun _ t' => t' = SDATA cfg) (place_datarelro cfg sect).
Proof.
  intros HK id s d L d' L' Hs Hz H. unfold place_datarelro in H.
  injection H as <- <-.
  eapply (body_ok_alter (SDATA cfg)); [exact Hs|exact HK| | |];
    [reflexivity|reflexivity|reflexivity].
Qed.

Lemma body_ok_rodata cfg sect :
  SRODATA cfg <> 0 -> body_ok (fun _ t' => t' = SRODATA cfg) (place_rodata cfg sect).
Proof.
  intros HK id s d L d' L' Hs Hz H. unfold place_rodata in H.
  injection H as <- <-.
  eapply (body_ok_alter (SRODATA cfg)); [exact Hs|exact HK| | |];
    [unfold upd; cbn [syms set_syms]; apply alter_alter_sym|reflexivity|reflexivity].
Qed.

Lemma body_ok_packed cfg sect :
  SRODATA cfg <> 0 -> body_ok (fun _ t' => t' = SRODATA cfg) (place_packed cfg sect).
Proof.
  intros HK id s d L d' L' Hs Hz H. unfold place_packed in H.
  injection H as <- <-.
  eapply (body_ok_alter (SRODATA cfg)); [exact Hs|exact HK| | |];
    [reflexivity|reflexivity|reflexivity].
Qed.

Lemma body_ok_noptrbss cfg sect :
  body_ok (fun t t' => t' = t) (place_noptrbss cfg sect).
Proof.
  intros id s d L d' L' Hs Hz H. unfold place_noptrbss in H.
  injection H as <- <-.
  eapply (body_ok_alter (s_type s)); [exact Hs|exact Hz| | |];
    [unfold upd; cbn [syms set_syms]; rewrite alter_alter_sym;
     destruct (s_type s >? SNOPTRBSS cfg); reflexivity
    |destruct (s_type s >? SNOPTRBSS cfg); reflexivity|reflexivity].
Qed.

(** The two bodies that call [gcaddsym]. *)
Lemma body_ok_gc cfg ext gc id s (f : Sym -> Sym) off (L0 L1 L' : Link) :
  syms L0 !! id = Some s -> s_type (f s) <> 0 ->
  syms L1 = alter f id (syms L0) -> datap L1 = datap L0 ->
  on_syms (gcaddsym cfg ext gc id off) L1 = Some L' ->
  datap L' = datap L0
  /\ nzstable_but id (syms L0) (syms L')
  /\ exists s', syms L' !! id = Some s' /\ s_type s' <> 0 /\ s_type s' = s_type (f s).
Proof.
  intros Hs Hz E Ed H. apply on_syms_inv in H. destruct H as (h & Hg & ->).
  apply gcaddsym_nzstable in Hg. cbn [syms set_syms datap].
  split; [exact Ed|]. split.
  - eapply nzstable_but_trans; [|apply nzstable_weaken; exact Hg].
    rewrite E. apply nzstable_but_alter.
  - destruct (Hg id (f s)) as (s' & Hs' & Et); [|exact Hz|].
    + rewrite E, lookup_alter_eq, Hs. reflexivity.
    + exists s'. rewrite Et. auto.
Qed.

Lemma body_ok_data cfg ext gc sect :
  SDATA cfg <> 0 -> body_ok (fun _ t' => t' = SDATA cfg) (place_data cfg ext gc sect).
Proof.
  intros HK id s d L d' L' Hs Hz H. unfold place_data in H.
  match type of H with (?g ≫= _) = _ => destruct g as [L2|] eqn:G end;
    [|discriminate].
  cbn [mbind option_bind] in H. injection H as <- <-.
  eapply (body_ok_gc cfg ext gc id s
            (fun s => set_value (set_type (set_sect s (Some sect)) (SDATA cfg)) _));
    [exact Hs|exact HK| | |exact G].
  - unfold upd. cbn [syms set_syms]. rewrite alter_alter_sym.
    destruct (s_type s =? SDATARELRO cfg); reflexivity.
  - destruct (s_type s =? SDATARELRO cfg); reflexivity.
Qed.

Lemma body_ok_bss cfg ext gc sect :
  body_ok (fun t t' => t' = t) (place_bss cfg ext gc sect).
Proof.
  intros id s d L d' L' Hs Hz H. unfold place_bss in H.
  match type of H with (?g ≫= _) = _ => destruct g as [L2|] eqn:G end;
    [|discriminate].
  cbn [mbind option_bind] in H. injection H as <- <-.
  eapply (body_ok_gc cfg ext gc id s
            (fun s => set_value (set_sect s (Some sect)) _));
    [exact Hs|exact Hz| | |exact G].
  - unfold upd. cbn [syms set_syms]. rewrite alter_alter_sym. reflexivity.
  - reflexivity.
Qed.

(** ** Between two loops *)

Lemma bind_sect_lstable ext name sect L : lstable L (bind_sect ext name sect L).
Proof.
  unfold bind_sect. pose proof (nzstable_intern ext name (syms L)) as H.
  destruct (intern ext name (syms L)) as [id h]. simpl in H.
  split; [reflexivity|]. cbn [syms set_syms].
  eapply nzstable_trans; [exact H|]. apply nzstable_alter_keep. reflexivity.
Qed.

Lemma open_section_lstable ext seg name rwx a b d L sect L' :
  open_section ext seg name rwx a b d L = (sect, L') -> lstable L L'.
Proof.
  unfold open_section. cbn [addsection]. intros [= <- <-].
  eapply lstable_trans; [|apply bind_sect_lstable].
  eapply lstable_trans; [|apply bind_sect_lstable].
  split; [reflexivity|apply nzstable_refl].
Qed.

Lemma close_section_lstable cfg sect d L d' L' :
  close_section cfg sect d L = (d', L') -> lstable L L'.
Proof.
  unfold close_section. intros [= <- <-]. split; [reflexivity|apply nzstable_refl].
Qed.

Lemma on_syms_lstable f L L' :
  (forall h h', f h = Some h' -> nzstable h h') ->
  on_syms f L = Some L' -> lstable L L'.
Proof.
  intros Hf H. apply on_syms_inv in H. destruct H as (h & Hh & ->).
  split; [reflexivity|]. apply Hf, Hh.
Qed.

(** ** The two passes of [dodata] *)

Section Passes.
Context (cfg : Conf) (ext : Ext).
Context (l : list nat) (t0 : nat -> Z).
Hypothesis HK : kind_order cfg.
Hypothesis Hnd : NoDup l.
Hypothesis Hnz : forall id, id ∈ l -> t0 id <> 0.

Lemma pass_init D L :
  (forall id, id ∈ l -> exists s, syms L !! id = Some s /\ s_type s = t0 id) ->
  pass_inv l t0 D L l.
Proof.
  intros Hb. exists []. split; [reflexivity|]. split; [exact Hb|].
  intros id Hin. inversion Hin.
Qed.

(** A walk, with a fact [P] known of the symbols ahead of the cursor. *)
Lemma pass_step D (P : nat -> Prop) (c : Z -> bool) body Dn L todo d todo' d' L' :
  body_ok Dn body ->
  pass_inv l t0 D L todo -> datap L = l ->
  (forall id, id ∈ todo -> P id) ->
  (forall id t', P id -> c (t0 id) = true -> t' <> 0 -> Dn (t0 id) t' ->
                 D (t0 id) t') ->
  walk (fun s => c (s_type s)) body todo d L = Some (todo', d', L') ->
  pass_inv l t0 D L' todo' /\ datap L' = l
  /\ (forall id, id ∈ todo' -> P id)
  /\ match todo' with [] => True | x :: _ => c (t0 x) = false end.
Proof.
  intros Hb I Ed HP HD W.
  destruct (pass_walk l t0 D Hnd Hnz c body Dn L todo d todo' d' L' Hb I) as
    (I' & Ed' & (mid & Em) & Hc); [|exact W|].
  { intros id t' Hin. apply HD, HP, Hin. }
  split; [exact I'|]. split; [congruence|]. split; [|exact Hc].
  intros id Hin. apply HP. rewrite Em. apply elem_of_app. right. exact Hin.
Qed.

Lemma pass_between D L L' todo :
  pass_inv l t0 D L todo -> datap L = l -> lstable L L' ->
  pass_inv l t0 D L' todo /\ datap L' = l.
Proof.
  intros I Ed [E S]. split; [|congruence].
  eapply pass_stable; eassumption.
Qed.

Hypothesis Hso : StronglySorted (fun a b => t0 a <= t0 b) l.

(** The list is sorted by kind: what the cursor stops at bounds what is
    ahead of it. *)
Lemma pass_lb D L todo B :
  pass_inv l t0 D L todo ->
  match todo with [] => True | x :: _ => (t0 x <? B) = false end ->
  forall id, id ∈ todo -> B <= t0 id.
Proof.
  intros (done & E & _) Hc id Hin. destruct todo as [|x rest]; [inversion Hin|].
  rewrite E in Hso. apply StronglySorted_app_1_r in Hso.
  apply StronglySorted_inv in Hso. destruct Hso as [_ Hall].
  apply Z.ltb_ge in Hc. apply elem_of_cons in Hin. destruct Hin as [->|Hin]; [lia|].
  rewrite Forall_forall in Hall. specialize (Hall id Hin). lia.
Qed.
End Passes.

Ltac walk_step H W :=
  match type of H with
  | context [walk ?c ?b ?l ?d ?L] =>
      destruct (walk c b l d L) as [[[? ?] ?]|] eqn:W; [|discriminate];
      cbn [mbind option_bind] in H
  end.

Ltac open_step H O :=
  match type of H with
  | context [open_section ?a ?b ?c ?d ?e ?f ?g ?h] =>
      destruct (open_section a b c d e f g h) as [? ?] eqn:O
  end.

Ltac close_step H O :=
  match type of H with
  | context [close_section ?a ?b ?c ?d] =>
      destruct (close_section a b c d) as [? ?] eqn:O
  end.

Ltac on_syms_step H O :=
  match type of H with
  | context [on_syms ?f ?L] =>
      destruct (on_syms f L) as [?|] eqn:O; [|discriminate];
      cbn [mbind option_bind] in H
  end.

Lemma kind_order_nz cfg : kind_order cfg -> SDATA cfg <> 0 /\ SRODATA cfg <> 0.
Proof. unfold kind_order. lia. Qed.

Lemma setuintxx_at_nzstable cfg id off v wid (h h' : Heap) :
  ('(_, h1) ← at_sym h id (fun g => setuintxx cfg g off v wid); Some h1) = Some h' ->
  nzstable h h'.
Proof.
  destruct (at_sym h id _) as [[x h1]|] eqn:E; [|discriminate].
  cbn [mbind option_bind]. intros [= <-].
  eapply (at_sym_nzstable cfg); [|exact E]. intros s o s'. apply setuintxx_type.
Qed.

Lemma dodata_segdata_types cfg ext L L' (t0 : nat -> Z) :
  kind_order cfg -> NoDup (datap L) ->
  (forall id, id ∈ datap L -> exists s, syms L !! id = Some s /\ s_type s = t0 id) ->
  (forall id, id ∈ datap L -> t0 id <> 0) ->
  StronglySorted (fun a b => t0 a <= t0 b) (datap L) ->
  dodata_segdata cfg ext L = Some L' ->
  datap L' = datap L /\ pass_inv (datap L) t0 (segdata_done cfg) L' [].
Proof.
  intros HK Hnd Hb Hnz Hso H.
  destruct (kind_order_nz cfg HK) as [HD HR].
  unfold dodata_segdata in H. cbv zeta in H.
  remember (datap L) as l eqn:El.
  pose proof (pass_init l t0 (segdata_done cfg) L Hb) as I0.
  symmetry in El.
  (* skip symbols belonging to segtext *)
  walk_step H W1.
  eapply (pass_step l t0 Hnd Hnz (segdata_done cfg) (fun _ => True)
            (fun t => t <? SELFSECT cfg)) in W1 as (I1 & E1 & _ & C1);
    [|apply body_ok_skip|exact I0|exact El|auto
    |intros id t' _ Hc _ ->; left; apply Z.ltb_lt in Hc; auto].
  pose proof (pass_lb l t0 Hso _ _ _ (SELFSECT cfg) I1 C1) as LB1.
  (* writable ELF sections *)
  walk_step H W2.
  eapply (pass_step l t0 Hnd Hnz (segdata_done cfg) (fun id => SELFSECT cfg <= t0 id)
            (fun t => t <? SNOPTRDATA cfg)) in W2 as (I2 & E2 & LB2 & _);
    [|apply body_ok_elfsect, HD|exact I1|exact E1|exact LB1
    |intros id t' Hlb _ _ ->; right; auto].
  (* pointer-free data *)
  open_step H O3.
  destruct (pass_between l t0 Hnz _ _ _ _ I2 E2 (open_section_lstable _ _ _ _ _ _ _ _ _ _ O3))
    as (I3 & E3).
  walk_step H W4.
  eapply (pass_step l t0 Hnd Hnz (segdata_done cfg) (fun id => SELFSECT cfg <= t0 id)
            (fun t => t <? SDATARELRO cfg)) in W4 as (I4 & E4 & LB4 & _);
    [|apply body_ok_noptrdata, HD|exact I3|exact E3|exact LB2
    |intros id t' Hlb _ _ ->; right; auto].
  close_step H O5.
  destruct (pass_between l t0 Hnz _ _ _ _ I4 E4 (close_section_lstable _ _ _ _ _ _ O5))
    as (I5 & E5).
  (* dynamic relocated rodata *)
  match type of H with
  | (?g ≫= _) = _ => destruct g as [[[s6 d6] L6]|] eqn:R6; [|discriminate]
  end.
  cbn [mbind option_bind] in H.
  assert (S6 : pass_inv l t0 (segdata_done cfg) L6 s6 /\ datap L6 = l
               /\ forall id, id ∈ s6 -> SELFSECT cfg <= t0 id).
  { destruct (flag_shared cfg).
    - open_step R6 Oa.
      destruct (pass_between l t0 Hnz _ _ _ _ I5 E5
                  (open_section_lstable _ _ _ _ _ _ _ _ _ _ Oa)) as (Ia & Ea).
      walk_step R6 W.
      eapply (pass_step l t0 Hnd Hnz (segdata_done cfg) (fun id => SELFSECT cfg <= t0 id)
            (fun t => t =? SDATARELRO cfg)) in W as (Ib & Eb & LBb & _);
    [|apply body_ok_datarelro, HD|exact Ia|exact Ea|exact LB4
    |intros id t' Hlb _ _ ->; right; auto].
      close_step R6 Ob.
      destruct (pass_between l t0 Hnz _ _ _ _ Ib Eb
                  (close_section_lstable _ _ _ _ _ _ Ob)) as (Ic & Ec).
      injection R6 as <- <- <-. auto.
    - injection R6 as <- <- <-. auto. }
  destruct S6 as (I6 & E6 & LB6).
  (* data *)
  open_step H O7.
  destruct (pass_between l t0 Hnz _ _ _ _ I6 E6 (open_section_lstable _ _ _ _ _ _ _ _ _ _ O7))
    as (I7 & E7).
  walk_step H W8.
  eapply (pass_step l t0 Hnd Hnz (segdata_done cfg) (fun id => SELFSECT cfg <= t0 id)
            (fun t => t <? SBSS cfg)) in W8 as (I8 & E8 & LB8 & C8);
    [|apply body_ok_data, HD|exact I7|exact E7|exact LB6
    |intros id t' Hlb _ _ ->; right; auto].
  pose proof (pass_lb l t0 Hso _ _ _ (SBSS cfg) I8 C8) as LBB.
  close_step H O9.
  destruct (pass_between l t0 Hnz _ _ _ _ I8 E8 (close_section_lstable _ _ _ _ _ _ O9))
    as (I9 & E9).
  on_syms_step H G10.
  destruct (pass_between l t0 Hnz _ _ _ _ I9 E9
              (on_syms_lstable _ _ _ (adduintxx_at_nzstable cfg _ _ _) G10))
    as (I10 & E10).
  on_syms_step H G11.
  destruct (pass_between l t0 Hnz _ _ _ _ I10 E10
              (on_syms_lstable _ _ _ (setuintxx_at_nzstable cfg _ _ _ _) G11))
    as (I11 & E11).
  (* bss *)
  open_step H O12.
  destruct (pass_between l t0 Hnz _ _ _ _ I11 E11
              (open_section_lstable _ _ _ _ _ _ _ _ _ _ O12)) as (I12 & E12).
  walk_step H W13.
  eapply (pass_step l t0 Hnd Hnz (segdata_done cfg) (fun id => SELFSECT cfg <= t0 id /\ SBSS cfg <= t0 id)
            (fun t => t <? SNOPTRBSS cfg)) in W13 as (I13 & E13 & LB13 & _);
    [|apply body_ok_bss|exact I12|exact E12|intros id Hin; split; [apply LB8|apply LBB]; exact Hin
    |intros id t' [Hlb Hbb] _ _ ->; right; auto].
  close_step H O14.
  destruct (pass_between l t0 Hnz _ _ _ _ I13 E13 (close_section_lstable _ _ _ _ _ _ O14))
    as (I14 & E14).
  on_syms_step H G15.
  destruct (pass_between l t0 Hnz _ _ _ _ I14 E14
              (on_syms_lstable _ _ _ (adduintxx_at_nzstable cfg _ _ _) G15))
    as (I15 & E15).
  on_syms_step H G16.
  destruct (pass_between l t0 Hnz _ _ _ _ I15 E15
              (on_syms_lstable _ _ _ (setuintxx_at_nzstable cfg _ _ _ _) G16))
    as (I16 & E16).
  (* pointer-free bss *)
  open_step H O17.
  destruct (pass_between l t0 Hnz _ _ _ _ I16 E16
              (open_section_lstable _ _ _ _ _ _ _ _ _ _ O17)) as (I17 & E17).
  walk_step H W18.
  eapply (pass_step l t0 Hnd Hnz (segdata_done cfg) (fun id => SELFSECT cfg <= t0 id /\ SBSS cfg <= t0 id)
            (fun _ => true)) in W18 as (I18 & E18 & _ & C18);
    [|apply body_ok_noptrbss|exact I17|exact E17|exact LB13
    |intros id t' [Hlb Hbb] _ _ ->; right; auto].
  match type of C18 with
  | match ?todo with _ => _ end => destruct todo as [|x rest]; [|discriminate]
  end.
  match type of H with
  | context [intern ?e ?n ?h] =>
      pose proof (nzstable_intern e n h) as Hend;
      destruct (intern e n h) as [idE hE]
  end.
  injection H as <-. cbn [snd] in Hend. cbn [syms sect_set_len set_sects] in Hend.
  split; [exact E18|].
  eapply (pass_stable l t0 (segdata_done cfg) Hnz); [exact I18|].
  cbn [syms set_syms].
  eapply nzstable_trans; [exact Hend|]. apply nzstable_alter_keep. reflexivity.
Qed.

Ltac packed_step H W :=
  match type of H with
  | context [packed_section ?a ?b ?c ?d ?e ?f ?g ?h ?i] =>
      destruct (packed_section a b c d e f g h i) as [[[? ?] ?]|] eqn:W;
      [|discriminate]; cbn [mbind option_bind] in H
  end.

Lemma packed_section_pass cfg ext (l : list nat) (t1 : nat -> Z) (c : Z -> bool)
    name a b todo d L todo' d' L' :
  SRODATA cfg <> 0 -> NoDup l -> (forall id, id ∈ l -> t1 id <> 0) ->
  pass_inv l t1 (fun _ t' => t' = SRODATA cfg) L todo -> datap L = l ->
  packed_section cfg ext name a b (fun s => c (s_type s)) todo d L
  = Some (todo', d', L') ->
  pass_inv l t1 (fun _ t' => t' = SRODATA cfg) L' todo' /\ datap L' = l.
Proof.
  intros HR Hnd Hnz I E H. unfold packed_section in H.
  open_step H Oa.
  destruct (pass_between l t1 Hnz _ _ _ _ I E
              (open_section_lstable _ _ _ _ _ _ _ _ _ _ Oa)) as (Ia & Ea).
  walk_step H W.
  eapply (pass_step l t1 Hnd Hnz (fun _ t' => t' = SRODATA cfg) (fun _ => True) c)
    in W as (Ib & Eb & _ & _);
    [|apply body_ok_packed, HR|exact Ia|exact Ea|auto|intros id t' _ _ _ ->; reflexivity].
  close_step H Ob.
  destruct (pass_between l t1 Hnz _ _ _ _ Ib Eb
              (close_section_lstable _ _ _ _ _ _ Ob)) as (Ic & Ec).
  injection H as <- <- <-. auto.
Qed.

Lemma dodata_segtext_types cfg ext L L' (t1 : nat -> Z) :
  kind_order cfg -> NoDup (datap L) ->
  (forall id, id ∈ datap L -> exists s, syms L !! id = Some s /\ s_type s = t1 id) ->
  (forall id, id ∈ datap L -> t1 id <> 0) ->
  dodata_segtext cfg ext L = Some L' ->
  datap L' = datap L
  /\ exists todo,
       pass_inv (datap L) t1 (fun _ t' => t' = SRODATA cfg) L' todo
       /\ match todo with
          | [] => True
          | x :: _ => (t1 x <? SELFSECT cfg) = false
          end.
Proof.
  intros HK Hnd Hb Hnz H.
  destruct (kind_order_nz cfg HK) as [HD HR].
  unfold dodata_segtext in H. cbv zeta in H.
  remember (datap L) as l eqn:El.
  pose proof (pass_init l t1 (fun _ t' => t' = SRODATA cfg) L Hb) as I0.
  symmetry in El.
  (* read-only data *)
  open_step H O1.
  assert (Ed1 : datap l0 = l).
  { destruct (open_section_lstable _ _ _ _ _ _ _ _ _ _ O1) as [E _]. congruence. }
  destruct (pass_between l t1 Hnz _ _ _ _ I0 El
              (open_section_lstable _ _ _ _ _ _ _ _ _ _ O1)) as (I1 & E1).
  rewrite Ed1 in H.
  walk_step H W2.
  eapply (pass_step l t1 Hnd Hnz (fun _ t' => t' = SRODATA cfg) (fun _ => True)
            (fun t => t <? STYPELINK cfg)) in W2 as (I2 & E2 & _ & _);
    [|apply body_ok_rodata, HR|exact I1|exact E1|auto
    |intros id t' _ _ _ ->; reflexivity].
  close_step H O3.
  destruct (pass_between l t1 Hnz _ _ _ _ I2 E2
              (close_section_lstable _ _ _ _ _ _ O3)) as (I3 & E3).
  (* type, gcdata, gcbss, gosymtab, gopclntab *)
  packed_step H P4.
  apply (packed_section_pass cfg ext l t1 (fun t => t =? STYPELINK cfg)) in P4
    as (I4 & E4); [|exact HR|exact Hnd|exact Hnz|exact I3|exact E3].
  packed_step H P5.
  apply (packed_section_pass cfg ext l t1 (fun t => t =? SGCDATA cfg)) in P5
    as (I5 & E5); [|exact HR|exact Hnd|exact Hnz|exact I4|exact E4].
  packed_step H P6.
  apply (packed_section_pass cfg ext l t1 (fun t => t =? SGCBSS cfg)) in P6
    as (I6 & E6); [|exact HR|exact Hnd|exact Hnz|exact I5|exact E5].
  packed_step H P7.
  apply (packed_section_pass cfg ext l t1 (fun t => t <? SPCLNTAB cfg)) in P7
    as (I7 & E7); [|exact HR|exact Hnd|exact Hnz|exact I6|exact E6].
  packed_step H P8.
  apply (packed_section_pass cfg ext l t1 (fun t => t <? SELFROSECT cfg)) in P8
    as (I8 & E8); [|exact HR|exact Hnd|exact Hnz|exact I7|exact E7].
  (* read-only ELF sections *)
  walk_step H W9.
  eapply (pass_step l t1 Hnd Hnz (fun _ t' => t' = SRODATA cfg) (fun _ => True)
            (fun t => t <? SELFSECT cfg)) in W9 as (I9 & E9 & _ & C9);
    [|apply body_ok_elfrosect, HR|exact I8|exact E8|auto
    |intros id t' _ _ _ ->; reflexivity].
  injection H as <-. split; [exact E9|]. eexists. split; [exact I9|exact C9].
Qed.

(** ** [dodata] *)

Lemma dodata_prune_spec cfg h : forall l l1,
  dodata_prune cfg h l = Some l1 ->
  sublist l1 l
  /\ forall id, id ∈ l1 ->
       exists s, h !! id = Some s /\ STEXT cfg < s_type s < SXREF cfg.
Proof.
  induction l as [|id l IH]; intros l1 H.
  - simpl in H. injection H as <-. split; [constructor|]. intros id Hin. inversion Hin.
  - cbn [dodata_prune] in H. destruct (h !! id) as [s|] eqn:Hs; [|discriminate].
    cbn [mbind option_bind] in H.
    destruct (dodata_prune cfg h l) as [rest|]; [|discriminate].
    cbn [mbind option_bind] in H. destruct (IH rest eq_refl) as [S1 S2].
    destruct ((s_type s <=? STEXT cfg) || (SXREF cfg <=? s_type s)) eqn:E;
      injection H as <-.
    + split; [constructor; exact S1|exact S2].
    + split; [constructor; exact S1|]. intros j Hj. apply elem_of_cons in Hj.
      destruct Hj as [->|Hj]; [|apply S2, Hj]. exists s. split; [exact Hs|].
      apply orb_false_iff in E. lia.
Qed.

Lemma dodata_relro_spec cfg : forall l h h',
  dodata_relro cfg l h = Some h' ->
  forall id s, h !! id = Some s ->
    exists s', h' !! id = Some s'
               /\ (s_type s' = s_type s \/ s_type s' = SDATARELRO cfg).
Proof.
  induction l as [|x l IH]; intros h h' H id s Hs.
  - simpl in H. injection H as <-. eauto.
  - cbn [dodata_relro] in H. destruct (h !! x) as [sx|] eqn:Hx; [|discriminate].
    cbn [mbind option_bind] in H. destruct (s_rel_ro sx).
    + destruct (decide (id = x)) as [->|Hn].
      * destruct (IH _ _ H x (set_type sx (SDATARELRO cfg)) (lookup_insert_eq _ _ _))
          as (s' & Hs' & Ht). exists s'. split; [exact Hs'|].
        right. destruct Ht as [Ht|Ht]; exact Ht.
      * apply (IH _ _ H). rewrite lookup_insert_ne by congruence. exact Hs.
    + apply (IH _ _ H). exact Hs.
Qed.

Lemma datcmp_type_le s1 s2 : datcmp s1 s2 <= 0 -> s_type s1 <= s_type s2.
Proof.
  unfold datcmp. destruct (s_type s1 =? s_type s2) eqn:E; simpl; lia.
Qed.

Lemma Sorted_weaken {A} (R R' : A -> A -> Prop) (l : list A) :
  (forall a b, a ∈ l -> b ∈ l -> R a b -> R' a b) -> Sorted R l -> Sorted R' l.
Proof.
  induction l as [|x l IH]; intros HR HS; [constructor|].
  apply Sorted_inv in HS. destruct HS as [HS Hh]. constructor.
  - apply IH; [|exact HS]. intros a b Ha Hb. apply HR; right; assumption.
  - destruct Hh as [|y l' Hxy]; constructor.
    apply HR; [left|right; left|exact Hxy].
Qed.

Lemma datsort_spec h l : datsort h l ≡ₚ l /\ Sorted (dat_le h) (datsort h l).
Proof. apply datsort_rec_spec. reflexivity. Qed.

(** After sorting, the kinds never decrease along the list. *)
Lemma datsort_types h l :
  (forall id, id ∈ l -> is_Some (h !! id)) ->
  StronglySorted (fun a b => type_of h a <= type_of h b) (datsort h l).
Proof.
  intros Hb. destruct (datsort_spec h l) as [Hp Hs].
  apply Sorted.Sorted_StronglySorted.
  - intros a b c Hab Hbc. lia.
  - eapply Sorted_weaken; [|exact Hs].
    intros a b Ha Hb'. rewrite Hp in Ha, Hb'.
    destruct (Hb a Ha) as [sa Hsa]. destruct (Hb b Hb') as [sb Hsb].
    unfold dat_le, datcmp_at, type_of. rewrite Hsa, Hsb. apply datcmp_type_le.
Qed.

Lemma dodata_layout_kinds cfg ext L L' :
  kind_order cfg -> NoDup (datap L) ->
  dodata_layout cfg ext L = Some L' ->
  forall id, id ∈ datap L' ->
    exists s', syms L' !! id = Some s'
      /\ (s_type s' = SDATA cfg \/ s_type s' = SRODATA cfg
          \/ SBSS cfg <= s_type s' < SXREF cfg).
Proof.
  intros HK Hnd H. unfold dodata_layout in H.
  destruct (dodata_prune cfg (syms L) (datap L)) as [l1|] eqn:Ep; [|discriminate].
  cbn [mbind option_bind] in H.
  destruct (dodata_prune_spec _ _ _ _ Ep) as [Hsub Hty].
  match type of H with (?g ≫= _) = _ => destruct g as [h|] eqn:Er end;
    [|discriminate].
  cbn [mbind option_bind] in H.
  assert (Hty' : forall id, id ∈ l1 ->
            exists s, h !! id = Some s /\ STEXT cfg < s_type s < SXREF cfg).
  { intros id Hin. destruct (Hty id Hin) as (s & Hs & Ht).
    destruct (flag_shared cfg).
    - destruct (dodata_relro_spec _ _ _ _ Er id s Hs) as (s' & Hs' & [E|E]).
      + exists s'. split; [exact Hs'|lia].
      + exists s'. split; [exact Hs'|]. unfold kind_order in HK. lia.
    - injection Er as <-. eauto. }
  set (l := datsort h l1) in *.
  destruct (datsort_spec h l1) as [Hperm _]. fold l in Hperm.
  assert (Hndl : NoDup l).
  { rewrite Hperm. eapply sublist_NoDup; eassumption. }
  set (t0 := type_of h).
  assert (Hb0 : forall id, id ∈ l -> exists s, h !! id = Some s /\ s_type s = t0 id).
  { intros id Hin. rewrite Hperm in Hin. destruct (Hty' id Hin) as (s & Hs & _).
    exists s. split; [exact Hs|]. unfold t0, type_of. rewrite Hs. reflexivity. }
  assert (Hr0 : forall id, id ∈ l -> STEXT cfg < t0 id < SXREF cfg).
  { intros id Hin. rewrite Hperm in Hin. destruct (Hty' id Hin) as (s & Hs & Ht).
    unfold t0, type_of. rewrite Hs. exact Ht. }
  assert (Hnz0 : forall id, id ∈ l -> t0 id <> 0).
  { intros id Hin. specialize (Hr0 id Hin). unfold kind_order in HK. lia. }
  assert (Hso : StronglySorted (fun a b => t0 a <= t0 b) l).
  { apply datsort_types. intros id Hin. destruct (Hty' id Hin) as (s & Hs & _). eauto. }
  destruct (dodata_segdata cfg ext (set_datap (set_syms L h) l)) as [L3|] eqn:E3;
    [|discriminate].
  cbn [mbind option_bind] in H.
  destruct (dodata_segdata_types cfg ext (set_datap (set_syms L h) l) L3 t0
              HK Hndl Hb0 Hnz0 Hso E3) as (Ed3 & done3 & El3 & _ & I3).
  cbn [datap set_datap] in Ed3, El3, I3. rewrite app_nil_r in El3. subst done3.
  set (t1 := type_of (syms L3)).
  assert (Hb1 : forall id, id ∈ datap L3 ->
            exists s, syms L3 !! id = Some s /\ s_type s = t1 id).
  { rewrite Ed3. intros id Hin. destruct (I3 id Hin) as (s & Hs & _).
    exists s. split; [exact Hs|]. unfold t1, type_of. rewrite Hs. reflexivity. }
  assert (Hnz1 : forall id, id ∈ datap L3 -> t1 id <> 0).
  { rewrite Ed3. intros id Hin. destruct (I3 id Hin) as (s & Hs & Hz & _).
    unfold t1, type_of. rewrite Hs. exact Hz. }
  assert (Hnd3 : NoDup (datap L3)) by (rewrite Ed3; exact Hndl).
  destruct (dodata_segtext_types cfg ext L3 L' t1 HK Hnd3 Hb1 Hnz1 H)
    as (Ed & todo & (done & El & T1 & T2) & Hc).
  rewrite Ed, Ed3. intros id Hin. rewrite Ed3 in El.
  assert (Hin' := Hin). rewrite El in Hin'. apply elem_of_app in Hin'.
  destruct Hin' as [Hd|Ht].
  - destruct (T2 id Hd) as (s & Hs & _ & E). exists s. auto.
  - destruct (T1 id Ht) as (s & Hs & E). exists s. split; [exact Hs|].
    destruct (I3 id Hin) as (s3 & Hs3 & _ & D3).
    assert (Et : t1 id = s_type s3) by (unfold t1, type_of; rewrite Hs3; reflexivity).
    rewrite E, Et. specialize (Hr0 id Hin).
    destruct D3 as [[Hlow Hsame]|[_ [Hd|[Hsame Hbss]]]]; [|auto|right; right; lia].
    exfalso. destruct todo as [|x rest]; [inversion Ht|].
    apply Z.ltb_ge in Hc.
    assert (Hx : x ∈ l) by (rewrite El; apply elem_of_app; right; left).
    destruct (I3 x Hx) as (sx & Hsx & _ & Dx).
    assert (Etx : t1 x = s_type sx) by (unfold t1, type_of; rewrite Hsx; reflexivity).
    assert (Hle : t0 x <= t0 id).
    { apply elem_of_cons in Ht. destruct Ht as [->|Ht]; [lia|].
      rewrite El in Hso. apply StronglySorted_app_1_r in Hso.
      apply StronglySorted_inv in Hso. destruct Hso as [_ Hall].
      rewrite Forall_forall in Hall. apply Hall, Ht. }
    destruct Dx as [[Hxl Hxs]|[Hxh _]]; lia.
Qed.

Lemma dodata_collect_sublist cfg h : forall l l1,
  dodata_collect cfg h l = Some l1 -> sublist l1 l.
Proof.
  induction l as [|id l IH]; intros l1 H.
  - simpl in H. injection H as <-. constructor.
  - cbn [dodata_collect] in H. destruct (h !! id) as [s|]; [|discriminate].
    cbn [mbind option_bind] in H.
    destruct (dodata_collect cfg h l) as [rest|]; [|discriminate].
    cbn [mbind option_bind] in H. specialize (IH rest eq_refl).
    destruct (negb (s_reachable s) || s_special s);
      [|destruct ((STEXT cfg <? s_type s) && (s_type s <? SXREF cfg))];
      injection H as <-; constructor; exact IH.
Qed.

Lemma dodata_bounds_datap : forall l L L',
  dodata_bounds l L = Some L' -> datap L' = datap L.
Proof.
  induction l as [|id l IH]; intros L L' H.
  - simpl in H. injection H as <-. reflexivity.
  - cbn [dodata_bounds] in H. destruct (syms L !! id) as [s|]; [|discriminate].
    cbn [mbind option_bind] in H. apply IH in H. rewrite H.
    destruct (s_np s >? s_size s); reflexivity.
Qed.

Lemma foreach_on_syms_datap (f : nat -> Heap -> option Heap) : forall l L L',
  foreach_sym (fun sid => on_syms (f sid)) l L = Some L' -> datap L' = datap L.
Proof.
  induction l as [|id l IH]; intros L L' H.
  - simpl in H. injection H as <-. reflexivity.
  - cbn [foreach_sym] in H.
    destruct (on_syms (f id) L) as [L1|] eqn:E; cbn [mbind option_bind] in H;
      [|discriminate].
    apply IH in H. rewrite H. unfold on_syms in E.
    destruct (f id (syms L)) as [h|]; cbn [mbind option_bind] in E;
      [|discriminate].
    injection E as <-. reflexivity.
Qed.

Lemma dynreloc_datap cfg ext L L' :
  dynreloc cfg ext L = Some L' -> datap L' = datap L.
Proof.
  unfold dynreloc. destruct (debug_d cfg && negb (HEADTYPE cfg =? Hwindows cfg)).
  - intros H. injection H as <-. reflexivity.
  - destruct (foreach_sym _ (textp L) L) as [L1|] eqn:E1; [|discriminate].
    cbn [mbind option_bind].
    destruct (foreach_sym _ (datap L1) L1) as [L2|] eqn:E2; [|discriminate].
    cbn [mbind option_bind]. apply foreach_on_syms_datap in E1, E2.
    destruct (iself cfg).
    + unfold on_syms. destruct (elfdynhash ext (syms L2)); [|discriminate].
      cbn [mbind option_bind]. intros H. injection H as <-.
      cbn [datap set_syms]. congruence.
    + intros H. injection H as <-. congruence.
Qed.

Lemma dodata_begin_datap cfg ext L L' :
  dodata_begin cfg ext L = Some L' -> sublist (datap L') (allsym L).
Proof.
  unfold dodata_begin. destruct (intern ext "gcdata1" (syms L)) as [g1 h1].
  destruct (intern ext "gcbss1" _) as [g2 h2].
  destruct (adduintxx_at cfg g1 0 (PtrSize cfg) _) as [h3|]; [|discriminate].
  cbn [mbind option_bind].
  destruct (adduintxx_at cfg g2 0 (PtrSize cfg) _) as [h4|]; [|discriminate].
  cbn [mbind option_bind].
  destruct (dodata_collect cfg h4 (allsym L)) as [l|] eqn:Ec; [|discriminate].
  cbn [mbind option_bind]. intros H. apply dodata_bounds_datap in H.
  rewrite H. cbn [datap set_datap]. eapply dodata_collect_sublist, Ec.
Qed.

(** C5, amended: after [dodata], every symbol of the data list has kind
    [SDATA] or [SRODATA], or a kind of the zeroed range
    ([SBSS <= kind < SXREF]): the symbols placed in [.bss] and [.noptrbss]
    keep their kind.  The list [allsym] has no repetition, as a linked list
    has none. *)
Theorem dodata_kinds cfg ext L L' :
  kind_order cfg -> NoDup (allsym L) ->
  dodata cfg ext L = Some L' ->
  forall id, id ∈ datap L' ->
    exists s', syms L' !! id = Some s'
      /\ (s_type s' = SDATA cfg \/ s_type s' = SRODATA cfg
          \/ SBSS cfg <= s_type s' < SXREF cfg).
Proof.
  intros HK Hnd H. unfold dodata in H.
  destruct (dodata_begin cfg ext L) as [L1|] eqn:E1; [|discriminate].
  cbn [mbind option_bind] in H.
  destruct (dynreloc cfg ext L1) as [L2|] eqn:E2; [|discriminate].
  cbn [mbind option_bind] in H.
  apply dodata_begin_datap in E1. apply dynreloc_datap in E2.
  eapply dodata_layout_kinds; [exact HK| |exact H].
  rewrite E2. eapply sublist_NoDup; eassumption.
Qed.

Lemma three_kinds :
  kinds_of (dodata amd64 ext0 three_link)
  = [Some (SRODATA amd64); Some (SDATA amd64); Some (SBSS amd64)].
Proof. vm_compute. reflexivity. Qed.

Lemma amd64_kind_order : kind_order amd64.
Proof. unfold kind_order. simpl. lia. Qed.

Lemma three_run : dodata amd64 ext0 three_link = Some three_done.
Proof. vm_compute. reflexivity. Qed.

Lemma dodata_kinds_witness :
  exists s', syms three_done !! 2%nat = Some s'
    /\ (s_type s' = SDATA amd64 \/ s_type s' = SRODATA amd64
        \/ SBSS amd64 <= s_type s' < SXREF amd64).
Proof.
  apply (dodata_kinds amd64 ext0 three_link three_done).
  - exact amd64_kind_order.
  - apply (bool_decide_unpack _). vm_compute. exact I.
  - exact three_run.
  - apply (bool_decide_unpack _). vm_compute. exact I.
Defined.

(** The zeroed symbol of [three_link] is in the data list after [dodata],
    and its kind is still [SBSS]. *)
Lemma dodata_bss_counterexample :
  dodata amd64 ext0 three_link = Some three_done
  /\ ~ (forall id, id ∈ datap three_done ->
          exists s', syms three_done !! id = Some s'
                     /\ (s_type s' = SDATA amd64 \/ s_type s' = SRODATA amd64)).
Proof.
  split; [exact three_run|]. intros H.
  destruct (H 2%nat) as (s' & Hs & Ht).
  - apply (bool_decide_unpack _). vm_compute. exact I.
  - vm_compute in Hs. injection Hs as <-. vm_compute in Ht.
    destruct Ht; discriminate.
Qed.

Lemma strcmp_lex a : forall b, strcmp a b <= 0 <-> lex_le (cstr a) (cstr b).
Proof.
  induction a as [|c a IH]; intros b.
  - simpl. pose proof (peek_nonneg b). split; [auto|lia].
  - pose proof (code_nonneg c) as Hc. cbn [strcmp cstr].
    destruct (code c =? 0) eqn:E0; cbn [orb].
    + pose proof (peek_nonneg b). simpl. split; [auto|lia].
    + destruct b as [|d b]; cbn [peek advance cstr].
      * replace (code c =? 0) with false by lia. simpl. lia.
      * pose proof (code_nonneg d) as Hd.
        destruct (code d =? 0) eqn:Ed.
        -- replace (code c =? code d) with false by lia. simpl. lia.
        -- cbn [lex_le]. destruct (code c =? code d) eqn:Ecd; cbn [negb].
           ++ rewrite IH. split; [right; split; [lia|assumption]|].
              intros [?|[_ ?]]; [lia|assumption].
           ++ split; [left; lia|]. intros [?|[? _]]; lia.
Qed.

(** [datcmp] orders by kind, then size, then name. *)
Lemma datcmp_key_le s1 s2 : datcmp s1 s2 <= 0 <-> key_le s1 s2.
Proof.
  unfold datcmp, key_le. rewrite <- strcmp_lex.
  destruct (s_type s1 =? s_type s2) eqn:Et; simpl; [|lia].
  destruct (s_size s1 =? s_size s2) eqn:Es; simpl; [lia|].
  destruct (s_size s1 <? s_size s2) eqn:E1; lia.
Qed.

Lemma dat_le_key_le h a b : dat_le h a b -> key_le_at h a b.
Proof.
  unfold dat_le, datcmp_at, key_le_at.
  destruct (h !! a), (h !! b); try exact (fun _ => I). apply datcmp_key_le.
Qed.

(** C2: the list [datsort] returns is sorted: each node compares [<= 0]
    with the next under [datcmp], that is, the keys (kind, size, name) never
    decrease, kinds compared as numbers, then sizes, then names byte by
    byte. *)
Theorem datsort_sorted (h : Heap) (l : list nat) :
  Sorted (fun a b => datcmp_at h a b <= 0) (datsort h l)
  /\ Sorted (key_le_at h) (datsort h l).
Proof.
  destruct (datsort_spec h l) as [_ Hs]. split; [exact Hs|].
  eapply Sorted_weaken; [|exact Hs]. intros a b _ _. apply dat_le_key_le.
Qed.

(** C10: the list [datsort] returns is a permutation of its input: the
    merge neither drops nor duplicates a node. *)
Theorem datsort_permutation (h : Heap) (l : list nat) :
  datsort h l ≡ₚ l
  /\ forall id, count_occ Nat.eq_dec (datsort h l) id = count_occ Nat.eq_dec l id.
Proof.
  destruct (datsort_spec h l) as [Hp _]. split; [exact Hp|].
  intros id. apply Permutation_count_occ. exact Hp.
Qed.

(** * More properties *)

(** ** The byte encoder *)

Lemma getuintxx_splice cfg s' p off wid v :
  tables_ok cfg -> wid = 1 \/ wid = 2 \/ wid = 4 \/ wid = 8 -> 0 <= off ->
  off <= Z.of_nat (length p) ->
  s_p s' = splice p (Z.to_nat off) (uint_image cfg wid v) ->
  getuintxx cfg s' off wid = v mod 2 ^ (8 * wid).
Proof.
  intros HT Hw Hoff Hp E.
  rewrite <- (splice_getuintxx cfg s' p off wid v HT Hw Hoff Hp).
  unfold getuintxx. cbn [s_p set_p]. rewrite E. reflexivity.
Qed.

Lemma mkSym_buf_ok name type size value p r : buf_ok (mkSym name type size value p r).
Proof.
  unfold buf_ok. cbn [mkSym s_np s_maxp s_p]. rewrite Nat2Z.id, drop_all, Z.sub_diag.
  repeat split; lia || reflexivity.
Qed.

(** X1: [adduintxx] appends.  On a symbol whose payload is its declared
    size, and while the new size stays within [2^30] (up to where
    [symgrow] returns), it returns the old size, the payload grows by exactly the [wid]
    bytes of [v] in target order, the records stay, a symbol without kind
    becomes [SDATA], and the integer read back at the returned offset is
    [v] on [8 * wid] bits. *)
Theorem adduintxx_appends cfg s v wid :
  tables_ok cfg -> enc_ok s -> s_size s + wid <= 2 ^ 30 ->
  wid = 1 \/ wid = 2 \/ wid = 4 \/ wid = 8 ->
  exists s',
    adduintxx cfg s v wid = Some (s_size s, s')
    /\ payload s' = payload s ++ uint_image cfg wid v
    /\ s_size s' = s_size s + wid
    /\ enc_ok s'
    /\ s_r s' = s_r s
    /\ s_type s' = (if s_type s =? 0 then SDATA cfg else s_type s)
    /\ s_reachable s' = true
    /\ getuintxx cfg s' (s_size s) wid = v mod 2 ^ (8 * wid).
Proof.
  intros HT He Hlt Hw.
  destruct (adduintxx_grown cfg s v wid HT He Hlt Hw) as (s' & H1 & G).
  pose proof (grown_by_fields _ _ _ _ _ G) as (F1 & F2 & _ & _ & _ & _ & F7 & F8).
  pose proof (uint_image_length cfg wid v HT Hw) as Hl.
  assert (H0 : 0 <= s_size s) by (destruct He as [(? & _) ?]; lia).
  exists s'. split; [exact H1|].
  split; [destruct G as (? & ? & _ & _ & G3); exact G3|].
  split; [lia|]. split; [exact (grown_enc _ _ _ _ _ G)|].
  split; [rewrite F2; apply app_nil_r|]. split; [exact F8|]. split; [exact F7|].
  unfold adduintxx in H1. rewrite int32_id in H1 by lia.
  destruct (setuintxx cfg s (s_size s) v wid) as [[o s1]|] eqn:E; [|discriminate].
  cbn [mbind option_bind] in H1. injection H1 as <-.
  destruct (setuintxx_inv _ _ _ _ _ _ _ HT H0 Hw E) as (p & _ & B & Hp).
  eapply getuintxx_splice; eauto. lia.
Qed.

Lemma adduintxx_appends_witness :
  exists s',
    adduintxx amd64 (newsym "x") 258 2 = Some (0, s')
    /\ payload s' = [] ++ uint_image amd64 2 258
    /\ s_size s' = 0 + 2
    /\ enc_ok s'
    /\ s_r s' = []
    /\ s_type s' = SDATA amd64
    /\ s_reachable s' = true
    /\ getuintxx amd64 s' 0 2 = 258.
Proof.
  apply (adduintxx_appends amd64 (newsym "x") 258 2).
  - exact amd64_tables_ok.
  - apply newsym_enc_ok.
  - vm_compute. discriminate.
  - auto.
Defined.

(** X2: [setuintxx] inside the payload overwrites in place.  When
    [off + wid] is within both the declared size and the payload, the call
    changes the [wid] bytes at [off] and nothing else of the bytes, keeps
    size, payload length and records, and the slot reads back as [v] on
    [8 * wid] bits. *)
Theorem setuintxx_in_place cfg s off v wid :
  tables_ok cfg -> buf_ok s ->
  0 <= off -> off + wid <= s_size s -> off + wid <= s_np s ->
  wid = 1 \/ wid = 2 \/ wid = 4 \/ wid = 8 ->
  exists s',
    setuintxx cfg s off v wid = Some (off, s')
    /\ s_size s' = s_size s /\ s_np s' = s_np s /\ s_r s' = s_r s
    /\ take (Z.to_nat off) (payload s') = take (Z.to_nat off) (payload s)
    /\ take (Z.to_nat wid) (drop (Z.to_nat off) (payload s')) = uint_image cfg wid v
    /\ drop (Z.to_nat (off + wid)) (payload s') = drop (Z.to_nat (off + wid)) (payload s)
    /\ getuintxx cfg s' off wid = v mod 2 ^ (8 * wid).
Proof.
  intros HT Hb Hoff Hsz Hnp Hw.
  pose proof (uint_image_length cfg wid v HT Hw) as Hl.
  pose proof (buf_ok_touch cfg s Hb) as Hb0.
  assert (Ht : s_size (touch cfg s) = s_size s /\ s_np (touch cfg s) = s_np s
               /\ s_r (touch cfg s) = s_r s /\ s_p (touch cfg s) = s_p s
               /\ payload (touch cfg s) = payload s).
  { unfold touch, payload. destruct (s_type s =? 0); simpl; auto. }
  destruct Ht as (T1 & T2 & T3 & T4 & T5).
  assert (Hlen : s_np s <= Z.of_nat (length (s_p s))).
  { destruct Hb as (B1 & B2 & B3 & _). rewrite <- B2. exact B3. }
  unfold setuintxx. fold (touch cfg s). rewrite T1.
  destruct (s_size s <? off + wid) eqn:E; [lia|]. cbn [mbind option_bind].
  rewrite setuintxx_put by (rewrite ?T4; try assumption; lia).
  cbn [mbind option_bind]. eexists. split; [reflexivity|].
  destruct (buf_ok_splice (touch cfg s) (Z.to_nat off) (uint_image cfg wid v) Hb0
              ltac:(rewrite T2; lia)) as [_ Hp].
  rewrite Hp, T5.
  assert (Lp : Z.of_nat (length (payload s)) = s_np s) by (apply payload_length, Hb).
  split; [exact T1|]. split; [exact T2|]. split; [exact T3|].
  split; [|split; [|split]].
  - unfold splice. rewrite take_app_length'; [reflexivity|]. rewrite length_take. lia.
  - replace (Z.to_nat wid) with (length (uint_image cfg wid v)) by lia.
    apply splice_read. lia.
  - apply splice_drop; lia.
  - eapply getuintxx_splice; [exact HT|exact Hw|exact Hoff| |reflexivity].
    cbn [s_p set_p]. rewrite ?T4. lia.
Qed.

Lemma setuintxx_in_place_witness :
  exists s',
    setuintxx amd64 (mkSym "x" 16 8 0 [1; 2; 3; 4; 5; 6; 7; 8] []) 2 772 2 = Some (2, s')
    /\ s_size s' = 8 /\ s_np s' = 8 /\ s_r s' = []
    /\ take 2 (payload s') = [1; 2]
    /\ take 2 (drop 2 (payload s')) = uint_image amd64 2 772
    /\ drop 4 (payload s') = [5; 6; 7; 8]
    /\ getuintxx amd64 s' 2 2 = 772.
Proof.
  apply (setuintxx_in_place amd64 (mkSym "x" 16 8 0 [1; 2; 3; 4; 5; 6; 7; 8] []) 2 772 2).
  - exact amd64_tables_ok.
  - apply mkSym_buf_ok.
  - lia.
  - simpl. lia.
  - simpl. lia.
  - auto.
Defined.

Lemma grown_payload cfg s s' bs rs : grown_by cfg s s' bs rs -> payload s' = payload s ++ bs.
Proof. intros (? & ? & _ & _ & H). exact H. Qed.

(** X3: [addaddrplus] (and [addaddr], its case [add = 0]) appends a
    pointer slot, while the new size stays within [2^30]: it returns the
    old size, the payload grows by [PtrSize]
    zero bytes, and exactly one record is appended, of type [D_ADDR], at the
    old size, of size [PtrSize], with the addend and the target given. *)
Theorem addaddrplus_appends cfg s t add :
  enc_ok s -> 0 <= PtrSize cfg -> s_size s + PtrSize cfg <= 2 ^ 30 ->
  exists s',
    addaddrplus cfg s t add = Some (s_size s, s')
    /\ payload s' = payload s ++ replicate (Z.to_nat (PtrSize cfg)) 0
    /\ s_r s' = s_r s ++ [mkReloc (s_size s) (PtrSize cfg) (D_ADDR cfg) (int32 add) t]
    /\ s_size s' = s_size s + PtrSize cfg
    /\ enc_ok s'
    /\ s_type s' = (if s_type s =? 0 then SDATA cfg else s_type s)
    /\ (add = 0 -> addaddr cfg s t = Some (s_size s, s')).
Proof.
  intros He Hp Hlt.
  destruct (addaddrplus_grown cfg s t add He Hp Hlt) as (s' & H1 & G).
  pose proof (grown_by_fields _ _ _ _ _ G) as (F1 & F2 & _ & _ & _ & _ & _ & F8).
  rewrite length_replicate, Z2Nat.id in F1 by lia.
  exists s'. split; [exact H1|]. split; [exact (grown_payload _ _ _ _ _ G)|].
  split; [exact F2|]. split; [exact F1|]. split; [exact (grown_enc _ _ _ _ _ G)|].
  split; [exact F8|]. intros ->. exact H1.
Qed.

Lemma addaddrplus_appends_witness :
  exists s',
    addaddrplus amd64 (newsym "x") (Some 7%nat) 5 = Some (0, s')
    /\ payload s' = [] ++ replicate 8 0
    /\ s_r s' = [] ++ [mkReloc 0 8 (D_ADDR amd64) 5 (Some 7%nat)]
    /\ s_size s' = 0 + 8
    /\ enc_ok s'
    /\ s_type s' = SDATA amd64
    /\ (5 = 0 -> addaddr amd64 (newsym "x") (Some 7%nat) = Some (0, s')).
Proof.
  apply (addaddrplus_appends amd64 (newsym "x") (Some 7%nat) 5).
  - apply newsym_enc_ok.
  - simpl. lia.
  - vm_compute. discriminate.
Defined.

Lemma addsize_grown cfg s t :
  enc_ok s -> 0 <= PtrSize cfg -> s_size s + PtrSize cfg <= 2 ^ 30 ->
  exists s', addsize cfg s t = Some (s_size s, s')
    /\ grown_by cfg s s' (replicate (Z.to_nat (PtrSize cfg)) 0)
         [mkReloc (s_size s) (PtrSize cfg) (D_SIZE cfg) 0 t].
Proof.
  intros He Hp Hlt.
  destruct (addslot_grown cfg s (PtrSize cfg)
              (mkReloc (s_size s) (PtrSize cfg) (D_SIZE cfg) 0 t) He Hp Hlt)
    as (s' & H1 & H2).
  exists s'. split; [|exact H2]. rewrite <- H1. unfold addsize, touch.
  destruct (s_type s =? 0); reflexivity.
Qed.

Lemma addpcrelplus_grown cfg s t add :
  enc_ok s -> s_size s + 4 <= 2 ^ 30 ->
  exists s', addpcrelplus cfg s t add = Some (s_size s, s')
    /\ grown_by cfg s s' [0; 0; 0; 0]
         [mkReloc (s_size s) 4 (D_PCREL cfg) (int32 add) t].
Proof.
  intros He Hlt.
  destruct (addslot_grown cfg s 4
              (mkReloc (s_size s) 4 (D_PCREL cfg) (int32 add) t) He ltac:(lia) Hlt)
    as (s' & H1 & H2).
  exists s'. split; [|exact H2]. rewrite <- H1. unfold addpcrelplus, touch.
  destruct (s_type s =? 0); reflexivity.
Qed.

(** X4: the other slot adders, while the new size stays within [2^30].
    [addaddrplus4] and [addpcrelplus] append
    four zero bytes and one record of size 4, of type [D_ADDR] and
    [D_PCREL]; [addsize] appends [PtrSize] zero bytes and one record of type
    [D_SIZE] with addend 0.  Each returns the old size. *)
Theorem slot_adders_append cfg s t add :
  enc_ok s -> 0 <= PtrSize cfg -> s_size s + PtrSize cfg <= 2 ^ 30 ->
  s_size s + 4 <= 2 ^ 30 ->
  (exists s',
     addaddrplus4 cfg s t add = Some (s_size s, s')
     /\ payload s' = payload s ++ [0; 0; 0; 0]
     /\ s_r s' = s_r s ++ [mkReloc (s_size s) 4 (D_ADDR cfg) (int32 add) t]
     /\ s_size s' = s_size s + 4 /\ enc_ok s')
  /\ (exists s',
        addpcrelplus cfg s t add = Some (s_size s, s')
        /\ payload s' = payload s ++ [0; 0; 0; 0]
        /\ s_r s' = s_r s ++ [mkReloc (s_size s) 4 (D_PCREL cfg) (int32 add) t]
        /\ s_size s' = s_size s + 4 /\ enc_ok s')
  /\ (exists s',
        addsize cfg s t = Some (s_size s, s')
        /\ payload s' = payload s ++ replicate (Z.to_nat (PtrSize cfg)) 0
        /\ s_r s' = s_r s ++ [mkReloc (s_size s) (PtrSize cfg) (D_SIZE cfg) 0 t]
        /\ s_size s' = s_size s + PtrSize cfg /\ enc_ok s').
Proof.
  intros He Hp Hlt Hlt4. split; [|split].
  - destruct (addaddrplus4_grown cfg s t add He Hlt4) as (s' & H1 & G).
    pose proof (grown_by_fields _ _ _ _ _ G) as (F1 & F2 & _).
    exists s'. split; [exact H1|]. split; [exact (grown_payload _ _ _ _ _ G)|].
    split; [exact F2|]. split; [exact F1|exact (grown_enc _ _ _ _ _ G)].
  - destruct (addpcrelplus_grown cfg s t add He Hlt4) as (s' & H1 & G).
    pose proof (grown_by_fields _ _ _ _ _ G) as (F1 & F2 & _).
    exists s'. split; [exact H1|]. split; [exact (grown_payload _ _ _ _ _ G)|].
    split; [exact F2|]. split; [exact F1|exact (grown_enc _ _ _ _ _ G)].
  - destruct (addsize_grown cfg s t He Hp Hlt) as (s' & H1 & G).
    pose proof (grown_by_fields _ _ _ _ _ G) as (F1 & F2 & _).
    rewrite length_replicate, Z2Nat.id in F1 by lia.
    exists s'. split; [exact H1|]. split; [exact (grown_payload _ _ _ _ _ G)|].
    split; [exact F2|]. split; [exact F1|exact (grown_enc _ _ _ _ _ G)].
Qed.

Lemma slot_adders_append_witness :
  (exists s',
     addaddrplus4 amd64 (newsym "x") (Some 7%nat) 5 = Some (0, s')
     /\ payload s' = [] ++ [0; 0; 0; 0]
     /\ s_r s' = [] ++ [mkReloc 0 4 (D_ADDR amd64) 5 (Some 7%nat)]
     /\ s_size s' = 0 + 4 /\ enc_ok s')
  /\ (exists s',
        addpcrelplus amd64 (newsym "x") (Some 7%nat) 5 = Some (0, s')
        /\ payload s' = [] ++ [0; 0; 0; 0]
        /\ s_r s' = [] ++ [mkReloc 0 4 (D_PCREL amd64) 5 (Some 7%nat)]
        /\ s_size s' = 0 + 4 /\ enc_ok s')
  /\ (exists s',
        addsize amd64 (newsym "x") (Some 7%nat) = Some (0, s')
        /\ payload s' = [] ++ replicate 8 0
        /\ s_r s' = [] ++ [mkReloc 0 8 (D_SIZE amd64) 0 (Some 7%nat)]
        /\ s_size s' = 0 + 8 /\ enc_ok s').
Proof.
  apply (slot_adders_append amd64 (newsym "x") (Some 7%nat) 5).
  - apply newsym_enc_ok.
  - simpl. lia.
  - vm_compute. discriminate.
  - vm_compute. discriminate.
Defined.

(** X5: [symgrow] never shrinks and fills with zeros.  On a consistent
    buffer and for [siz] up to [2^30] it returns (past that the doubling of
    the capacity wraps and may never end); the payload length becomes the
    larger of the old length and [siz]; the old payload is kept and what is
    added is zero; the buffer stays consistent (so the bytes past the
    payload are zero); with [siz] at most the payload length nothing
    changes; size, kind and records are never touched. *)
Theorem symgrow_extends s siz :
  buf_ok s -> siz <= 2 ^ 30 ->
  exists s',
    symgrow s siz = Some s'
    /\ buf_ok s'
    /\ s_np s' = Z.max (s_np s) siz
    /\ payload s' = payload s ++ replicate (Z.to_nat (siz - s_np s)) 0
    /\ (siz <= s_np s -> s' = s)
    /\ s_size s' = s_size s /\ s_type s' = s_type s /\ s_r s' = s_r s.
Proof.
  intros Hb Hs. destruct (symgrow_spec s siz Hb Hs) as (m & p & H1 & H2 & H3).
  eexists. split; [exact H1|]. split; [exact H2|]. split; [reflexivity|].
  split; [exact H3|]. split; [|repeat split].
  intros Hle. unfold symgrow in H1. destruct (s_np s >=? siz) eqn:E; [|lia].
  congruence.
Qed.

Lemma symgrow_extends_witness :
  exists s',
    symgrow (mkSym "x" 16 8 0 [1; 2; 3] []) 6 = Some s'
    /\ buf_ok s'
    /\ s_np s' = Z.max 3 6
    /\ payload s' = [1; 2; 3] ++ replicate (Z.to_nat (6 - 3)) 0
    /\ (6 <= 3 -> s' = mkSym "x" 16 8 0 [1; 2; 3] [])
    /\ s_size s' = 8 /\ s_type s' = 16 /\ s_r s' = [].
Proof.
  apply (symgrow_extends (mkSym "x" 16 8 0 [1; 2; 3] []) 6).
  - apply mkSym_buf_ok.
  - lia.
Defined.

Lemma addrel_buf_ok x r : buf_ok x -> buf_ok (addrel x r).
Proof. intros H. exact H. Qed.

Lemma addrel_payload x r : payload (addrel x r) = payload x.
Proof. reflexivity. Qed.

(** X6: [setaddrplus] (and [setaddr], its case [add = 0]) records an
    address at [off], with [off + PtrSize] within [2^30], without writing a
    byte: one record of type [D_ADDR] and
    size [PtrSize] is appended; the symbol is grown with zeros when
    [off + PtrSize] is past its size, and is otherwise left as it is. *)
Theorem setaddrplus_records cfg s off t add :
  enc_ok s -> 0 <= off -> 0 <= PtrSize cfg -> off + PtrSize cfg <= 2 ^ 30 ->
  exists s',
    setaddrplus cfg s off t add = Some (off, s')
    /\ s_r s' = s_r s ++ [mkReloc off (PtrSize cfg) (D_ADDR cfg) (int32 add) t]
    /\ s_size s' = Z.max (s_size s) (off + PtrSize cfg)
    /\ payload s' = payload s ++ replicate (Z.to_nat (off + PtrSize cfg - s_size s)) 0
    /\ enc_ok s'
    /\ (add = 0 -> setaddr cfg s off t = Some (off, s')).
Proof.
  intros [Hb Hnp] Hoff Hp Hlt.
  pose proof (buf_ok_touch cfg s Hb) as Hb0.
  assert (Ht : s_size (touch cfg s) = s_size s /\ s_np (touch cfg s) = s_np s
               /\ s_r (touch cfg s) = s_r s /\ payload (touch cfg s) = payload s).
  { unfold touch, payload. destruct (s_type s =? 0); simpl; auto. }
  destruct Ht as (T1 & T2 & T3 & T5).
  unfold setaddr, setaddrplus. fold (touch cfg s). rewrite T1.
  destruct (off + PtrSize cfg >? s_size s) eqn:E.
  - rewrite (int32_id (off + PtrSize cfg)) by lia.
    assert (Hb1 : buf_ok (set_size (touch cfg s) (off + PtrSize cfg))) by exact Hb0.
    destruct (symgrow_spec _ (off + PtrSize cfg) Hb1 Hlt) as (m & p & H1 & H2 & H3).
    rewrite H1. cbn [mbind option_bind].
    change (s_np (set_size (touch cfg s) (off + PtrSize cfg))) with (s_np (touch cfg s)) in *.
    change (payload (set_size (touch cfg s) (off + PtrSize cfg)))
      with (payload (touch cfg s)) in *.
    rewrite T2, ?T5, Hnp in *. rewrite Z.max_r in * by lia.
    eexists. split; [reflexivity|].
    split; [unfold touch; destruct (s_type s =? 0); reflexivity|].
    split; [unfold touch; destruct (s_type s =? 0); cbn [s_size addrel rebuf set_r set_p
              set_maxp set_np set_size set_type set_reachable]; lia|].
    split; [rewrite addrel_payload; exact H3|].
    split; [split|].
    + apply addrel_buf_ok. exact H2.
    + unfold touch; destruct (s_type s =? 0); cbn [s_size s_np addrel rebuf set_r set_p
        set_maxp set_np set_size set_type set_reachable]; reflexivity.
    + intros ->. reflexivity.
  - cbn [mbind option_bind]. eexists. split; [reflexivity|].
    split; [unfold touch; destruct (s_type s =? 0); reflexivity|].
    split; [unfold touch; destruct (s_type s =? 0); cbn [s_size addrel rebuf set_r set_p
              set_maxp set_np set_size set_type set_reachable]; lia|].
    split.
    + change (payload (addrel ?x ?r)) with (payload x). rewrite T5.
      replace (Z.to_nat (off + PtrSize cfg - s_size s)) with 0%nat by lia.
      simpl. rewrite app_nil_r. reflexivity.
    + split; [split|].
      * change (buf_ok (addrel ?x ?r)) with (buf_ok x). exact Hb0.
      * change (s_np (addrel ?x ?r)) with (s_np x).
        change (s_size (addrel ?x ?r)) with (s_size x). rewrite T1, T2. exact Hnp.
      * intros ->. reflexivity.
Qed.

Lemma setaddrplus_records_witness :
  exists s',
    setaddrplus amd64 (newsym "x") 8 (Some 7%nat) 0 = Some (8, s')
    /\ s_r s' = [] ++ [mkReloc 8 8 (D_ADDR amd64) 0 (Some 7%nat)]
    /\ s_size s' = Z.max 0 (8 + 8)
    /\ payload s' = [] ++ replicate (Z.to_nat (8 + 8 - 0)) 0
    /\ enc_ok s'
    /\ (0 = 0 -> setaddr amd64 (newsym "x") 8 (Some 7%nat) = Some (8, s')).
Proof.
  apply (setaddrplus_records amd64 (newsym "x") 8 (Some 7%nat) 0).
  - apply newsym_enc_ok.
  - lia.
  - simpl. lia.
  - vm_compute. discriminate.
Defined.

(** ** More of the relocation resolver *)

(** X7: one turn of [relocsym] on a record of type [D_ADDR], when linking
    an executable: the bytes [off, off+siz) of the payload become the image
    of [symaddr(target) + add], and the field reads back as that value on
    [8 * siz] bits. *)
Theorem relocsym_addr cfg ext L sid s r t ts :
  tables_ok cfg -> D_ADDR cfg < 256 ->
  SMASK cfg <> 0 -> SMASK cfg <> SXREF cfg ->
  isobj cfg = false ->
  syms L !! sid = Some s ->
  s_np s <= Z.of_nat (length (s_p s)) -> s_np s < 2 ^ 31 ->
  r_type r = D_ADDR cfg -> r_sym r = Some t -> syms L !! t = Some ts ->
  r_siz r = 4 \/ r_siz r = 8 ->
  0 <= r_off r -> r_off r + r_siz r <= s_np s ->
  exists L' p',
    relocsym_step cfg ext sid r L = Some L'
    /\ syms L' = <[sid := set_p s p']> (syms L)
    /\ take (Z.to_nat (r_siz r)) (drop (Z.to_nat (r_off r)) p')
       = uint_image cfg (r_siz r) (symaddr ts + r_add r)
    /\ getuintxx cfg (set_p s p') (r_off r) (r_siz r)
       = (symaddr ts + r_add r) mod 2 ^ (8 * r_siz r).
Proof.
  intros HT Hlt Hm0 Hmx Hobj Hs Hbuf Hnp Hty Hsym Hts Hsiz Hoff Hin.
  destruct (relocsym_step_value cfg ext L sid s r (Some ts) (symaddr ts + r_add r) [])
    as (L' & p' & E & Eh & Ep & Eg); try assumption.
  - lia.
  - rewrite Hsym, Hts. reflexivity.
  - unfold reloc_value. rewrite Hty, Z.eqb_refl. cbn [mbind option_bind].
    rewrite Hobj. reflexivity.
  - exists L', p'. split; [exact E|]. split; [exact Eh|]. split; [|exact Eg].
    subst p'.
    assert (Hw : r_siz r = 1 \/ r_siz r = 2 \/ r_siz r = 4 \/ r_siz r = 8)
      by (destruct Hsiz; auto).
    pose proof (uint_image_length cfg (r_siz r) (symaddr ts + r_add r) HT Hw) as Hl.
    replace (Z.to_nat (r_siz r))
      with (length (uint_image cfg (r_siz r) (symaddr ts + r_add r))) by lia.
    apply splice_read. lia.
Qed.

Lemma relocsym_addr_witness :
  exists L' p',
    relocsym_step amd64 ext0 0 S1_reloc (S1_link 4206592) = Some L'
    /\ syms L' = <[0%nat := set_p S1_a p']> (syms (S1_link 4206592))
    /\ take 8 (drop 0 p') = uint_image amd64 8 (4206592 + 0)
    /\ getuintxx amd64 (set_p S1_a p') 0 8 = 4206592.
Proof.
  apply (relocsym_addr amd64 ext0 (S1_link 4206592) 0 S1_a S1_reloc 1 (S1_b 4206592));
    try reflexivity; try (vm_compute; discriminate).
  - exact amd64_tables_ok.
  - right. reflexivity.
Defined.

(** X8: an address added with [addaddrplus] (the new size within [2^30])
    holds the address of its target after its record is resolved: [addaddrplus(s, t, add)] followed
    by the turn of [relocsym] on the record it appended leaves
    [symaddr(t) + add] in the new slot and the bytes before it as they
    were. *)
Theorem addaddrplus_resolves cfg ext L sid s t ts add :
  tables_ok cfg -> PtrSize cfg = 4 \/ PtrSize cfg = 8 -> D_ADDR cfg < 256 ->
  SMASK cfg <> 0 -> SMASK cfg <> SXREF cfg -> isobj cfg = false ->
  syms L !! sid = Some s -> enc_ok s -> s_size s + PtrSize cfg <= 2 ^ 30 ->
  syms L !! t = Some ts ->
  exists s1 L' s2,
    addaddrplus cfg s (Some t) add = Some (s_size s, s1)
    /\ relocsym_step cfg ext sid
         (mkReloc (s_size s) (PtrSize cfg) (D_ADDR cfg) (int32 add) (Some t))
         (set_syms L (<[sid := s1]> (syms L))) = Some L'
    /\ syms L' !! sid = Some s2
    /\ getuintxx cfg s2 (s_size s) (PtrSize cfg)
       = (symaddr ts + int32 add) mod 2 ^ (8 * PtrSize cfg)
    /\ take (Z.to_nat (s_size s)) (s_p s2) = payload s.
Proof.
  intros HT HP Hlt Hm0 Hmx Hobj Hs He Hsz Hts.
  destruct (addaddrplus_grown cfg s (Some t) add He ltac:(lia) Hsz) as (s1 & H1 & G).
  pose proof (grown_by_fields _ _ _ _ _ G) as (F1 & F2 & _ & _ & _ & F6 & _).
  rewrite length_replicate, Z2Nat.id in F1 by lia.
  pose proof (grown_enc _ _ _ _ _ G) as [Hb1 Hnp1].
  pose proof (grown_payload _ _ _ _ _ G) as Hp1.
  assert (H0 : 0 <= s_size s) by (destruct He as [(? & _) ?]; lia).
  set (r := mkReloc (s_size s) (PtrSize cfg) (D_ADDR cfg) (int32 add) (Some t)).
  set (L1 := set_syms L (<[sid := s1]> (syms L))).
  assert (Hs1 : syms L1 !! sid = Some s1) by apply lookup_insert_eq.
  assert (Ht1 : exists ts', syms L1 !! t = Some ts' /\ symaddr ts' = symaddr ts).
  { unfold L1. cbn [syms set_syms]. destruct (decide (t = sid)) as [->|Hn].
    - rewrite lookup_insert_eq. exists s1. split; [reflexivity|].
      unfold symaddr. rewrite F6. congruence.
    - rewrite lookup_insert_ne by congruence. eauto. }
  destruct Ht1 as (ts' & Hts' & Ea).
  assert (Hlen1 : s_np s1 <= Z.of_nat (length (s_p s1))).
  { destruct Hb1 as (B1 & B2 & B3 & _). rewrite <- B2. exact B3. }
  assert (A1 : s_np s1 < 2 ^ 31) by lia.
  assert (A2 : r_type r < 256) by exact Hlt.
  assert (A3 : r_siz r = 4 \/ r_siz r = 8) by exact HP.
  assert (A4 : 0 <= r_off r) by exact H0.
  assert (A5 : r_off r + r_siz r <= s_np s1) by (cbn [r_off r_siz r mkReloc]; lia).
  assert (A6 : match r_sym r with
               | None => Some None
               | Some t => ts ← syms L1 !! t; Some (Some ts)
               end = Some (Some ts')).
  { cbn [r_sym r mkReloc]. rewrite Hts'. reflexivity. }
  assert (A7 : reloc_value cfg ext (syms L1) s1 r (Some ts')
               = Some (symaddr ts' + r_add r, [])).
  { unfold reloc_value. cbn [r_type r mkReloc]. rewrite Z.eqb_refl.
    cbn [mbind option_bind]. rewrite Hobj. reflexivity. }
  destruct (relocsym_step_value cfg ext L1 sid s1 r (Some ts') (symaddr ts' + r_add r) []
              HT Hm0 Hmx Hs1 Hlen1 A1 A2 A3 A4 A5 A6 A7)
    as (L' & p' & E & Eh & Ep & Eg).
  - exists s1, L', (set_p s1 p'). split; [exact H1|]. split; [exact E|].
    split; [rewrite Eh; apply lookup_insert_eq|]. split.
    + rewrite Ea in Eg. exact Eg.
    + cbn [s_p set_p]. subst p'. cbn [r_off r mkReloc]. unfold splice.
      rewrite take_app_length' by (rewrite length_take; lia).
      pose proof (payload_length s (proj1 He)) as Lp.
      transitivity (take (Z.to_nat (s_size s)) (payload s1)).
      * unfold payload. rewrite take_take. f_equal. lia.
      * rewrite Hp1. apply take_app_length'. destruct He as [_ Hn]. lia.
Qed.

Lemma addaddrplus_resolves_witness :
  exists s1 L' s2,
    addaddrplus amd64 S1_a (Some 1%nat) 4 = Some (s_size S1_a, s1)
    /\ relocsym_step amd64 ext0 0
         (mkReloc (s_size S1_a) (PtrSize amd64) (D_ADDR amd64) (int32 4)
            (Some 1%nat))
         (set_syms (S1_link 4206592) (<[0%nat := s1]> (syms (S1_link 4206592))))
       = Some L'
    /\ syms L' !! 0%nat = Some s2
    /\ getuintxx amd64 s2 (s_size S1_a) (PtrSize amd64)
       = (symaddr (S1_b 4206592) + int32 4) mod 2 ^ (8 * PtrSize amd64)
    /\ take (Z.to_nat (s_size S1_a)) (s_p s2) = payload S1_a.
Proof.
  apply (addaddrplus_resolves amd64 ext0 (S1_link 4206592) 0 S1_a 1
           (S1_b 4206592) 4).
  - exact amd64_tables_ok.
  - right. reflexivity.
  - reflexivity.
  - vm_compute. discriminate.
  - vm_compute. discriminate.
  - reflexivity.
  - reflexivity.
  - split; [apply mkSym_buf_ok|reflexivity].
  - vm_compute. discriminate.
  - reflexivity.
Defined.

(** X9: one turn of [relocsym] on a record of type [D_SIZE]: the bytes
    [off, off+siz) become the image of [target.size + add]. *)
Theorem relocsym_size cfg ext L sid s r t ts :
  tables_ok cfg -> D_SIZE cfg < 256 ->
  D_SIZE cfg <> D_ADDR cfg -> D_SIZE cfg <> D_PCREL cfg ->
  SMASK cfg <> 0 -> SMASK cfg <> SXREF cfg ->
  syms L !! sid = Some s ->
  s_np s <= Z.of_nat (length (s_p s)) -> s_np s < 2 ^ 31 ->
  r_type r = D_SIZE cfg -> r_sym r = Some t -> syms L !! t = Some ts ->
  r_siz r = 4 \/ r_siz r = 8 ->
  0 <= r_off r -> r_off r + r_siz r <= s_np s ->
  exists L' p',
    relocsym_step cfg ext sid r L = Some L'
    /\ syms L' = <[sid := set_p s p']> (syms L)
    /\ take (Z.to_nat (r_siz r)) (drop (Z.to_nat (r_off r)) p')
       = uint_image cfg (r_siz r) (s_size ts + r_add r)
    /\ getuintxx cfg (set_p s p') (r_off r) (r_siz r)
       = (s_size ts + r_add r) mod 2 ^ (8 * r_siz r).
Proof.
  intros HT Hlt Hna Hnp' Hm0 Hmx Hs Hbuf Hnp Hty Hsym Hts Hsiz Hoff Hin.
  assert (A2 : r_type r < 256) by lia.
  assert (A6 : match r_sym r with
               | None => Some None
               | Some t => ts ← syms L !! t; Some (Some ts)
               end = Some (Some ts)) by (rewrite Hsym, Hts; reflexivity).
  assert (A7 : reloc_value cfg ext (syms L) s r (Some ts)
               = Some (s_size ts + r_add r, [])).
  { unfold reloc_value. rewrite Hty.
    destruct (D_SIZE cfg =? D_ADDR cfg) eqn:E1; [lia|].
    destruct (D_SIZE cfg =? D_PCREL cfg) eqn:E2; [lia|].
    rewrite Z.eqb_refl. reflexivity. }
  destruct (relocsym_step_value cfg ext L sid s r (Some ts) (s_size ts + r_add r) []
              HT Hm0 Hmx Hs Hbuf Hnp A2 Hsiz Hoff Hin A6 A7)
    as (L' & p' & E & Eh & Ep & Eg).
  exists L', p'. split; [exact E|]. split; [exact Eh|]. split; [|exact Eg].
  subst p'.
  assert (Hw : r_siz r = 1 \/ r_siz r = 2 \/ r_siz r = 4 \/ r_siz r = 8)
    by (destruct Hsiz; auto).
  pose proof (uint_image_length cfg (r_siz r) (s_size ts + r_add r) HT Hw) as Hl.
  replace (Z.to_nat (r_siz r))
    with (length (uint_image cfg (r_siz r) (s_size ts + r_add r))) by lia.
  apply splice_read. lia.
Qed.

Lemma relocsym_size_witness :
  exists L' p',
    relocsym_step amd64 ext0 0 (mkReloc 0 8 (D_SIZE amd64) 1 (Some 1%nat))
      (S1_link 4206592) = Some L'
    /\ syms L' = <[0%nat := set_p S1_a p']> (syms (S1_link 4206592))
    /\ take 8 (drop 0 p') = uint_image amd64 8 (16 + 1)
    /\ getuintxx amd64 (set_p S1_a p') 0 8 = 17.
Proof.
  apply (relocsym_size amd64 ext0 (S1_link 4206592) 0 S1_a
           (mkReloc 0 8 (D_SIZE amd64) 1 (Some 1%nat)) 1 (S1_b 4206592));
    try reflexivity; try (vm_compute; discriminate).
  - exact amd64_tables_ok.
  - right. reflexivity.
Defined.

(** X10: the records [relocsym] passes over, for records whose end
    [off + siz] is below [2^31], so that the [int32] sum of the bounds test
    does not wrap.  A record that does not lie inside the payload
    ([off < 0] or [off + siz > np]) is reported as invalid and no byte is
    written; a record inside the payload whose type is 256 or more is left
    to others: no byte is written and nothing is reported. *)
Theorem relocsym_skips cfg ext L sid s r :
  syms L !! sid = Some s ->
  - 2 ^ 31 <= r_off r -> 0 <= r_siz r < 256 -> r_off r + r_siz r < 2 ^ 31 ->
  (r_off r < 0 \/ r_off r + r_siz r > s_np s ->
   exists L',
     relocsym_step cfg ext sid r L = Some L'
     /\ syms L' = syms L
     /\ diags L' = diags L ++ [InvalidRelocation (s_name s) (r_off r) (r_siz r) (s_np s)])
  /\ (0 <= r_off r -> r_off r + r_siz r <= s_np s -> 256 <= r_type r ->
      SMASK cfg <> 0 -> SMASK cfg <> SXREF cfg ->
      (forall t, r_sym r = Some t -> is_Some (syms L !! t)) ->
      exists L',
        relocsym_step cfg ext sid r L = Some L'
        /\ syms L' = syms L /\ diags L' = diags L).
Proof.
  intros Hs Hoff Hsiz Hend.
  assert (Eoff : int32 (r_off r) = r_off r) by (apply int32_id; lia).
  assert (Esiz : int32 (r_siz r) = r_siz r) by (apply int32_id; lia).
  assert (Esum : int32 (r_off r + r_siz r) = r_off r + r_siz r)
    by (apply int32_id; lia).
  split.
  - intros Hout. unfold relocsym_step, relocsym_eval. rewrite Hs.
    cbn [mbind option_bind]. rewrite Eoff, Esiz, Esum.
    replace ((r_off r <? 0) || (r_off r + r_siz r >? s_np s)) with true
      by (destruct (r_off r <? 0) eqn:E1, (r_off r + r_siz r >? s_np s) eqn:E2;
          try reflexivity; lia).
    cbn [mbind option_bind]. eexists. split; [reflexivity|]. split; reflexivity.
  - intros H0 Hin Hty Hm0 Hmx Htg. unfold relocsym_step, relocsym_eval. rewrite Hs.
    cbn [mbind option_bind]. rewrite Eoff, Esiz, Esum.
    destruct (r_off r <? 0) eqn:E1; [lia|].
    destruct (r_off r + r_siz r >? s_np s) eqn:E2; [lia|]. cbn [orb].
    destruct (r_sym r) as [t|].
    + destruct (Htg t eq_refl) as [ts Hts]. rewrite Hts. cbn [mbind option_bind].
      rewrite reloc_undefined_false by assumption.
      destruct (r_type r >=? 256) eqn:E3; [|lia]. cbn [mbind option_bind].
      eexists. split; [reflexivity|]. split; [reflexivity|]. apply app_nil_r.
    + cbn [mbind option_bind].
      destruct (r_type r >=? 256) eqn:E3; [|lia]. cbn [mbind option_bind].
      eexists. split; [reflexivity|]. split; [reflexivity|]. apply app_nil_r.
Qed.

Lemma relocsym_skips_witness :
  exists L',
    relocsym_step amd64 ext0 0 (mkReloc 4 8 (D_ADDR amd64) 0 (Some 1%nat))
      (S1_link 4206592) = Some L'
    /\ syms L' = syms (S1_link 4206592)
    /\ diags L' = [] ++ [InvalidRelocation "a" 4 8 8].
Proof.
  apply (relocsym_skips amd64 ext0 (S1_link 4206592) 0 S1_a
           (mkReloc 4 8 (D_ADDR amd64) 0 (Some 1%nat))).
  - reflexivity.
  - simpl. lia.
  - simpl. lia.
  - simpl. lia.
  - right. simpl. lia.
Defined.

Lemma relocsym_store_default cfg off siz o p :
  siz <> 8 -> relocsym_store cfg off siz o p = relocsym_store cfg off 4 o p.
Proof.
  intros H. unfold relocsym_store. destruct (siz =? 8) eqn:E; [lia|]. reflexivity.
Qed.

(** X11: a record of a size other than 4 and 8.  [relocsym] reports the
    bad size and then stores all the same, as for size 4: the four bytes at
    [off] become the image of the value, whatever the size of the record
    (shown for a record of type [D_ADDR] in an executable). *)
Theorem relocsym_bad_size cfg ext L sid s r t ts :
  tables_ok cfg -> D_ADDR cfg < 256 ->
  SMASK cfg <> 0 -> SMASK cfg <> SXREF cfg -> isobj cfg = false ->
  syms L !! sid = Some s ->
  r_type r = D_ADDR cfg -> r_sym r = Some t -> syms L !! t = Some ts ->
  0 <= r_siz r < 256 -> r_siz r <> 4 -> r_siz r <> 8 ->
  0 <= r_off r -> r_off r + r_siz r <= s_np s -> s_np s < 2 ^ 31 ->
  r_off r + 4 <= Z.of_nat (length (s_p s)) ->
  exists L' p',
    relocsym_step cfg ext sid r L = Some L'
    /\ BadRelocSize (r_siz r) (s_name ts) ∈ diags L'
    /\ syms L' = <[sid := set_p s p']> (syms L)
    /\ take 4 (drop (Z.to_nat (r_off r)) p') = uint_image cfg 4 (symaddr ts + r_add r)
    /\ length p' = length (s_p s).
Proof.
  intros HT Hlt Hm0 Hmx Hobj Hs Hty Hsym Hts Hsiz Hn4 Hn8 Hoff Hin Hnp Hroom.
  assert (Eoff : int32 (r_off r) = r_off r) by (apply int32_id; lia).
  assert (Esiz : int32 (r_siz r) = r_siz r) by (apply int32_id; lia).
  pose proof (uint_image_length cfg 4 (symaddr ts + r_add r) HT ltac:(auto)) as Hl.
  unfold relocsym_step, relocsym_eval. rewrite Hs. cbn [mbind option_bind].
  rewrite Eoff, Esiz. rewrite (int32_id (r_off r + r_siz r)) by lia.
  destruct (r_off r <? 0) eqn:E1; [lia|].
  destruct (r_off r + r_siz r >? s_np s) eqn:E2; [lia|]. cbn [orb].
  rewrite Hsym, Hts. cbn [mbind option_bind].
  rewrite reloc_undefined_false by assumption.
  destruct (r_type r >=? 256) eqn:E3; [lia|].
  unfold reloc_value. rewrite Hty, Z.eqb_refl. cbn [mbind option_bind].
  rewrite Hobj. cbn [andb mbind option_bind].
  destruct (r_siz r =? 4) eqn:E4; [lia|]. destruct (r_siz r =? 8) eqn:E5; [lia|].
  cbn [orb mbind option_bind]. cbn [syms diags_add]. rewrite Hs.
  cbn [mbind option_bind].
  rewrite relocsym_store_default by assumption.
  rewrite relocsym_store_spec by (try assumption; auto; lia).
  cbn [mbind option_bind]. eexists _, _. split; [reflexivity|].
  split; [|split; [reflexivity|split]].
  - cbn [diags set_syms diags_add]. rewrite !elem_of_app.
    right. right. right. right. apply list_elem_of_singleton. reflexivity.
  - replace 4%nat with (length (uint_image cfg 4 (symaddr ts + r_add r))) at 1 by lia.
    apply splice_read. lia.
  - apply splice_length. lia.
Qed.

Lemma relocsym_bad_size_witness :
  exists L' p',
    relocsym_step amd64 ext0 0 (mkReloc 0 2 (D_ADDR amd64) 0 (Some 1%nat))
      (S1_link 4206592) = Some L'
    /\ BadRelocSize 2 "b" ∈ diags L'
    /\ syms L' = <[0%nat := set_p S1_a p']> (syms (S1_link 4206592))
    /\ take 4 (drop 0 p') = uint_image amd64 4 (4206592 + 0)
    /\ length p' = 8%nat.
Proof.
  apply (relocsym_bad_size amd64 ext0 (S1_link 4206592) 0 S1_a
           (mkReloc 0 2 (D_ADDR amd64) 0 (Some 1%nat)) 1 (S1_b 4206592));
    try reflexivity; try (vm_compute; discriminate); try (simpl; lia).
  exact amd64_tables_ok.
Defined.

Lemma heap_frame_trans h1 h2 h3 : heap_frame h1 h2 -> heap_frame h2 h3 -> heap_frame h1 h3.
Proof.
  intros A B id. specialize (A id). specialize (B id).
  destruct A as [s t Hst|]; inversion B; subst; constructor.
  eapply same_frame_trans; eassumption.
Qed.

Lemma patched_refl L : patched L L.
Proof.
  split; [apply heap_frame_refl|]. do 4 (split; [reflexivity|]).
  exists []. symmetry. apply app_nil_r.
Qed.

Lemma patched_trans L1 L2 L3 : patched L1 L2 -> patched L2 L3 -> patched L1 L3.
Proof.
  intros (A1 & A2 & A3 & A4 & A5 & d1 & A6) (B1 & B2 & B3 & B4 & B5 & d2 & B6).
  split; [eapply heap_frame_trans; eassumption|].
  do 4 (split; [congruence|]).
  exists (d1 ++ d2). rewrite B6, A6, app_assoc. reflexivity.
Qed.

Lemma relocsym_store_length cfg off siz o p p' :
  relocsym_store cfg off siz o p = Some p' -> length p' = length p.
Proof.
  unfold relocsym_store. destruct (siz =? 8); intros H;
    apply nuxi_put_bounds in H; tauto.
Qed.

Lemma relocsym_step_patched cfg ext sid r L L' :
  relocsym_step cfg ext sid r L = Some L' -> patched L L'.
Proof.
  unfold relocsym_step.
  destruct (relocsym_eval cfg ext (syms L) sid r) as [[ds w]|]; [|discriminate].
  cbn [mbind option_bind]. destruct w as [[[off siz] o]|].
  - cbn [syms diags_add].
    destruct (syms L !! sid) as [s|] eqn:Es; [|discriminate].
    cbn [mbind option_bind].
    destruct (relocsym_store cfg off siz o (s_p s)) as [p|] eqn:Ep; [|discriminate].
    cbn [mbind option_bind]. intros [= <-].
    split; [|do 4 (split; [reflexivity|]); exists ds; reflexivity].
    intros id. cbn [syms set_syms]. destruct (decide (id = sid)) as [->|Hn].
    + rewrite lookup_insert_eq, Es. constructor. apply same_frame_set_p.
      eapply relocsym_store_length, Ep.
    + rewrite lookup_insert_ne by congruence.
      destruct (syms L !! id); constructor. apply same_frame_refl.
  - intros [= <-]. split; [apply heap_frame_refl|].
    do 4 (split; [reflexivity|]). exists ds. reflexivity.
Qed.

Lemma relocsym_loop_patched cfg ext sid : forall rs L L',
  relocsym_loop cfg ext sid rs L = Some L' -> patched L L'.
Proof.
  induction rs as [|r rs IH]; intros L L' H.
  - injection H as <-. apply patched_refl.
  - cbn [relocsym_loop] in H.
    destruct (relocsym_step cfg ext sid r L) as [L1|] eqn:E; [|discriminate].
    cbn [mbind option_bind] in H.
    eapply patched_trans; [eapply relocsym_step_patched, E|eapply IH, H].
Qed.

Lemma relocsym_patched cfg ext sid L L' :
  relocsym cfg ext sid L = Some L' -> patched L L'.
Proof.
  unfold relocsym. destruct (syms L !! sid); [|discriminate].
  cbn [mbind option_bind]. apply relocsym_loop_patched.
Qed.

Lemma foreach_relocsym_patched cfg ext : forall l L L',
  foreach_sym (relocsym cfg ext) l L = Some L' -> patched L L'.
Proof.
  induction l as [|id l IH]; intros L L' H.
  - injection H as <-. apply patched_refl.
  - cbn [foreach_sym] in H.
    destruct (relocsym cfg ext id L) as [L1|] eqn:E; [|discriminate].
    cbn [mbind option_bind] in H.
    eapply patched_trans; [eapply relocsym_patched, E|eapply IH, H].
Qed.

(** X12: [reloc] patches payload bytes and nothing else.  Whenever it
    returns, every symbol has its name, kind, size, address, records and
    buffer length as before, no symbol is added or removed, the lists
    [allsym], [textp], [datap] and the sections are as before, and the
    diagnostics reported earlier are still there, in front. *)
Theorem reloc_patches cfg ext L L' :
  reloc cfg ext L = Some L' ->
  (forall id, option_Forall2
                (fun s s' => s' = set_p s (s_p s') /\ length (s_p s') = length (s_p s))
                (syms L !! id) (syms L' !! id))
  /\ allsym L' = allsym L /\ textp L' = textp L /\ datap L' = datap L
  /\ sects L' = sects L
  /\ exists ds, diags L' = diags L ++ ds.
Proof.
  unfold reloc. intros H.
  destruct (foreach_sym (relocsym cfg ext) (textp L) L) as [L1|] eqn:E; [|discriminate].
  cbn [mbind option_bind] in H.
  exact (patched_trans _ _ _ (foreach_relocsym_patched _ _ _ _ _ E)
           (foreach_relocsym_patched _ _ _ _ _ H)).
Qed.

Lemma reloc_patches_witness :
  (forall id, option_Forall2
                (fun s s' => s' = set_p s (s_p s') /\ length (s_p s') = length (s_p s))
                (syms S2_text !! id) (syms S2_done !! id))
  /\ allsym S2_done = allsym S2_text /\ textp S2_done = textp S2_text
  /\ datap S2_done = datap S2_text /\ sects S2_done = sects S2_text
  /\ exists ds, diags S2_done = diags S2_text ++ ds.
Proof.
  apply (reloc_patches amd64 ext0 S2_text S2_done).
  vm_compute. reflexivity.
Defined.

(** ** More on the sort *)

Lemma datmerge_right_first h l1 : forall l2,
  (forall a b, a ∈ l1 -> b ∈ l2 -> 0 <= datcmp_at h a b) ->
  datmerge h l1 l2 = l2 ++ l1.
Proof.
  induction l2 as [|b l2 IH]; intros H.
  - apply datmerge_nil_r.
  - destruct l1 as [|a l1].
    + rewrite datmerge_nil_l, app_nil_r. reflexivity.
    + rewrite datmerge_cons.
      assert (E : (datcmp_at h a b <? 0) = false).
      { apply Z.ltb_ge. apply H; left. }
      rewrite E, IH; [reflexivity|]. intros x y Hx Hy. apply H; [exact Hx|right; exact Hy].
Qed.

Lemma datmerge_left_first h : forall l1 l2,
  (forall a b, a ∈ l1 -> b ∈ l2 -> datcmp_at h a b < 0) ->
  datmerge h l1 l2 = l1 ++ l2.
Proof.
  induction l1 as [|a l1 IH]; intros l2 H.
  - apply datmerge_nil_l.
  - destruct l2 as [|b l2].
    + rewrite datmerge_nil_r, app_nil_r. reflexivity.
    + rewrite datmerge_cons.
      assert (E : (datcmp_at h a b <? 0) = true).
      { apply Z.ltb_lt. apply H; left. }
      rewrite E, IH; [reflexivity|]. intros x y Hx Hy. apply H; [right; exact Hx|exact Hy].
Qed.

Lemma datsort_rec_split h fuel l :
  (2 <= length l)%nat ->
  exists l1 l2,
    l = l1 ++ l2 /\ (length l1 < length l)%nat /\ (length l2 < length l)%nat
    /\ datsort_rec (S fuel) h l
       = datmerge h (datsort_rec fuel h l1) (datsort_rec fuel h l2).
Proof.
  intros Hl. pose proof (datsort_mid_lt l Hl) as Hk.
  exists (take (S (datsort_mid l 0)) l), (drop (S (datsort_mid l 0)) l).
  split; [symmetry; apply take_drop|].
  split; [rewrite length_take; lia|]. split; [rewrite length_drop; lia|].
  rewrite datsort_rec_eq. destruct l as [|a [|b l]]; simpl in Hl; try lia. reflexivity.
Qed.

Lemma datsort_rec_rev h fuel : forall l, (length l <= fuel)%nat ->
  StronglySorted (fun a b => 0 <= datcmp_at h a b) l ->
  datsort_rec fuel h l = reverse l.
Proof.
  induction fuel as [|fuel IH]; intros l Hl Hs.
  - destruct l; [reflexivity|simpl in Hl; lia].
  - destruct (decide (2 <= length l)%nat) as [H2|H2].
    + destruct (datsort_rec_split h fuel l H2)
        as (l1 & l2 & -> & L1 & L2 & E).
      rewrite E. rewrite length_app in Hl, L1, L2.
      assert (S1 := StronglySorted_app_1_l _ _ _ Hs).
      assert (S2 := StronglySorted_app_1_r _ _ _ Hs).
      rewrite (IH l1 ltac:(lia) S1), (IH l2 ltac:(lia) S2).
      rewrite reverse_app. apply datmerge_right_first.
      intros a b Ha Hb. apply elem_of_reverse_2 in Ha, Hb.
      rewrite reverse_involutive in Ha, Hb.
      exact (StronglySorted_app_1_elem_of (fun a b => 0 <= datcmp_at h a b)
               l1 l2 a b Hs Ha Hb).
    + rewrite datsort_rec_eq. destruct l as [|a [|b l]]; try reflexivity.
      simpl in H2. lia.
Qed.

Lemma datsort_rec_fix h fuel : forall l, (length l <= fuel)%nat ->
  StronglySorted (fun a b => datcmp_at h a b < 0) l ->
  datsort_rec fuel h l = l.
Proof.
  induction fuel as [|fuel IH]; intros l Hl Hs.
  - destruct l; [reflexivity|simpl in Hl; lia].
  - destruct (decide (2 <= length l)%nat) as [H2|H2].
    + destruct (datsort_rec_split h fuel l H2)
        as (l1 & l2 & -> & L1 & L2 & E).
      rewrite E. rewrite length_app in Hl, L1, L2.
      assert (S1 := StronglySorted_app_1_l _ _ _ Hs).
      assert (S2 := StronglySorted_app_1_r _ _ _ Hs).
      rewrite (IH l1 ltac:(lia) S1), (IH l2 ltac:(lia) S2).
      apply datmerge_left_first.
      intros a b Ha Hb.
      exact (StronglySorted_app_1_elem_of (fun a b => datcmp_at h a b < 0)
               l1 l2 a b Hs Ha Hb).
    + rewrite datsort_rec_eq. destruct l as [|a [|b l]]; try reflexivity.
      simpl in H2. lia.
Qed.

(** X13: [datsort] is not stable.  On a tie the merge takes the node of
    the second half, so a list in which every node compares [>= 0] with
    every later node (in particular, a run of nodes with equal keys) comes
    out reversed. *)
Theorem datsort_reverses h l :
  StronglySorted (fun a b => 0 <= datcmp_at h a b) l ->
  datsort h l = reverse l.
Proof. intros H. apply datsort_rec_rev; [reflexivity|exact H]. Qed.

Lemma datsort_reverses_witness :
  datsort ties_heap [0; 1; 2]%nat = reverse [0; 1; 2]%nat.
Proof.
  apply (datsort_reverses ties_heap [0; 1; 2]%nat).
  repeat constructor; vm_compute; discriminate.
Defined.

(** X14: [datsort] leaves a list in strict order as it is: when every node
    compares [< 0] with every later node, the result is the input. *)
Theorem datsort_keeps_sorted h l :
  StronglySorted (fun a b => datcmp_at h a b < 0) l ->
  datsort h l = l.
Proof. intros H. apply datsort_rec_fix; [reflexivity|exact H]. Qed.

Lemma datsort_keeps_sorted_witness :
  datsort asc_heap [0; 1; 2]%nat = [0; 1; 2]%nat.
Proof.
  apply (datsort_keeps_sorted asc_heap [0; 1; 2]%nat).
  repeat constructor; vm_compute; reflexivity.
Defined.

Lemma lex_le_trans a : forall b c, lex_le a b -> lex_le b c -> lex_le a c.
Proof.
  induction a as [|x a IH]; intros b c H1 H2; [exact I|].
  destruct b as [|y b]; [destruct H1|]. destruct c as [|z c]; [destruct H2|].
  simpl in *. destruct H1 as [H1|[E1 H1]], H2 as [H2|[E2 H2]]; try (left; lia).
  right. split; [lia|]. eapply IH; eassumption.
Qed.

Lemma key_le_trans s1 s2 s3 : key_le s1 s2 -> key_le s2 s3 -> key_le s1 s3.
Proof.
  unfold key_le. intros H1 H2.
  destruct H1 as [H1|[E1 [H1|[F1 H1]]]], H2 as [H2|[E2 [H2|[F2 H2]]]];
    try (left; lia); try (right; split; [lia|left; lia]).
  right. split; [lia|]. right. split; [lia|]. eapply lex_le_trans; eassumption.
Qed.

Lemma dat_le_trans h a b c :
  is_Some (h !! a) -> is_Some (h !! b) -> is_Some (h !! c) ->
  dat_le h a b -> dat_le h b c -> dat_le h a c.
Proof.
  intros [sa Ha] [sb Hb] [sc Hc]. unfold dat_le, datcmp_at.
  rewrite Ha, Hb, Hc. rewrite !datcmp_key_le. apply key_le_trans.
Qed.

Lemma StronglySorted_refine {A} (R R' : A -> A -> Prop) (l : list A) :
  NoDup l -> (forall a b, a ∈ l -> b ∈ l -> a <> b -> R a b -> R' a b) ->
  StronglySorted R l -> StronglySorted R' l.
Proof.
  induction l as [|x l IH]; intros Hnd HR Hs; [constructor|].
  apply NoDup_cons in Hnd as [Hx Hnd]. apply StronglySorted_inv in Hs as [Hs Hall].
  constructor.
  - apply IH; [exact Hnd| |exact Hs]. intros a b Ha Hb. apply HR; right; assumption.
  - rewrite Forall_forall in *. intros y Hy. apply HR; [left|right; exact Hy| |auto].
    intros ->. contradiction.
Qed.

(** The result of [datsort] is in order for every pair of positions, not
    only for neighbours, when every node is a symbol. *)
Lemma datsort_all_pairs h l :
  (forall id, id ∈ l -> is_Some (h !! id)) ->
  StronglySorted (fun a b => a ∈ l /\ b ∈ l /\ dat_le h a b) (datsort h l).
Proof.
  intros Hb. destruct (datsort_spec h l) as [Hp Hs].
  apply Sorted.Sorted_StronglySorted.
  - intros a b c (Ha & Hb' & Hab) (_ & Hc & Hbc).
    split; [exact Ha|]. split; [exact Hc|].
    eapply (dat_le_trans h a b c); auto.
  - eapply Sorted_weaken; [|exact Hs]. intros a b Ha Hb' Hab.
    rewrite Hp in Ha, Hb'. auto.
Qed.

(** X15: sorting twice is sorting once, when no two nodes of the list have
    the same key: [datsort (datsort l) = datsort l].  (With equal keys it
    is not: a run of equal keys comes out reversed each time.) *)
Theorem datsort_idempotent h l :
  (forall id, id ∈ l -> is_Some (h !! id)) ->
  NoDup l ->
  (forall a b, a ∈ l -> b ∈ l -> a <> b -> datcmp_at h a b <> 0) ->
  datsort h (datsort h l) = datsort h l.
Proof.
  intros Hb Hnd Hne. destruct (datsort_spec h l) as [Hp _].
  apply datsort_rec_fix; [reflexivity|].
  eapply StronglySorted_refine; [| |apply datsort_all_pairs, Hb].
  - rewrite Hp. exact Hnd.
  - intros a b _ _ Hab (Ha & Hb' & Hle). unfold dat_le in Hle.
    specialize (Hne a b Ha Hb' Hab). lia.
Qed.

Lemma datsort_idempotent_witness :
  datsort asc_heap (datsort asc_heap [2; 0; 1]%nat) = datsort asc_heap [2; 0; 1]%nat.
Proof.
  apply (datsort_idempotent asc_heap [2; 0; 1]%nat).
  - intros id Hid. apply (bool_decide_unpack _).
    repeat (apply elem_of_cons in Hid as [->|Hid]; [vm_compute; exact I|]).
    inversion Hid.
  - apply (bool_decide_unpack _). vm_compute. exact I.
  - intros a b Ha Hb.
    repeat (apply elem_of_cons in Ha as [->|Ha]);
      repeat (apply elem_of_cons in Hb as [->|Hb]);
      try (inversion Ha); try (inversion Hb);
      intros Hab; try (exfalso; apply Hab; reflexivity);
      vm_compute; discriminate.
Defined.

(** ** Strings *)

Lemma strnput_copy_spec s : forall n,
  strnput_copy s n
  = (take n (codes (cstr s)), (n - length (codes (cstr s)))%nat).
Proof.
  induction s as [|c s IH]; intros n.
  - destruct n; reflexivity.
  - destruct n as [|n]; [reflexivity|]. cbn [strnput_copy cstr].
    destruct (code c =? 0); [reflexivity|]. rewrite IH. reflexivity.
Qed.

(** X16: [strnput(s, n)] writes exactly [n] bytes for [n >= 0] and none
    for [n <= 0]: the bytes of the C string [s], cut after [n] bytes, then
    zeros up to [n].  A string of [n] bytes or more is written without its
    final NUL. *)
Theorem strnput_fixed_width s n :
  strnput s n = take (Z.to_nat n) (codes (cstr s))
                ++ replicate (Z.to_nat n - length (codes (cstr s))) 0
  /\ length (strnput s n) = Z.to_nat n.
Proof.
  unfold strnput. rewrite strnput_copy_spec. split; [reflexivity|].
  rewrite length_app, length_take, length_replicate. lia.
Qed.

Lemma until_nul_codes s : forall rest,
  until_nul (codes (cstr s) ++ 0 :: rest) = codes (cstr s).
Proof.
  induction s as [|c s IH]; intros rest; [reflexivity|].
  cbn [cstr]. destruct (code c =? 0) eqn:E; [reflexivity|].
  cbn [codes app until_nul]. rewrite E, IH. reflexivity.
Qed.

Lemma blit_spec : forall src p r,
  0 <= r -> r + Z.of_nat (length src) <= Z.of_nat (length p) ->
  blit p r src = Some (splice p (Z.to_nat r) src).
Proof.
  induction src as [|b src IH]; intros p r Hr Hlen.
  - simpl. unfold splice. simpl. rewrite Nat.add_0_r, take_drop. reflexivity.
  - change (length (b :: src)) with (S (length src)) in Hlen.
    cbn [blit]. rewrite poke_Some by lia. cbn [mbind option_bind].
    assert (H1 : 0 <= r + 1) by lia.
    assert (H0 : r + 1 + Z.of_nat (length src) <= Z.of_nat (length p)) by lia.
    assert (H2 : r + 1 + Z.of_nat (length src)
                 <= Z.of_nat (length (<[Z.to_nat r := b]> p)))
      by (rewrite length_insert; exact H0).
    rewrite (IH _ _ H1 H2). f_equal. unfold splice.
    replace (Z.to_nat (r + 1)) with (S (Z.to_nat r)) by lia.
    rewrite (take_S_r _ _ b) by (apply list_lookup_insert_eq; lia).
    rewrite take_insert_ge by lia. rewrite drop_insert_lt by lia.
    rewrite <- app_assoc. change (length (b :: src)) with (S (length src)).
    cbn [app]. replace (S (Z.to_nat r) + length src)%nat
      with (Z.to_nat r + S (length src))%nat by lia.
    reflexivity.
Qed.

(** [addstring] on a symbol whose payload is its declared size. *)
Lemma addstring_spec cfg s str :
  enc_ok s ->
  s_size s + Z.of_nat (length (codes (cstr str))) + 1 <= 2 ^ 30 ->
  exists s',
    addstring cfg s str
    = Some (s_size s, s',
            if strcmp (s_name s) ".shstrtab" =? 0 then [(str, s_size s)] else [])
    /\ payload s' = payload s ++ codes (cstr str) ++ [0]
    /\ s_size s' = s_size s + Z.of_nat (length (codes (cstr str))) + 1
    /\ enc_ok s'
    /\ s_r s' = s_r s /\ s_name s' = s_name s
    /\ s_type s' = (if s_type s =? 0 then SNOPTRDATA cfg else s_type s).
Proof.
  intros [Hb Hnp] Hlt.
  assert (H0 : 0 <= s_size s) by (destruct Hb; lia).
  set (bs := codes (cstr str) ++ [0]).
  assert (Hn : Z.of_nat (length bs) = Z.of_nat (length (codes (cstr str))) + 1).
  { unfold bs. rewrite length_app. simpl. lia. }
  unfold addstring. fold bs.
  set (s0 := set_reachable (if s_type s =? 0 then set_type s (SNOPTRDATA cfg) else s) true).
  assert (F0 : s_size s0 = s_size s /\ s_np s0 = s_np s /\ s_r s0 = s_r s
               /\ s_name s0 = s_name s /\ payload s0 = payload s /\ buf_ok s0
               /\ s_type s0 = (if s_type s =? 0 then SNOPTRDATA cfg else s_type s)).
  { unfold s0, payload, buf_ok in *. destruct (s_type s =? 0); simpl; auto 10. }
  destruct F0 as (F1 & F2 & F3 & F4 & F5 & F6 & F7).
  rewrite F1, F4. rewrite (int32_id (s_size s)) by lia.
  rewrite int32_id by lia.
  destruct (symgrow_spec s0 (s_size s + Z.of_nat (length bs)) F6 ltac:(lia))
    as (m & p & H1 & H2 & H3).
  rewrite H1. cbn [mbind option_bind].
  rewrite F2, F5, Hnp in *. rewrite Z.max_r in * by lia.
  set (s1 := rebuf s0 (s_size s + Z.of_nat (length bs)) m p) in *.
  assert (Hlen : s_np s1 <= Z.of_nat (length (s_p s1))).
  { destruct H2 as (B1 & B2 & B3 & _). rewrite <- B2. exact B3. }
  rewrite blit_spec by (try exact H0; exact Hlen).
  cbn [mbind option_bind]. eexists. split; [reflexivity|].
  destruct (buf_ok_splice s1 (Z.to_nat (s_size s)) bs H2 ltac:(cbn; lia)) as [Hb' Hp'].
  pose proof (payload_length s Hb) as Lp.
  split; [|split; [|split; [|split; [|split]]]].
  - change (payload (set_size ?x ?n)) with (payload x). rewrite Hp', H3.
    replace (Z.to_nat (s_size s + Z.of_nat (length bs) - s_size s)) with (length bs) by lia.
    unfold splice. rewrite take_app_length' by lia.
    rewrite drop_ge by (rewrite length_app, length_replicate; lia).
    rewrite app_nil_r. reflexivity.
  - cbn [s_size set_size]. change (s_size s1) with (s_size s0). rewrite F1. lia.
  - split; [exact Hb'|].
    cbn [s_size s_np set_size set_p]. change (s_size s1) with (s_size s0).
    change (s_np s1) with (s_size s + Z.of_nat (length bs)). rewrite F1. reflexivity.
  - exact F3.
  - exact F4.
  - exact F7.
Qed.

(** X17: [addstring] appends a C string.  On a symbol whose payload is its
    declared size, and while the new size stays within [2^30], it returns
    the old size; the payload grows by the bytes of
    the string and one NUL; the string is read back at the returned offset;
    a symbol without kind becomes [SNOPTRDATA]; for the symbol [.shstrtab],
    and only for it, [elfsetstring] is told the string and its offset. *)
Theorem addstring_appends cfg s str :
  enc_ok s ->
  s_size s + Z.of_nat (length (codes (cstr str))) + 1 <= 2 ^ 30 ->
  exists s' calls,
    addstring cfg s str = Some (s_size s, s', calls)
    /\ payload s' = payload s ++ codes (cstr str) ++ [0]
    /\ until_nul (drop (Z.to_nat (s_size s)) (payload s')) = codes (cstr str)
    /\ s_size s' = s_size s + Z.of_nat (length (codes (cstr str))) + 1
    /\ enc_ok s'
    /\ s_r s' = s_r s
    /\ s_type s' = (if s_type s =? 0 then SNOPTRDATA cfg else s_type s)
    /\ calls = (if strcmp (s_name s) ".shstrtab" =? 0 then [(str, s_size s)] else []).
Proof.
  intros He Hlt.
  destruct (addstring_spec cfg s str He Hlt) as (s' & H1 & H2 & H3 & H4 & H5 & _ & H7).
  exists s', (if strcmp (s_name s) ".shstrtab" =? 0 then [(str, s_size s)] else []).
  split; [exact H1|]. split; [exact H2|]. split; [|auto].
  rewrite H2. pose proof (payload_length s (proj1 He)) as Lp. destruct He as [_ Hn].
  rewrite drop_app_length' by lia. apply until_nul_codes.
Qed.

Lemma addstring_appends_witness :
  exists s' calls,
    addstring amd64 (newsym ".shstrtab") ".text" = Some (0, s', calls)
    /\ payload s' = [] ++ codes (cstr ".text") ++ [0]
    /\ until_nul (drop (Z.to_nat 0) (payload s')) = codes (cstr ".text")
    /\ s_size s' = 0 + Z.of_nat (length (codes (cstr ".text"))) + 1
    /\ enc_ok s'
    /\ s_r s' = []
    /\ s_type s' = SNOPTRDATA amd64
    /\ calls = [(".text"%string, 0)].
Proof.
  apply (addstring_appends amd64 (newsym ".shstrtab") ".text").
  - apply newsym_enc_ok.
  - vm_compute. discriminate.
Defined.

(** X18: a table of strings, within [2^30] bytes.  Two calls of
    [addstring] return offsets that
    are the size before and that size plus the length of the first string
    plus one, and each string is read back at its offset from the final
    payload: the second call leaves the first string in place. *)
Theorem addstring_twice cfg s a b :
  enc_ok s ->
  s_size s + Z.of_nat (length (codes (cstr a))) + 1
    + Z.of_nat (length (codes (cstr b))) + 1 <= 2 ^ 30 ->
  exists s1 c1 s2 c2,
    addstring cfg s a = Some (s_size s, s1, c1)
    /\ addstring cfg s1 b
       = Some (s_size s + Z.of_nat (length (codes (cstr a))) + 1, s2, c2)
    /\ until_nul (drop (Z.to_nat (s_size s)) (payload s2)) = codes (cstr a)
    /\ until_nul (drop (Z.to_nat (s_size s + Z.of_nat (length (codes (cstr a))) + 1))
                    (payload s2)) = codes (cstr b)
    /\ take (Z.to_nat (s_size s)) (payload s2) = payload s.
Proof.
  intros He Hlt.
  assert (H0 : 0 <= s_size s) by (destruct He as [(? & _) ?]; lia).
  destruct (addstring_spec cfg s a He ltac:(lia)) as (s1 & A1 & A2 & A3 & A4 & _).
  destruct (addstring_spec cfg s1 b A4 ltac:(lia)) as (s2 & B1 & B2 & B3 & B4 & _).
  rewrite A3 in B1. eexists s1, _, s2, _.
  split; [exact A1|]. split; [exact B1|].
  pose proof (payload_length s (proj1 He)) as Lp. destruct He as [_ Hn].
  pose proof (payload_length s1 (proj1 A4)) as Lp1. destruct A4 as [_ Hn1].
  split; [|split].
  - rewrite B2, A2, <- !app_assoc. rewrite drop_app_length' by lia.
    apply until_nul_codes.
  - rewrite B2. rewrite drop_app_length' by lia. apply until_nul_codes.
  - rewrite B2, A2, <- !app_assoc. apply take_app_length'. lia.
Qed.

Lemma addstring_twice_witness :
  exists s1 c1 s2 c2,
    addstring amd64 (newsym "tab") "ab" = Some (0, s1, c1)
    /\ addstring amd64 s1 "c"
       = Some (0 + Z.of_nat (length (codes (cstr "ab"))) + 1, s2, c2)
    /\ until_nul (drop (Z.to_nat 0) (payload s2)) = codes (cstr "ab")
    /\ until_nul (drop (Z.to_nat (0 + Z.of_nat (length (codes (cstr "ab"))) + 1))
                    (payload s2)) = codes (cstr "c")
    /\ take (Z.to_nat 0) (payload s2) = [].
Proof.
  apply (addstring_twice amd64 (newsym "tab") "ab" "c").
  - apply newsym_enc_ok.
  - vm_compute. discriminate.
Defined.

(** ** Initialized data *)

(** The four integer stores, for any two host integers that agree with
    [v] on their own width. *)
Lemma uint_put cfg off wid p fl o8 v :
  tables_ok cfg -> wid = 1 \/ wid = 2 \/ wid = 4 \/ wid = 8 ->
  0 <= off -> off + wid <= Z.of_nat (length p) ->
  fl mod 2 ^ 32 = v mod 2 ^ 32 -> o8 mod 2 ^ 64 = v mod 2 ^ 64 ->
  (if wid =? 1 then
     j ← inuxi1 cfg !! 0%nat; b ← cast cfg 4 fl !! j; poke p off b
   else if wid =? 2 then nuxi_put (inuxi2 cfg) (cast cfg 4 fl) off 0 2 p
   else if wid =? 4 then nuxi_put (inuxi4 cfg) (cast cfg 4 fl) off 0 4 p
   else if wid =? 8 then nuxi_put (inuxi8 cfg) (cast cfg 8 o8) off 0 8 p
   else Some p)
  = Some (splice p (Z.to_nat off) (uint_image cfg wid v)).
Proof.
  intros (T1 & T2 & T4 & T8) Hw Hoff Hp E32 E64.
  change 32 with (8 * Z.of_nat 4) in E32. change 64 with (8 * Z.of_nat 8) in E64.
  unfold uint_image, uint_table, uint_host.
  destruct Hw as [-> | [-> | [-> | ->]]]; cbn [Z.eqb Pos.eqb].
  - transitivity (nuxi_put (inuxi1 cfg) (cast cfg 4 fl) off 0 1 p).
    { cbn [nuxi_put]. rewrite Z.add_0_r.
      destruct (inuxi1 cfg !! 0%nat); [|reflexivity]. cbn [mbind option_bind].
      destruct (cast cfg 4 fl !! n); [|reflexivity].
      cbn [mbind option_bind]. destruct (poke p off z); reflexivity. }
    pose proof (table_ok_length _ _ _ _ T1) as L.
    rewrite (nuxi_put_spec cfg 4) by (try apply T1; simpl; lia).
    rewrite Nat.add_0_r, drop_0, take_ge by (unfold nuxi_image; rewrite length_fmap; lia).
    rewrite (nuxi_image_mod cfg 4 1 _ _ v T1); [reflexivity|].
    apply (mod_pow2_le _ _ 1 4); [lia|exact E32].
  - pose proof (table_ok_length _ _ _ _ T2) as L.
    rewrite (nuxi_put_spec cfg 4) by (try apply T2; simpl; lia).
    rewrite Nat.add_0_r, drop_0, take_ge by (unfold nuxi_image; rewrite length_fmap; lia).
    rewrite (nuxi_image_mod cfg 4 2 _ _ v T2); [reflexivity|].
    apply (mod_pow2_le _ _ 2 4); [lia|exact E32].
  - pose proof (table_ok_length _ _ _ _ T4) as L.
    rewrite (nuxi_put_spec cfg 4) by (try apply T4; simpl; lia).
    rewrite Nat.add_0_r, drop_0, take_ge by (unfold nuxi_image; rewrite length_fmap; lia).
    rewrite (nuxi_image_mod cfg 4 4 _ _ v T4); [reflexivity|exact E32].
  - pose proof (table_ok_length _ _ _ _ T8) as L.
    rewrite (nuxi_put_spec cfg 8) by (try apply T8; simpl; lia).
    rewrite Nat.add_0_r, drop_0, take_ge by (unfold nuxi_image; rewrite length_fmap; lia).
    rewrite (nuxi_image_mod cfg 8 8 _ _ v T8); [reflexivity|exact E64].
Qed.

(** The start of [savedata] on well-formed operands: the payload is grown
    to [off + siz]. *)
Lemma savedata_grow s off siz :
  buf_ok s -> 0 <= off < 2 ^ 30 -> 0 <= siz < 100 -> off + siz <= 2 ^ 30 ->
  exists m p,
    let s1 := rebuf s (Z.max (s_np s) (off + siz)) m p in
    symgrow s (int32 (off + siz)) = Some s1
    /\ buf_ok s1
    /\ payload s1 = payload s ++ replicate (Z.to_nat (off + siz - s_np s)) 0
    /\ off + siz <= Z.of_nat (length (s_p s1)).
Proof.
  intros Hb Hoff Hsiz Hend. rewrite int32_id by lia.
  destruct (symgrow_spec s (off + siz) Hb Hend) as (m & p & H1 & H2 & H3).
  exists m, p. cbv zeta. split; [exact H1|]. split; [exact H2|]. split; [exact H3|].
  destruct H2 as (B1 & B2 & B3 & _). cbn [s_np s_maxp s_p rebuf set_p set_maxp set_np] in *.
  lia.
Qed.

Lemma savedata_checks (p : Prog) :
  0 <= from_offset p < 2 ^ 30 -> 0 <= datasize p < 100 ->
  int32 (from_offset p) = from_offset p /\ int32 (datasize p) = datasize p
  /\ (from_offset p <? 0) || (datasize p <? 0) || (from_offset p >=? 2 ^ 30)
     || (datasize p >=? 100) = false.
Proof.
  intros H1 H2. rewrite !int32_id by lia. split; [reflexivity|]. split; [reflexivity|].
  destruct (from_offset p <? 0) eqn:E1; [lia|].
  destruct (datasize p <? 0) eqn:E2; [lia|].
  destruct (from_offset p >=? 2 ^ 30) eqn:E3; [lia|].
  destruct (datasize p >=? 100) eqn:E4; [lia|]. reflexivity.
Qed.

(** X19: [savedata] of an integer constant.  For a size of 1, 2, 4 or 8 and
    an offset in range, with [off + siz] within [2^30] (up to where
    [symgrow] returns), the payload is grown with zeros to [off + siz] if it
    was shorter, the [siz] bytes at [off] become the image of the constant
    through the table [setuintxx] uses, and read back as the constant on
    [8 * siz] bits; the declared size, the kind and the records of the
    symbol are not touched, and nothing is reported. *)
Theorem savedata_const cfg asm s p :
  tables_ok cfg -> buf_ok s ->
  to_type p = D_CONST asm -> D_CONST asm <> D_FCONST asm -> D_CONST asm <> D_SCONST asm ->
  to_sym p = None ->
  datasize p = 1 \/ datasize p = 2 \/ datasize p = 4 \/ datasize p = 8 ->
  0 <= from_offset p < 2 ^ 30 -> from_offset p + datasize p <= 2 ^ 30 ->
  exists s',
    savedata cfg asm s p = Ret (s', [])
    /\ payload s'
       = splice (payload s
                 ++ replicate (Z.to_nat (from_offset p + datasize p - s_np s)) 0)
           (Z.to_nat (from_offset p)) (uint_image cfg (datasize p) (to_offset p))
    /\ getuintxx cfg s' (from_offset p) (datasize p)
       = to_offset p mod 2 ^ (8 * datasize p)
    /\ s_np s' = Z.max (s_np s) (from_offset p + datasize p)
    /\ buf_ok s'
    /\ s_size s' = s_size s /\ s_type s' = s_type s /\ s_r s' = s_r s.
Proof.
  intros HT Hb Hty Hnf Hns Hsym Hw Hoff Hend.
  assert (Hsiz : 0 <= datasize p < 100) by lia.
  destruct (savedata_checks p Hoff Hsiz) as (E1 & E2 & E3).
  destruct (savedata_grow s _ _ Hb Hoff Hsiz Hend) as (m & q & G1 & G2 & G3 & G4).
  cbv zeta in *.
  set (s1 := rebuf s (Z.max (s_np s) (from_offset p + datasize p)) m q) in *.
  pose proof (uint_image_length cfg (datasize p) (to_offset p) HT Hw) as Hl.
  unfold savedata. rewrite E1, E2, E3, G1, Hty, Hsym.
  destruct (D_CONST asm =? D_FCONST asm) eqn:F1; [lia|].
  destruct (D_CONST asm =? D_SCONST asm) eqn:F2; [lia|].
  rewrite Z.eqb_refl.
  assert (Hput :
    (if datasize p =? 1 then
       j ← inuxi1 cfg !! 0%nat; b ← cast cfg 4 (int32 (int64 (to_offset p))) !! j;
       poke (s_p s1) (from_offset p) b
     else if datasize p =? 2 then
       nuxi_put (inuxi2 cfg) (cast cfg 4 (int32 (int64 (to_offset p))))
         (from_offset p) 0 2 (s_p s1)
     else if datasize p =? 4 then
       nuxi_put (inuxi4 cfg) (cast cfg 4 (int32 (int64 (to_offset p))))
         (from_offset p) 0 4 (s_p s1)
     else if datasize p =? 8 then
       nuxi_put (inuxi8 cfg) (cast cfg 8 (int64 (to_offset p))) (from_offset p) 0 8 (s_p s1)
     else Some (s_p s1))
    = Some (splice (s_p s1) (Z.to_nat (from_offset p))
              (uint_image cfg (datasize p) (to_offset p)))).
  { apply uint_put; try assumption; try lia.
    - rewrite int32_mod. rewrite <- (Z.mod_mod_divide (int64 (to_offset p)) (2 ^ 64))
        by (exists (2 ^ 32); reflexivity).
      rewrite int64_mod. apply Z.mod_mod_divide. exists (2 ^ 32). reflexivity.
    - apply int64_mod. }
  exists (set_p s1 (splice (s_p s1) (Z.to_nat (from_offset p))
                      (uint_image cfg (datasize p) (to_offset p)))).
  split.
  { destruct Hw as [E|[E|[E|E]]]; rewrite E in Hput |- *;
      cbn [Z.eqb Pos.eqb] in Hput |- *; rewrite Hput; reflexivity. }
  destruct (buf_ok_splice s1 (Z.to_nat (from_offset p))
              (uint_image cfg (datasize p) (to_offset p)) G2
              ltac:(cbn [s_np s1 rebuf set_p set_maxp set_np]; lia)) as [Hb' Hp'].
  split; [rewrite Hp', G3; reflexivity|].
  split; [eapply getuintxx_splice; [exact HT|exact Hw|lia| |reflexivity]; lia|].
  split; [reflexivity|]. split; [exact Hb'|]. repeat split.
Qed.

Lemma savedata_const_witness :
  exists s',
    savedata amd64 asm0 (newsym "x") (data_const 4 2 258) = Ret (s', [])
    /\ payload s'
       = splice ([] ++ replicate (Z.to_nat (4 + 2 - 0)) 0)
           (Z.to_nat 4) (uint_image amd64 2 258)
    /\ getuintxx amd64 s' 4 2 = 258 mod 2 ^ (8 * 2)
    /\ s_np s' = Z.max 0 (4 + 2)
    /\ buf_ok s'
    /\ s_size s' = 0 /\ s_type s' = 0 /\ s_r s' = [].
Proof.
  apply (savedata_const amd64 asm0 (newsym "x") (data_const 4 2 258)).
  - exact amd64_tables_ok.
  - apply newsym_buf_ok.
  - reflexivity.
  - discriminate.
  - discriminate.
  - reflexivity.
  - right. left. reflexivity.
  - simpl. lia.
  - simpl. lia.
Defined.

Lemma scon_put_spec scon off : forall n i p,
  (i + n <= length scon)%nat -> 0 <= off ->
  off + Z.of_nat i + Z.of_nat n <= Z.of_nat (length p) ->
  scon_put scon off i n p
  = Some (splice p (Z.to_nat off + i) (take n (drop i scon))).
Proof.
  induction n as [|n IH]; intros i p Hs Hoff Hp.
  - simpl. unfold splice. rewrite take_0. simpl.
    rewrite Nat.add_0_r, take_drop. reflexivity.
  - cbn [scon_put].
    destruct (lookup_lt_is_Some_2 scon i ltac:(lia)) as [b Hb].
    rewrite Hb. cbn [mbind option_bind].
    rewrite poke_Some by lia. cbn [mbind option_bind].
    assert (H2 : off + Z.of_nat (S i) + Z.of_nat n
                 <= Z.of_nat (length (<[Z.to_nat (off + Z.of_nat i) := b]> p)))
      by (rewrite length_insert; lia).
    rewrite (IH (S i) _ ltac:(lia) Hoff H2). f_equal. unfold splice.
    rewrite (drop_S scon b i Hb). cbn [take].
    replace (Z.to_nat (off + Z.of_nat i)) with (Z.to_nat off + i)%nat by lia.
    replace (Z.to_nat off + S i)%nat with (S (Z.to_nat off + i)) by lia.
    rewrite (take_S_r _ _ b) by (apply list_lookup_insert_eq; lia).
    rewrite take_insert_ge by lia. rewrite drop_insert_lt by lia.
    rewrite <- app_assoc. cbn [app length].
    replace (S (Z.to_nat off + i) + length (take n (drop (S i) scon)))%nat
      with (Z.to_nat off + i + S (length (take n (drop (S i) scon))))%nat by lia.
    reflexivity.
Qed.

Lemma scon_put_short scon off : forall n i p,
  (i <= length scon)%nat -> (length scon < i + n)%nat ->
  scon_put scon off i n p = None.
Proof.
  induction n as [|n IH]; intros i p Hi Hs; [lia|].
  cbn [scon_put]. destruct (scon !! i) as [b|] eqn:Hb; [|reflexivity].
  cbn [mbind option_bind]. destruct (poke p (off + Z.of_nat i) b); [|reflexivity].
  cbn [mbind option_bind]. apply lookup_lt_Some in Hb. apply IH; lia.
Qed.

(** X20: [savedata] of a string constant, with [off + siz] within [2^30],
    copies the first [siz] bytes of the operand to [off], after growing the
    payload with zeros; size, kind
    and records stay.  When the operand holds fewer than [siz] bytes, the
    loop reads past it. *)
Theorem savedata_scon cfg asm s p :
  buf_ok s ->
  to_type p = D_SCONST asm -> D_SCONST asm <> D_FCONST asm ->
  0 <= from_offset p < 2 ^ 30 -> 0 <= datasize p < 100 ->
  from_offset p + datasize p <= 2 ^ 30 ->
  (datasize p <= Z.of_nat (length (to_scon p)) ->
   exists s',
     savedata cfg asm s p = Ret (s', [])
     /\ take (Z.to_nat (datasize p)) (drop (Z.to_nat (from_offset p)) (payload s'))
        = take (Z.to_nat (datasize p)) (to_scon p)
     /\ payload s'
        = splice (payload s
                  ++ replicate (Z.to_nat (from_offset p + datasize p - s_np s)) 0)
            (Z.to_nat (from_offset p)) (take (Z.to_nat (datasize p)) (to_scon p))
     /\ s_size s' = s_size s /\ s_type s' = s_type s /\ s_r s' = s_r s)
  /\ (Z.of_nat (length (to_scon p)) < datasize p -> savedata cfg asm s p = Fault).
Proof.
  intros Hb Hty Hnf Hoff Hsiz Hend.
  destruct (savedata_checks p Hoff Hsiz) as (E1 & E2 & E3).
  destruct (savedata_grow s _ _ Hb Hoff Hsiz Hend) as (m & q & G1 & G2 & G3 & G4).
  cbv zeta in *.
  set (s1 := rebuf s (Z.max (s_np s) (from_offset p + datasize p)) m q) in *.
  unfold savedata. rewrite E1, E2, E3, G1, Hty.
  destruct (D_SCONST asm =? D_FCONST asm) eqn:F1; [lia|]. rewrite Z.eqb_refl.
  split.
  - intros Hlen.
    rewrite scon_put_spec by lia. rewrite Nat.add_0_r, drop_0. cbn [stored].
    set (bs := take (Z.to_nat (datasize p)) (to_scon p)).
    assert (Hl : Z.of_nat (length bs) = datasize p).
    { unfold bs. rewrite length_take. lia. }
    destruct (buf_ok_splice s1 (Z.to_nat (from_offset p)) bs G2
                ltac:(cbn [s_np s1 rebuf set_p set_maxp set_np]; lia)) as [Hb' Hp'].
    eexists. split; [reflexivity|]. rewrite Hp', G3.
    split; [|split; [reflexivity|repeat split]].
    replace (Z.to_nat (datasize p)) with (length bs) at 1 by lia.
    apply splice_read. rewrite length_app, length_replicate.
    pose proof (payload_length s Hb). lia.
  - intros Hshort. rewrite scon_put_short by lia. reflexivity.
Qed.

Lemma savedata_scon_witness :
  exists s',
    savedata amd64 asm0 (newsym "x") (data_scon 2 3 [104; 105; 33; 0]) = Ret (s', [])
    /\ take (Z.to_nat 3) (drop (Z.to_nat 2) (payload s')) = take (Z.to_nat 3) [104; 105; 33; 0]
    /\ payload s'
       = splice ([] ++ replicate (Z.to_nat (2 + 3 - 0)) 0) (Z.to_nat 2)
           (take (Z.to_nat 3) [104; 105; 33; 0])
    /\ s_size s' = 0 /\ s_type s' = 0 /\ s_r s' = [].
Proof.
  apply (savedata_scon amd64 asm0 (newsym "x") (data_scon 2 3 [104; 105; 33; 0])).
  - apply newsym_buf_ok.
  - reflexivity.
  - discriminate.
  - simpl. lia.
  - simpl. lia.
  - simpl. lia.
  - simpl. lia.
Defined.

(** X21: [savedata] of an address or of a size, with [off + siz] within
    [2^30], writes no byte: it grows
    the payload with zeros to [off + siz] and appends one record
    [{off, siz, type, add = to.offset, sym = to.sym}], whose type is
    [D_SIZE] for an operand of type [D_SIZE] and [D_ADDR] otherwise, also
    for a constant that names a symbol. *)
Theorem savedata_addr cfg asm s p :
  buf_ok s ->
  to_type p <> D_FCONST asm -> to_type p <> D_SCONST asm ->
  (to_type p = D_CONST asm /\ to_sym p <> None)
  \/ (to_type p <> D_CONST asm /\ (to_type p = D_ADDR cfg \/ to_type p = D_SIZE cfg)) ->
  0 <= from_offset p < 2 ^ 30 -> 0 <= datasize p < 100 ->
  from_offset p + datasize p <= 2 ^ 30 ->
  exists s',
    savedata cfg asm s p = Ret (s', [])
    /\ s_r s' = s_r s ++ [mkReloc (from_offset p) (datasize p)
                            (if to_type p =? D_SIZE cfg then D_SIZE cfg else D_ADDR cfg)
                            (to_offset p) (to_sym p)]
    /\ payload s'
       = payload s ++ replicate (Z.to_nat (from_offset p + datasize p - s_np s)) 0
    /\ s_size s' = s_size s /\ s_type s' = s_type s.
Proof.
  intros Hb Hnf Hns Hcase Hoff Hsiz Hend.
  destruct (savedata_checks p Hoff Hsiz) as (E1 & E2 & E3).
  destruct (savedata_grow s _ _ Hb Hoff Hsiz Hend) as (m & q & G1 & G2 & G3 & G4).
  cbv zeta in *.
  set (s1 := rebuf s (Z.max (s_np s) (from_offset p + datasize p)) m q) in *.
  exists (addrel s1 (mkReloc (from_offset p) (datasize p)
                       (if to_type p =? D_SIZE cfg then D_SIZE cfg else D_ADDR cfg)
                       (to_offset p) (to_sym p))).
  split.
  - unfold savedata. rewrite E1, E2, E3, G1.
    destruct (to_type p =? D_FCONST asm) eqn:F1; [lia|].
    destruct (to_type p =? D_SCONST asm) eqn:F2; [lia|].
    destruct Hcase as [[Hc Hsym]|[Hc Had]].
    + rewrite Hc at 1. rewrite Z.eqb_refl. destruct (to_sym p); [reflexivity|congruence].
    + destruct (to_type p =? D_CONST asm) eqn:F3; [lia|].
      replace ((to_type p =? D_ADDR cfg) || (to_type p =? D_SIZE cfg)) with true;
        [reflexivity|].
      destruct Had as [Ha | Ha]; rewrite Ha, Z.eqb_refl;
        [reflexivity|symmetry; apply orb_true_r].
  - split; [reflexivity|]. split; [rewrite addrel_payload; exact G3|].
    split; reflexivity.
Qed.

Lemma savedata_addr_witness :
  exists s',
    savedata amd64 asm0 (newsym "x") (data_addr 8 8 1 4) = Ret (s', [])
    /\ s_r s' = [] ++ [mkReloc 8 8 (D_ADDR amd64) 4 (Some 1%nat)]
    /\ payload s' = [] ++ replicate (Z.to_nat (8 + 8 - 0)) 0
    /\ s_size s' = 0 /\ s_type s' = 0.
Proof.
  apply (savedata_addr amd64 asm0 (newsym "x") (data_addr 8 8 1 4)).
  - apply newsym_buf_ok.
  - discriminate.
  - discriminate.
  - right. split; [discriminate|left; reflexivity].
  - simpl. lia.
  - simpl. lia.
  - simpl. lia.
Defined.

(** ** Writing the image *)

Lemma fmap_seqZ_eq (f : Z -> Z) (l : list Z) a n :
  0 <= n -> length l = Z.to_nat n ->
  (forall k x, l !! k = Some x -> f (a + Z.of_nat k) = x) ->
  f <$> seqZ a n = l.
Proof.
  intros Hn Hl Hf. apply list_eq. intros i. rewrite list_lookup_fmap.
  destruct (decide (Z.of_nat i < n)) as [Hi|Hi].
  - rewrite lookup_seqZ_lt by exact Hi. simpl.
    destruct (lookup_lt_is_Some_2 l i ltac:(lia)) as [x Hx].
    rewrite Hx. f_equal. apply Hf, Hx.
  - rewrite lookup_seqZ_ge by lia. simpl. symmetry. apply lookup_ge_None_2. lia.
Qed.

Lemma fmap_seqZ_zeros (f : Z -> Z) a b :
  (forall x, a <= x < b -> f x = 0) -> f <$> seqZ a (b - a) = zeros_to a b.
Proof.
  intros Hf. unfold zeros_to. destruct (decide (0 <= b - a)) as [Hn|Hn].
  - apply fmap_seqZ_eq; [exact Hn|apply length_replicate|].
    intros k x Hk. apply lookup_replicate in Hk as [-> Hk]. apply Hf. lia.
  - rewrite seqZ_nil by lia. replace (Z.to_nat (b - a)) with 0%nat by lia. reflexivity.
Qed.

Lemma fmap_seqZ_ext (f g : Z -> Z) a n :
  (forall x, a <= x < a + n -> f x = g x) -> f <$> seqZ a n = g <$> seqZ a n.
Proof.
  intros H. apply list_fmap_ext. intros i x Hx. apply H.
  apply lookup_seqZ in Hx. lia.
Qed.

Lemma byte_at_before cfg h : forall l lo a,
  laid_out cfg h l lo -> a < lo -> byte_at cfg h l a = 0.
Proof.
  induction l as [|id l IH]; intros lo a Hl Ha; [reflexivity|].
  cbn [byte_at laid_out] in *. destruct (h !! id) as [sym|]; [|reflexivity].
  destruct (negb (Z.land (s_type sym) (SSUB cfg) =? 0)); [eapply IH; eassumption|].
  destruct Hl as (H1 & H2 & H3 & H4).
  destruct (s_value sym <=? a) eqn:E; [lia|]. cbn [andb].
  eapply IH; [exact H4|]. lia.
Qed.

Lemma clear_at_tail cfg h id l a : clear_at cfg h (id :: l) a -> clear_at cfg h l a.
Proof. intros H x sym Hx. apply H. right. exact Hx. Qed.

(** The second loop on symbols that are laid out. *)
Lemma blk_emit_image cfg h eaddr : eaddr < 2 ^ 31 -> forall l cur out,
  laid_out cfg h l cur -> clear_at cfg h l eaddr -> cur <= eaddr ->
  - 2 ^ 31 <= cur ->
  exists cur',
    blk_emit cfg h l cur eaddr out
    = Ret (cur', out ++ (byte_at cfg h l <$> seqZ cur (cur' - cur)))
    /\ cur <= cur' <= eaddr
    /\ forall a, cur' <= a < eaddr -> byte_at cfg h l a = 0.
Proof.
  intros Hmax. induction l as [|id l IH]; intros cur out Hl Hc Hle Hmin.
  - exists cur. cbn [blk_emit]. rewrite Z.sub_diag, seqZ_nil, app_nil_r by lia.
    split; [reflexivity|]. split; [lia|]. reflexivity.
  - cbn [blk_emit laid_out byte_at] in *.
    destruct (h !! id) as [sym|] eqn:Hs; [|destruct Hl].
    destruct (negb (Z.land (s_type sym) (SSUB cfg) =? 0)) eqn:Esub.
    { apply (IH cur out Hl (clear_at_tail _ _ _ _ _ Hc) Hle Hmin). }
    destruct Hl as (H1 & H2 & H3 & H4).
    assert (Hns : Z.land (s_type sym) (SSUB cfg) = 0).
    { apply negb_false_iff in Esub. lia. }
    destruct (s_value sym >=? eaddr) eqn:E1.
    { exists cur. rewrite Z.sub_diag, seqZ_nil, app_nil_r by lia.
      split; [reflexivity|]. split; [lia|]. intros a Ha.
      destruct (s_value sym <=? a) eqn:E2; [lia|]. cbn [andb].
      eapply byte_at_before; [exact H4|]. lia. }
    destruct (s_value sym <? cur) eqn:E2; [lia|].
    destruct (Z.of_nat (length (s_p sym)) <? s_np sym) eqn:E3; [lia|].
    assert (Hfit : s_value sym + s_size sym <= eaddr).
    { specialize (Hc id sym ltac:(left) Hs Hns). lia. }
    rewrite (Z.max_r cur) by lia.
    rewrite (int32_id (s_value sym + s_np sym)) by lia.
    destruct (s_value sym + s_size sym >=? 2 ^ 31) eqn:Ew; [lia|].
    rewrite andb_false_r.
    rewrite (Z.max_r (s_value sym + s_np sym)) by lia.
    rewrite Z.eqb_refl. cbn [negb].
    destruct (IH (s_value sym + s_size sym)
                (((out ++ zeros_to cur (s_value sym))
                  ++ take (Z.to_nat (s_np sym)) (s_p sym))
                 ++ zeros_to (s_value sym + s_np sym) (s_value sym + s_size sym))
                H4 (clear_at_tail _ _ _ _ _ Hc) Hfit ltac:(lia))
      as (cur' & E & Hr & Hz).
    exists cur'. rewrite E. split; [|split; [lia|]].
    + f_equal. f_equal. rewrite <- !app_assoc. f_equal.
      set (f := fun a => if (s_value sym <=? a) && (a <? s_value sym + s_np sym)
                         then default 0 (s_p sym !! Z.to_nat (a - s_value sym))
                         else byte_at cfg h l a).
      change (fun a => _) with f.
      replace (cur' - cur)
        with ((s_value sym - cur)
              + (s_np sym + ((s_size sym - s_np sym)
                             + (cur' - (s_value sym + s_size sym))))) by lia.
      rewrite !seqZ_app, !fmap_app by lia. f_equal; [|f_equal; [|f_equal]].
      * symmetry. apply fmap_seqZ_zeros. intros x Hx. unfold f.
        destruct (s_value sym <=? x) eqn:E4; [lia|]. cbn [andb].
        eapply byte_at_before; [exact H4|]. lia.
      * symmetry. replace (cur + (s_value sym - cur)) with (s_value sym) by lia.
        apply fmap_seqZ_eq; [lia|rewrite length_take; lia|].
        intros k x Hk. apply lookup_take_Some in Hk as [Hk Hlt]. unfold f.
        destruct (s_value sym <=? s_value sym + Z.of_nat k) eqn:E4; [|lia].
        destruct (s_value sym + Z.of_nat k <? s_value sym + s_np sym) eqn:E5; [|lia].
        cbn [andb].
        replace (Z.to_nat (s_value sym + Z.of_nat k - s_value sym)) with k by lia.
        rewrite Hk. reflexivity.
      * symmetry.
        replace (cur + (s_value sym - cur) + s_np sym) with (s_value sym + s_np sym) by lia.
        replace (s_size sym - s_np sym)
          with (s_value sym + s_size sym - (s_value sym + s_np sym)) by lia.
        apply fmap_seqZ_zeros. intros x Hx. unfold f.
        destruct (x <? s_value sym + s_np sym) eqn:E4; [lia|].
        rewrite andb_false_r. eapply byte_at_before; [exact H4|]. lia.
      * replace (cur + (s_value sym - cur) + s_np sym + (s_size sym - s_np sym))
          with (s_value sym + s_size sym) by lia.
        apply fmap_seqZ_ext. intros x Hx. unfold f.
        destruct (x <? s_value sym + s_np sym) eqn:E4; [lia|].
        rewrite andb_false_r. reflexivity.
    + intros a Ha. destruct (a <? s_value sym + s_np sym) eqn:E4; [lia|].
      rewrite andb_false_r. apply Hz, Ha.
Qed.

(** The first loop on symbols that are laid out. *)
Lemma blk_seek_image cfg h addr : forall l lo,
  laid_out cfg h l lo -> clear_at cfg h l addr ->
  exists l',
    blk_seek cfg h l addr = Some l'
    /\ laid_out cfg h l' addr
    /\ (forall a, clear_at cfg h l a -> clear_at cfg h l' a)
    /\ forall a, addr <= a -> byte_at cfg h l a = byte_at cfg h l' a.
Proof.
  induction l as [|id l IH]; intros lo Hl Hc.
  - exists []. repeat split; auto.
  - cbn [blk_seek laid_out] in *.
    destruct (h !! id) as [sym|] eqn:Hs; [|destruct Hl]. cbn [mbind option_bind].
    destruct (Z.land (s_type sym) (SSUB cfg) =? 0) eqn:Esub; cbn [negb andb] in *.
    + destruct Hl as (H1 & H2 & H3 & H4).
      destruct (s_value sym >=? addr) eqn:E1.
      * exists (id :: l). split; [reflexivity|]. split; [|auto].
        cbn [laid_out]. rewrite Hs, Esub. cbn [negb]. repeat split; auto; lia.
      * assert (Hend : s_value sym + s_size sym <= addr).
        { specialize (Hc id sym ltac:(left) Hs ltac:(lia)). lia. }
        destruct (IH _ H4 (clear_at_tail _ _ _ _ _ Hc)) as (l' & E & L' & C' & B').
        exists l'. split; [exact E|]. split; [exact L'|].
        split; [intros a Ha; apply C', (clear_at_tail _ _ _ _ _ Ha)|].
        intros a Ha. cbn [byte_at]. rewrite Hs, Esub. cbn [negb].
        destruct (a <? s_value sym + s_np sym) eqn:E4; [lia|].
        rewrite andb_false_r. apply B', Ha.
    + destruct (IH _ Hl (clear_at_tail _ _ _ _ _ Hc)) as (l' & E & L' & C' & B').
      exists l'. split; [exact E|]. split; [exact L'|].
      split; [intros a Ha; apply C', (clear_at_tail _ _ _ _ _ Ha)|].
      intros a Ha. cbn [byte_at]. rewrite Hs, Esub. cbn [negb]. apply B', Ha.
Qed.

(** X23: [blk] writes the memory image.  When the block [addr, addr+size)
    lies below [2^31] (addresses are [int32] here), the symbols of the list
    that are not sub-symbols lie one after the other, each payload inside
    its size, and none lies across the start or the end of the block, the
    call returns after writing exactly [size] bytes: at each address of
    [addr, addr+size) the payload byte of the symbol that holds it, and zero
    in the gaps between symbols and in the tail of a symbol past its
    payload. *)
Theorem blk_image cfg h l lo addr size :
  laid_out cfg h l lo ->
  clear_at cfg h l addr -> clear_at cfg h l (addr + size) ->
  0 <= size < 2 ^ 31 -> - 2 ^ 31 <= addr -> addr + size < 2 ^ 31 ->
  blk cfg h l addr size = Ret (byte_at cfg h l <$> seqZ addr size)
  /\ length (byte_at cfg h l <$> seqZ addr size) = Z.to_nat size.
Proof.
  intros Hl Hc1 Hc2 Hs Ha Hsz. split; [|rewrite length_fmap; apply length_seqZ].
  unfold blk. cbv zeta. rewrite (int32_id addr), (int32_id size) by lia.
  rewrite (int32_id (addr + size)) by lia.
  destruct (blk_seek_image cfg h addr l lo Hl Hc1) as (l' & E & L' & C' & B').
  rewrite E.
  destruct (blk_emit_image cfg h (addr + size) Hsz l' addr [] L' (C' _ Hc2)
              ltac:(lia) ltac:(lia)) as (cur' & E' & Hr & Hz).
  rewrite E'. f_equal. cbn [app].
  rewrite <- (fmap_seqZ_zeros (byte_at cfg h l') cur' (addr + size) Hz).
  rewrite <- fmap_app.
  assert (Hseq : seqZ addr (cur' - addr) ++ seqZ cur' (addr + size - cur')
                 = seqZ addr size).
  { replace size with ((cur' - addr) + (addr + size - cur')) at 2 by lia.
    rewrite seqZ_app by lia. repeat f_equal. lia. }
  rewrite Hseq. symmetry. apply fmap_seqZ_ext.
  intros x Hx. apply B'. lia.
Qed.

Lemma blk_image_witness :
  blk amd64 img_heap [0; 1; 2]%nat 4096 12
  = Ret (byte_at amd64 img_heap [0; 1; 2]%nat <$> seqZ 4096 12)
  /\ length (byte_at amd64 img_heap [0; 1; 2]%nat <$> seqZ 4096 12) = Z.to_nat 12.
Proof.
  apply (blk_image amd64 img_heap [0; 1; 2]%nat 0 4096 12).
  - vm_compute. repeat split; discriminate.
  - intros id sym Hid.
    repeat (apply elem_of_cons in Hid as [->|Hid]); [| | |inversion Hid];
      vm_compute; intros [= <-] _ [H1 H2]; discriminate.
  - intros id sym Hid.
    repeat (apply elem_of_cons in Hid as [->|Hid]); [| | |inversion Hid];
      vm_compute; intros [= <-] _ [H1 H2]; discriminate.
  - lia.
  - lia.
  - lia.
Defined.

(** The block of the example, byte by byte. *)
Example blk_image_bytes :
  blk amd64 img_heap [0; 1; 2]%nat 4096 12 = Ret [1; 2; 0; 0; 0; 0; 0; 0; 9; 8; 0; 0].
Proof. vm_compute. reflexivity. Qed.

(** ** Kinds of the symbols that have data *)

Lemma promoted_twice cfg s :
  SDATA cfg <> SBSS cfg -> SDATA cfg <> SNOPTRBSS cfg ->
  SNOPTRDATA cfg <> SBSS cfg -> SNOPTRDATA cfg <> SNOPTRBSS cfg ->
  promoted cfg (promoted cfg s) = promoted cfg s.
Proof.
  intros H1 H2 H3 H4. unfold promoted.
  destruct (s_np s >? 0) eqn:E; [|rewrite E; reflexivity].
  destruct (s_type s =? SBSS cfg) eqn:E1.
  - cbn [s_np s_type set_type]. rewrite E.
    destruct (SDATA cfg =? SBSS cfg) eqn:F1; [lia|].
    destruct (SDATA cfg =? SNOPTRBSS cfg) eqn:F2; [lia|]. reflexivity.
  - destruct (s_type s =? SNOPTRBSS cfg) eqn:E2.
    + cbn [s_np s_type set_type]. rewrite E.
      destruct (SNOPTRDATA cfg =? SBSS cfg) eqn:F1; [lia|].
      destruct (SNOPTRDATA cfg =? SNOPTRBSS cfg) eqn:F2; [lia|]. reflexivity.
    + rewrite E, E1, E2. reflexivity.
Qed.

Lemma dosymtype_loop_spec cfg :
  SDATA cfg <> SBSS cfg -> SDATA cfg <> SNOPTRBSS cfg ->
  SNOPTRDATA cfg <> SBSS cfg -> SNOPTRDATA cfg <> SNOPTRBSS cfg ->
  forall l h,
    (forall id, id ∈ l -> is_Some (h !! id)) ->
    exists h',
      dosymtype_loop cfg l h = Some h'
      /\ forall id, h' !! id
                    = if decide (id ∈ l) then promoted cfg <$> h !! id else h !! id.
Proof.
  intros H1 H2 H3 H4. induction l as [|x l IH]; intros h Hb.
  - exists h. split; [reflexivity|]. intros id.
    destruct (decide (id ∈ [])) as [Hin|]; [inversion Hin|reflexivity].
  - destruct (Hb x ltac:(left)) as [s Hs]. cbn [dosymtype_loop]. rewrite Hs.
    cbn [mbind option_bind].
    assert (Estep :
      (if s_np s >? 0 then
         if s_type (if s_type s =? SBSS cfg then set_type s (SDATA cfg) else s)
            =? SNOPTRBSS cfg
         then set_type (if s_type s =? SBSS cfg then set_type s (SDATA cfg) else s)
                (SNOPTRDATA cfg)
         else if s_type s =? SBSS cfg then set_type s (SDATA cfg) else s
       else s) = promoted cfg s).
    { unfold promoted. destruct (s_np s >? 0); [|reflexivity].
      destruct (s_type s =? SBSS cfg) eqn:E1; [|reflexivity].
      cbn [s_type set_type]. destruct (SDATA cfg =? SNOPTRBSS cfg) eqn:F; [lia|].
      reflexivity. }
    rewrite Estep.
    destruct (IH (<[x := promoted cfg s]> h)) as (h' & E & Hh').
    { intros id Hid. destruct (decide (id = x)) as [->|Hn].
      - rewrite lookup_insert_eq. eauto.
      - rewrite lookup_insert_ne by congruence. apply Hb. right. exact Hid. }
    exists h'. split; [exact E|]. intros id. rewrite Hh'.
    destruct (decide (id = x)) as [->|Hn].
    + rewrite lookup_insert_eq, Hs.
      destruct (decide (x ∈ x :: l)) as [_|Hn]; [|exfalso; apply Hn; left].
      destruct (decide (x ∈ l)); [|reflexivity]. cbn [fmap option_fmap option_map].
      rewrite promoted_twice by assumption. reflexivity.
    + rewrite lookup_insert_ne by congruence.
      destruct (decide (id ∈ l)) as [Hin|Hin], (decide (id ∈ x :: l)) as [Hin'|Hin'];
        try reflexivity.
      * exfalso. apply Hin'. right. exact Hin.
      * exfalso. apply elem_of_cons in Hin' as [?|?]; contradiction.
Qed.

(** X24: [dosymtype] gives data kinds to the symbols that have data.  It
    returns when the symbols of [allsym] exist; a symbol of [allsym] with a
    payload ([np > 0]) and kind [SBSS] becomes [SDATA], one of kind
    [SNOPTRBSS] becomes [SNOPTRDATA]; nothing else changes, in the list or
    outside; so afterwards no symbol of the list with a payload has a
    zeroed kind, and a second run changes nothing. *)
Theorem dosymtype_promotes cfg L :
  SDATA cfg <> SBSS cfg -> SDATA cfg <> SNOPTRBSS cfg ->
  SNOPTRDATA cfg <> SBSS cfg -> SNOPTRDATA cfg <> SNOPTRBSS cfg ->
  (forall id, id ∈ allsym L -> is_Some (syms L !! id)) ->
  exists L',
    dosymtype cfg L = Some L'
    /\ L' = set_syms L (syms L')
    /\ (forall id, syms L' !! id
                   = if decide (id ∈ allsym L) then promoted cfg <$> syms L !! id
                     else syms L !! id)
    /\ (forall id s', id ∈ allsym L -> syms L' !! id = Some s' -> 0 < s_np s' ->
          s_type s' <> SBSS cfg /\ s_type s' <> SNOPTRBSS cfg)
    /\ dosymtype cfg L' = Some L'.
Proof.
  intros H1 H2 H3 H4 Hb.
  destruct (dosymtype_loop_spec cfg H1 H2 H3 H4 (allsym L) (syms L) Hb) as (h' & E & Hh').
  exists (set_syms L h'). unfold dosymtype, on_syms. rewrite E.
  split; [reflexivity|]. split; [reflexivity|]. cbn [syms allsym set_syms].
  split; [exact Hh'|]. split.
  - intros id s' Hin Hs' Hnp. rewrite Hh' in Hs'.
    destruct (decide (id ∈ allsym L)); [|contradiction].
    destruct (syms L !! id) as [s|]; [|discriminate]. injection Hs' as <-.
    unfold promoted in *. destruct (s_np s >? 0) eqn:E0; [|lia].
    destruct (s_type s =? SBSS cfg) eqn:E1; [cbn; lia|].
    destruct (s_type s =? SNOPTRBSS cfg) eqn:E2; [cbn; lia|]. lia.
  - destruct (dosymtype_loop_spec cfg H1 H2 H3 H4 (allsym L) h') as (h2 & E2 & Hh2).
    { intros id Hid. rewrite Hh'. destruct (decide (id ∈ allsym L)); [|contradiction].
      destruct (Hb id Hid) as [s ->]. eauto. }
    rewrite E2. cbn [mbind option_bind]. do 2 f_equal. apply map_eq. intros id.
    rewrite Hh2, Hh'.
    destruct (decide (id ∈ allsym L)); [|reflexivity].
    destruct (syms L !! id) as [s|]; [|reflexivity]. cbn [fmap option_fmap option_map].
    rewrite promoted_twice by assumption. reflexivity.
Qed.

Lemma dosymtype_promotes_witness :
  exists L',
    dosymtype amd64 (mkLink S3_heap [] [0; 1]%nat) = Some L'
    /\ L' = set_syms (mkLink S3_heap [] [0; 1]%nat) (syms L')
    /\ (forall id, syms L' !! id
                   = if decide (id ∈ allsym (mkLink S3_heap [] [0; 1]%nat))
                     then promoted amd64 <$> syms (mkLink S3_heap [] [0; 1]%nat) !! id
                     else syms (mkLink S3_heap [] [0; 1]%nat) !! id)
    /\ (forall id s', id ∈ allsym (mkLink S3_heap [] [0; 1]%nat) ->
          syms L' !! id = Some s' -> 0 < s_np s' ->
          s_type s' <> SBSS amd64 /\ s_type s' <> SNOPTRBSS amd64)
    /\ dosymtype amd64 L' = Some L'.
Proof.
  apply (dosymtype_promotes amd64 (mkLink S3_heap [] [0; 1]%nat)); try discriminate.
  intros id Hid.
  repeat (apply elem_of_cons in Hid as [->|Hid]); [| |inversion Hid];
    eexists; reflexivity.
Defined.

(** Scenario S3: the symbol with 8 bytes of payload leaves the kind BSS,
    the empty one keeps it. *)
Example dosymtype_S3 :
  (L ← dosymtype amd64 (mkLink S3_heap [] [0; 1]%nat);
   c ← syms L !! 0%nat; z ← syms L !! 1%nat; Some (s_type c, s_type z))
  = Some (SDATA amd64, SBSS amd64).
Proof. vm_compute. reflexivity. Qed.

(** ** Alignment of the data symbols *)

Lemma rnd_spec v r : 0 < r -> v <= rnd v r < v + r /\ (r | rnd v r).
Proof.
  intros Hr. unfold rnd. destruct (r <=? 0) eqn:E; [lia|].
  pose proof (Z.mod_pos_bound (v + r - 1) r Hr). split; [lia|].
  apply Z.mod_divide; [lia|]. rewrite Zminus_mod_idemp_r, Z.sub_diag. reflexivity.
Qed.

Lemma land_low_of_multiple n t k :
  0 <= n -> (2 ^ n | t) -> 0 <= k < 2 ^ n -> Z.land t k = 0.
Proof.
  intros Hn [q ->] Hk.
  assert (E : Z.land (q * 2 ^ n) (Z.ones n) = 0).
  { rewrite Z.land_ones by lia. apply Z_mod_mult. }
  replace k with (Z.land (Z.ones n) k).
  - rewrite Z.land_assoc, E. reflexivity.
  - rewrite Z.land_comm, Z.land_ones by lia. apply Z.mod_small. lia.
Qed.

Lemma alignsymsize_padded cfg s :
  PtrSize cfg = 4 \/ PtrSize cfg = 8 -> 0 <= s < 2 ^ 31 - 8 ->
  s <= alignsymsize cfg s < s + 8
  /\ (8 <= s -> (8 | alignsymsize cfg s))
  /\ (2 < s -> (4 | alignsymsize cfg s))
  /\ (s <= 2 -> alignsymsize cfg s = s).
Proof.
  intros HP Hs. unfold alignsymsize. cbv zeta. rewrite (int32_id s) by lia.
  destruct (s >=? 8) eqn:E8.
  { pose proof (rnd_spec s 8 ltac:(lia)) as [? [q Hq]].
    rewrite int32_id by lia.
    split; [lia|]. split; [intros _; exists q; exact Hq|].
    split; [intros _; exists (2 * q); lia|lia]. }
  destruct (s >=? PtrSize cfg) eqn:EP.
  { assert (PtrSize cfg = 4) as -> by lia.
    pose proof (rnd_spec s 4 ltac:(lia)) as [? ?].
    rewrite int32_id by lia.
    split; [lia|]. split; [lia|]. split; [auto|lia]. }
  destruct (s >? 2) eqn:E2.
  { pose proof (rnd_spec s 4 ltac:(lia)) as [? ?].
    rewrite int32_id by lia.
    split; [lia|]. split; [lia|]. split; [auto|lia]. }
  split; [lia|]. split; [lia|]. split; [lia|reflexivity].
Qed.

(** X25: where [aligndatsize] puts a symbol, as long as the place stays
    below [2^31] (the offset is an [int32]).  With an explicit [align] the
    place is the next multiple of it.  Without one, the place moves up by
    less than 8 and is aligned as the size asks: a symbol of 8 bytes or
    more starts at a multiple of 8, one of at least a pointer at a multiple
    of the pointer size, one of more than 2 bytes at a multiple of 4, one of
    2 bytes at a multiple of 2. *)
Theorem aligndatsize_natural cfg datsize s :
  PtrSize cfg = 4 \/ PtrSize cfg = 8 ->
  0 <= datsize -> 0 <= s_size s < 2 ^ 31 - 8 -> 0 <= s_align s ->
  datsize + s_align s < 2 ^ 31 -> datsize + 8 < 2 ^ 31 ->
  (0 < s_align s ->
     datsize <= aligndatsize cfg datsize s < datsize + s_align s
     /\ (s_align s | aligndatsize cfg datsize s))
  /\ (s_align s = 0 ->
      datsize <= aligndatsize cfg datsize s < datsize + 8
      /\ (8 <= s_size s -> (8 | aligndatsize cfg datsize s))
      /\ (PtrSize cfg <= s_size s -> (PtrSize cfg | aligndatsize cfg datsize s))
      /\ (2 < s_size s -> (4 | aligndatsize cfg datsize s))
      /\ (2 <= s_size s -> (2 | aligndatsize cfg datsize s))).
Proof.
  intros HP Hd Hs Ha Hra Hr8. unfold aligndatsize. cbv zeta.
  rewrite (int32_id datsize) by lia. split.
  - intros Hpos. destruct (s_align s =? 0) eqn:E; [lia|]. cbn [negb].
    pose proof (rnd_spec datsize (s_align s) Hpos) as [B D].
    rewrite int32_id by lia. split; [exact B|exact D].
  - intros H0. rewrite H0. cbn [Z.eqb negb].
    destruct (alignsymsize_padded cfg (s_size s) HP ltac:(lia)) as (Hb & H8 & H4 & H2).
    set (t := alignsymsize cfg (s_size s)) in *.
    pose proof (rnd_spec datsize 2 ltac:(lia)) as [B2 D2].
    pose proof (rnd_spec datsize 4 ltac:(lia)) as [B4 D4].
    pose proof (rnd_spec datsize 8 ltac:(lia)) as [B8 D8].
    rewrite (int32_id (rnd datsize 2)), (int32_id (rnd datsize 4)),
      (int32_id (rnd datsize 8)) by lia.
    assert (D84 : (4 | rnd datsize 8)) by (destruct D8 as [q Hq]; exists (2 * q); lia).
    assert (D82 : (2 | rnd datsize 8)) by (destruct D8 as [q Hq]; exists (4 * q); lia).
    assert (D42 : (2 | rnd datsize 4)) by (destruct D4 as [q Hq]; exists (2 * q); lia).
    assert (L8 : 8 <= s_size s -> Z.land t 1 = 0 /\ Z.land t 2 = 0 /\ Z.land t 4 = 0).
    { intros H. specialize (H8 H).
      repeat split; apply (land_low_of_multiple 3); try exact H8; lia. }
    assert (L4 : 2 < s_size s -> Z.land t 1 = 0 /\ Z.land t 2 = 0).
    { intros H. specialize (H4 H).
      repeat split; apply (land_low_of_multiple 2); try exact H4; lia. }
    assert (L2 : 2 <= s_size s -> Z.land t 1 = 0).
    { intros H. destruct (Z.eq_dec (s_size s) 2) as [E|E].
      - rewrite H2, E by lia. reflexivity.
      - apply L4. lia. }
    assert (F1 : 2 <= s_size s -> (Z.land t 1 =? 0) = true)
      by (intros H; apply L2 in H; lia).
    assert (F2 : 2 < s_size s -> (Z.land t 2 =? 0) = true)
      by (intros H; apply L4 in H; lia).
    assert (F4 : 8 <= s_size s -> (Z.land t 4 =? 0) = true)
      by (intros H; apply L8 in H; lia).
    destruct (Z.land t 1 =? 0) eqn:E1; cbn [negb].
    2:{ split; [lia|].
        split; [|split; [|split]]; intros H; exfalso;
          specialize (F1 ltac:(lia)); discriminate F1. }
    destruct (Z.land t 2 =? 0) eqn:E2; cbn [negb].
    2:{ split; [lia|]. split; [|split; [|split]]; intros H; try exact D2;
          exfalso; specialize (F2 ltac:(lia)); discriminate F2. }
    destruct (Z.land t 4 =? 0) eqn:E4; cbn [negb].
    2:{ split; [lia|]. split; [|split; [|split]]; intros H;
          try exact D4; try exact D42.
        - exfalso. specialize (F4 ltac:(lia)). discriminate F4.
        - destruct HP as [HP | HP]; rewrite HP in *; [exact D4|].
          exfalso. specialize (F4 ltac:(lia)). discriminate F4. }
    split; [lia|]. split; [|split; [|split]]; intros H;
      try exact D8; try exact D84; try exact D82.
    destruct HP as [HP | HP]; rewrite HP; [exact D84|exact D8].
Qed.

Lemma aligndatsize_natural_witness :
  (0 < s_align S4_typed ->
     13 <= aligndatsize amd64 13 S4_typed < 13 + s_align S4_typed
     /\ (s_align S4_typed | aligndatsize amd64 13 S4_typed))
  /\ (s_align S4_typed = 0 ->
      13 <= aligndatsize amd64 13 S4_typed < 13 + 8
      /\ (8 <= s_size S4_typed -> (8 | aligndatsize amd64 13 S4_typed))
      /\ (PtrSize amd64 <= s_size S4_typed -> (PtrSize amd64 | aligndatsize amd64 13 S4_typed))
      /\ (2 < s_size S4_typed -> (4 | aligndatsize amd64 13 S4_typed))
      /\ (2 <= s_size S4_typed -> (2 | aligndatsize amd64 13 S4_typed))).
Proof.
  apply (aligndatsize_natural amd64 13 S4_typed);
    [right; reflexivity | lia | simpl; lia | simpl; lia | simpl; lia | lia].
Defined.

(** ** The garbage collector's record of a typed symbol *)

Lemma uint_image_zero cfg wid :
  tables_ok cfg -> wid = 1 \/ wid = 2 \/ wid = 4 \/ wid = 8 ->
  uint_image cfg wid 0 = replicate (Z.to_nat wid) 0.
Proof.
  intros HT Hw. pose proof (uint_image_length cfg wid 0 HT Hw) as Hl.
  replace (Z.to_nat wid) with (length (uint_image cfg wid 0)) by lia.
  unfold uint_image, nuxi_image. rewrite length_fmap.
  induction (uint_table cfg wid) as [|j tab IH]; [reflexivity|].
  cbn [fmap list_fmap length replicate]. f_equal; [|exact IH].
  unfold byte_of. rewrite Z.shiftr_0_l. reflexivity.
Qed.

(** X26: the record of a typed symbol.  For a symbol with a Go type, not
    named [.string], of at least a pointer, and while the GC symbol stays
    within [2^30] bytes, [gcaddsym] appends to the GC symbol three
    pointer-sized words: [GC_CALL], the offset [off], and a
    zeroed slot; the first four bytes of the slot carry one [D_PCREL]
    record of size 4 to the program of the type, with addend
    [3 * PtrSize + 4].  The symbol's own size plays no other part. *)
Theorem gcaddsym_typed cfg ext gc sid off h s g ty t :
  tables_ok cfg -> PtrSize cfg = 4 \/ PtrSize cfg = 8 ->
  h !! sid = Some s -> h !! gc = Some g ->
  s_gotype s = Some ty -> strcmp (s_name s) ".string" <> 0 ->
  PtrSize cfg <= s_size s -> - 2 ^ 31 <= off < 2 ^ 31 ->
  (forall h', decodetype_gc ext h' ty = Some t) ->
  enc_ok g -> s_size g + 3 * PtrSize cfg <= 2 ^ 30 ->
  exists g',
    gcaddsym cfg ext gc sid off h = Some (<[gc := g']> h)
    /\ payload g' = payload g ++ gc_call cfg off
    /\ s_r g' = s_r g ++ [mkReloc (s_size g + 2 * PtrSize cfg) 4 (D_PCREL cfg)
                            (3 * PtrSize cfg + 4) (Some t)]
    /\ s_size g' = s_size g + 3 * PtrSize cfg.
Proof.
  intros HT HP Hs Hg Hgo Hname Hsz Hoff Hdec He Hlt.
  assert (HP' : PtrSize cfg = 1 \/ PtrSize cfg = 2 \/ PtrSize cfg = 4 \/ PtrSize cfg = 8)
    by lia.
  unfold gcaddsym. rewrite int32_id by lia. rewrite Hs. cbn [mbind option_bind].
  destruct (s_size s <? PtrSize cfg) eqn:E1; [lia|].
  destruct (strcmp (s_name s) ".string" =? 0) eqn:E2; [lia|].
  rewrite Hgo.
  destruct (adduintxx_at_grown cfg h gc g (GC_CALL cfg) (PtrSize cfg) HT Hg He
              ltac:(lia) HP') as (g1 & A1 & G1).
  rewrite A1. cbn [mbind option_bind].
  pose proof (grown_by_fields _ _ _ _ _ G1) as (F1 & _).
  rewrite uint_image_length in F1 by assumption.
  destruct (adduintxx_at_grown cfg (<[gc := g1]> h) gc g1 off (PtrSize cfg) HT
              (lookup_insert_eq _ _ _) (grown_enc _ _ _ _ _ G1) ltac:(lia) HP')
    as (g2 & A2 & G2).
  rewrite A2, insert_insert_eq. cbn [mbind option_bind].
  pose proof (grown_by_fields _ _ _ _ _ G2) as (F2 & _).
  rewrite uint_image_length in F2 by assumption.
  rewrite Hdec. cbn [mbind option_bind].
  destruct (addpcrelplus_grown cfg g2 (Some t) (3 * PtrSize cfg + 4)
              (grown_enc _ _ _ _ _ G2) ltac:(lia)) as (g3 & A3 & G3).
  unfold at_sym at 1. rewrite lookup_insert_eq. cbn [mbind option_bind].
  rewrite A3. cbn [mbind option_bind]. rewrite insert_insert_eq.
  rewrite (int32_id (3 * PtrSize cfg + 4)) in G3 by lia.
  pose proof (grown_by_fields _ _ _ _ _ G3) as (F3 & _). cbn [length] in F3.
  pose proof (grown_by_trans _ _ _ _ _ _ _ _ G1 G2) as G12.
  pose proof (grown_by_trans _ _ _ _ _ _ _ _ G12 G3) as G123.
  unfold gc_call.
  destruct (PtrSize cfg =? 8) eqn:E8.
  - destruct (adduintxx_at_grown cfg (<[gc := g3]> h) gc g3 0 4 HT
                (lookup_insert_eq _ _ _) (grown_enc _ _ _ _ _ G3) ltac:(lia)
                ltac:(lia)) as (g4 & A4 & G4).
    rewrite A4, insert_insert_eq. exists g4. split; [reflexivity|].
    rewrite uint_image_zero in G4 by (assumption || lia).
    pose proof (grown_by_trans _ _ _ _ _ _ _ _ G123 G4) as G.
    pose proof (grown_by_fields _ _ _ _ _ G) as (Fs & Fr & _).
    rewrite (grown_payload _ _ _ _ _ G), Fr, Fs, F2, F1.
    replace (s_size g + PtrSize cfg + PtrSize cfg) with (s_size g + 2 * PtrSize cfg)
      by lia.
    rewrite <- !app_assoc. split; [reflexivity|]. split; [reflexivity|].
    rewrite !length_app, !Nat2Z.inj_add.
    rewrite !uint_image_length by assumption. rewrite length_replicate.
    cbn [length]. lia.
  - exists g3. split; [reflexivity|].
    pose proof (grown_by_fields _ _ _ _ _ G123) as (Fs & Fr & _).
    rewrite (grown_payload _ _ _ _ _ G123), Fr, Fs, F2, F1.
    replace (s_size g + PtrSize cfg + PtrSize cfg) with (s_size g + 2 * PtrSize cfg)
      by lia.
    rewrite <- !app_assoc, app_nil_r. split; [reflexivity|]. split; [reflexivity|].
    rewrite !length_app, !Nat2Z.inj_add.
    rewrite !uint_image_length by assumption. cbn [length]. lia.
Qed.

Lemma gcaddsym_typed_witness :
  exists g',
    gcaddsym amd64 ext0 0 1 64 S4_heap = Some (<[0%nat := g']> S4_heap)
    /\ payload g' = payload (newsym "gcdata") ++ gc_call amd64 64
    /\ s_r g' = s_r (newsym "gcdata")
                ++ [mkReloc (s_size (newsym "gcdata") + 2 * PtrSize amd64) 4
                      (D_PCREL amd64) (3 * PtrSize amd64 + 4) (Some 2%nat)]
    /\ s_size g' = s_size (newsym "gcdata") + 3 * PtrSize amd64.
Proof.
  apply (gcaddsym_typed amd64 ext0 0 1 64 S4_heap S4_typed (newsym "gcdata") 2 2).
  - exact amd64_tables_ok.
  - right. reflexivity.
  - reflexivity.
  - reflexivity.
  - reflexivity.
  - vm_compute. discriminate.
  - vm_compute. discriminate.
  - lia.
  - reflexivity.
  - apply newsym_enc_ok.
  - vm_compute. discriminate.
Defined.

(** The typed symbol of [S4_heap] on amd64: 24 bytes, and the record sits
    at offset 16 with addend 28. *)
Example gcaddsym_S4 :
  (h ← gcaddsym amd64 ext0 0 1 64 S4_heap; g ← h !! 0%nat;
   Some (s_size g, length (payload g), s_r g))
  = Some (24, 24%nat, [mkReloc 16 4 (D_PCREL amd64) 28 (Some 2%nat)]).
Proof. vm_compute. reflexivity. Qed.
